(** * Haynes-Co.CyberDefense: [src/js/security.js]

    A shallow embedding of the [WebsiteSecurity] class and of the part of the
    browser it talks to (strings, a regular expression, the element tree,
    event listeners and timers), followed by the properties of the
    validation engine.

    Conventions of the embedding.
    - A JavaScript string is a [string]; each character stands for one code
      unit below 256.
    - An element object is a [nat] (its identity); its properties live in
      the [heap] of the [document], the tree below [document.body] holds the
      identities only.  A reference kept by a closure is therefore an
      identity, as in the source.
    - The tree holds the elements attached to the document.  An element
      that is removed leaves it with all that is below it; the class never
      uses a removed element again, except to test its [parentNode] in the
      timer callback.  [appendChild] is the one of the source: it appends an
      element that was just created.
    - A method that may throw is a function [document -> result A].
    - An event is delivered to the listeners registered on its target, in
      the order of their registration; time is a clock in milliseconds and a
      queue of pending timers. *)

From Stdlib Require Import List String Ascii Bool Arith PeanoNat NArith Lia.
Import ListNotations.
Open Scope string_scope.
Open Scope nat_scope.
Open Scope list_scope.

Set Implicit Arguments.

(* ================================================================== *)
(** ** Strings *)

Module JSString.

(** White space and line terminators ([\s], [String.prototype.trim])
    among the code units below 256: TAB, LF, VT, FF, CR, SP, NBSP. *)
Definition isWhiteSpace (c : ascii) : bool :=
  let n := nat_of_ascii c in
  ((9 <=? n) && (n <=? 13)) || (n =? 32) || (n =? 160).

Definition isEmpty (s : string) : bool :=
  match s with EmptyString => true | String _ _ => false end.

(** [ToBoolean] of a string: the empty string is falsy. *)
Definition truthy (s : string) : bool := negb (isEmpty s).

Fixpoint trimStart (s : string) : string :=
  match s with
  | EmptyString => EmptyString
  | String c s' => if isWhiteSpace c then trimStart s' else s
  end.

Fixpoint trimEnd (s : string) : string :=
  match s with
  | EmptyString => EmptyString
  | String c s' =>
      let r := trimEnd s' in
      if isWhiteSpace c && isEmpty r then EmptyString else String c r
  end.

Definition trim (s : string) : string := trimEnd (trimStart s).

(** ASCII white space, on which a class attribute is split. *)
Definition isAsciiSpace (c : ascii) : bool :=
  let n := nat_of_ascii c in
  (n =? 9) || (n =? 10) || (n =? 12) || (n =? 13) || (n =? 32).

Definition flush (cur : string) (rest : list string) : list string :=
  if isEmpty cur then rest else cur :: rest.

(** The tokens of a class attribute; [cur] is the token being read. *)
Fixpoint tokensFrom (cur : string) (s : string) : list string :=
  match s with
  | EmptyString => flush cur []
  | String c s' =>
      if isAsciiSpace c then flush cur (tokensFrom EmptyString s')
      else tokensFrom (cur ++ String c EmptyString) s'
  end.

Definition tokens (s : string) : list string := tokensFrom EmptyString s.

(** [str.substr(start, length)] for non-negative arguments. *)
Definition substr (start len : nat) (s : string) : string :=
  String.substring start (Nat.min len (String.length s - start)) s.

End JSString.

(* ================================================================== *)
(** ** Regular expressions *)

Module RegExp.

Inductive regex : Type :=
| Never : regex
| Empty : regex
| Class : (ascii -> bool) -> regex
| Cat : regex -> regex -> regex
| Alt : regex -> regex -> regex
| Star : regex -> regex.

Definition Lit (c : ascii) : regex := Class (Ascii.eqb c).
Definition Plus (r : regex) : regex := Cat r (Star r).

Fixpoint nullable (r : regex) : bool :=
  match r with
  | Never => false
  | Empty => true
  | Class _ => false
  | Cat r1 r2 => nullable r1 && nullable r2
  | Alt r1 r2 => nullable r1 || nullable r2
  | Star _ => true
  end.

Fixpoint deriv (c : ascii) (r : regex) : regex :=
  match r with
  | Never => Never
  | Empty => Never
  | Class p => if p c then Empty else Never
  | Cat r1 r2 =>
      if nullable r1 then Alt (Cat (deriv c r1) r2) (deriv c r2)
      else Cat (deriv c r1) r2
  | Alt r1 r2 => Alt (deriv c r1) (deriv c r2)
  | Star r1 => Cat (deriv c r1) (Star r1)
  end.

Fixpoint accepts (r : regex) (s : list ascii) : bool :=
  match s with
  | [] => nullable r
  | c :: s' => accepts (deriv c r) s'
  end.

(** [/^r$/.test(s)]: without flags, [^] and [$] anchor the match at both
    ends of the input, so [test] decides whether the whole of [s] is a
    word of [r]. *)
Definition test (r : regex) (s : string) : bool :=
  accepts r (list_ascii_of_string s).

(** The words of a regular expression. *)
Inductive lang : regex -> list ascii -> Prop :=
| lang_Empty : lang Empty []
| lang_Class : forall p c, p c = true -> lang (Class p) [c]
| lang_Cat : forall r1 r2 u v, lang r1 u -> lang r2 v -> lang (Cat r1 r2) (u ++ v)
| lang_AltL : forall r1 r2 u, lang r1 u -> lang (Alt r1 r2) u
| lang_AltR : forall r1 r2 u, lang r2 u -> lang (Alt r1 r2) u
| lang_StarNil : forall r, lang (Star r) []
| lang_StarCons : forall r u v, lang r u -> lang (Star r) v -> lang (Star r) (u ++ v).

End RegExp.

(* ================================================================== *)
(** ** The document *)

Module File.
(** What the validator reads of a selected [File]. *)
Record File : Type := { type : string; size : N }.
End File.

Module DOM.

(** The properties of an element object that the class reads or writes. *)
Record element : Type := {
  localName : string;
  type : string;
  name : string;
  value : string;
  required : bool;
  classList : list string;
  textContent : string;
  style : list (string * string);
  files : list File.File;
  accept : string
}.

Definition blank (tag : string) : element :=
  {| localName := tag; type := ""; name := ""; value := ""; required := false;
     classList := []; textContent := ""; style := []; files := []; accept := "" |}.

Definition with_type (v : string) (e : element) : element :=
  {| localName := localName e; type := v; name := name e; value := value e;
     required := required e; classList := classList e;
     textContent := textContent e; style := style e; files := files e;
     accept := accept e |}.

Definition with_name (v : string) (e : element) : element :=
  {| localName := localName e; type := type e; name := v; value := value e;
     required := required e; classList := classList e;
     textContent := textContent e; style := style e; files := files e;
     accept := accept e |}.

(** Assigning [value]: on a file input the empty string empties the list
    of selected files (the class assigns nothing else to a file input). *)
Definition with_value (v : string) (e : element) : element :=
  {| localName := localName e; type := type e; name := name e; value := v;
     required := required e; classList := classList e;
     textContent := textContent e; style := style e;
     files := if String.eqb (type e) "file" && String.eqb v "" then []
              else files e;
     accept := accept e |}.

Definition with_classList (v : list string) (e : element) : element :=
  {| localName := localName e; type := type e; name := name e; value := value e;
     required := required e; classList := v;
     textContent := textContent e; style := style e; files := files e;
     accept := accept e |}.

Definition with_textContent (v : string) (e : element) : element :=
  {| localName := localName e; type := type e; name := name e; value := value e;
     required := required e; classList := classList e;
     textContent := v; style := style e; files := files e;
     accept := accept e |}.

Definition with_style (k v : string) (e : element) : element :=
  {| localName := localName e; type := type e; name := name e; value := value e;
     required := required e; classList := classList e;
     textContent := textContent e; style := style e ++ [(k, v)];
     files := files e; accept := accept e |}.

Definition with_accept (v : string) (e : element) : element :=
  {| localName := localName e; type := type e; name := name e; value := value e;
     required := required e; classList := classList e;
     textContent := textContent e; style := style e; files := files e;
     accept := v |}.

(** The selectors the class uses. *)
Inductive selector : Type :=
| ByTag : string -> selector                (* form *)
| ByClass : string -> selector              (* .field-error *)
| ByName : string -> selector               (* [name="csrf_token"] *)
| ByTagType : string -> string -> selector  (* input[type="file"] *)
| Or : selector -> selector -> selector.    (* input, textarea *)

Fixpoint matches (sel : selector) (e : element) : bool :=
  match sel with
  | ByTag t => String.eqb (localName e) t
  | ByClass c => existsb (String.eqb c) (classList e)
  | ByName n => String.eqb (name e) n
  | ByTagType t ty => String.eqb (localName e) t && String.eqb (type e) ty
  | Or s1 s2 => matches s1 e || matches s2 e
  end.

(** The tree of element identities. *)
#[local] Unset Elimination Schemes.
Inductive tree : Type :=
| T : nat -> list tree -> tree.
#[local] Set Elimination Schemes.

Definition id (t : tree) : nat := match t with T i _ => i end.
Definition childNodes (t : tree) : list tree := match t with T _ cs => cs end.

(** Identities in document order, the root first. *)
Fixpoint ids (t : tree) : list nat :=
  match t with T i cs => i :: flat_map ids cs end.

Definition descendants (t : tree) : list nat := flat_map ids (childNodes t).

Definition firstSome {A B : Type} (f : A -> option B) : list A -> option B :=
  fix go (l : list A) : option B :=
    match l with
    | [] => None
    | x :: l' => match f x with Some y => Some y | None => go l' end
    end.

(** The subtree rooted at element [i]. *)
Fixpoint subtree (i : nat) (t : tree) : option tree :=
  match t with
  | T j cs => if j =? i then Some t else firstSome (subtree i) cs
  end.

(** The parent of element [i]; [None] stands for [null]. *)
Fixpoint parentOf (i : nat) (t : tree) : option nat :=
  match t with
  | T j cs =>
      if existsb (fun c => id c =? i) cs then Some j
      else firstSome (parentOf i) cs
  end.

(** [map f (filter p l)] in one pass. *)
Definition mapFilter {A B : Type} (p : A -> bool) (f : A -> B) : list A -> list B :=
  fix go (l : list A) : list B :=
    match l with
    | [] => []
    | x :: l' => if p x then f x :: go l' else go l'
    end.

(** [i.remove()]: the element leaves the tree with all below it. *)
Fixpoint detach (i : nat) (t : tree) : tree :=
  match t with
  | T j cs => T j (mapFilter (fun c => negb (id c =? i)) (detach i) cs)
  end.

(** [p.appendChild(c)] for a freshly created [c]. *)
Fixpoint attach (p c : nat) (t : tree) : tree :=
  match t with
  | T j cs => T j (map (attach p c) cs ++ (if j =? p then [T c []] else []))
  end.

(** Registered callbacks, one constructor per closure of the source. *)
Inductive handler : Type :=
| OnSubmit : nat -> handler   (* (e) => { if (!this.validateForm(form)) ... } *)
| OnBlur : nat -> handler     (* () => this.validateField(input) *)
| OnInput : nat -> handler    (* () => this.clearFieldError(input) *)
| OnChange : handler.         (* (e) => this.validateFileUpload(e.target) *)

Record listener : Type := { target : nat; eventType : string; callback : handler }.

Inductive task : Type :=
| RemoveMessage : nat -> task. (* () => { if (messageDiv.parentNode) messageDiv.remove() } *)

Record timer : Type := { due : N; run : task }.

Record document : Type := {
  body : tree;
  heap : nat -> element;
  nextId : nat;
  listeners : list listener;
  timers : list timer;
  clock : N
}.

Definition with_body (t : tree) (d : document) : document :=
  {| body := t; heap := heap d; nextId := nextId d;
     listeners := listeners d; timers := timers d; clock := clock d |}.

Definition with_heap (h : nat -> element) (d : document) : document :=
  {| body := body d; heap := h; nextId := nextId d;
     listeners := listeners d; timers := timers d; clock := clock d |}.

Definition with_nextId (n : nat) (d : document) : document :=
  {| body := body d; heap := heap d; nextId := n;
     listeners := listeners d; timers := timers d; clock := clock d |}.

Definition with_listeners (l : list listener) (d : document) : document :=
  {| body := body d; heap := heap d; nextId := nextId d;
     listeners := l; timers := timers d; clock := clock d |}.

Definition with_timers (l : list timer) (d : document) : document :=
  {| body := body d; heap := heap d; nextId := nextId d;
     listeners := listeners d; timers := l; clock := clock d |}.

Definition with_clock (c : N) (d : document) : document :=
  {| body := body d; heap := heap d; nextId := nextId d;
     listeners := listeners d; timers := timers d; clock := c |}.

Definition upd (h : nat -> element) (i : nat) (e : element) : nat -> element :=
  fun j => if j =? i then e else h j.

(** *** Computations on the document *)

Inductive result (A : Type) : Type :=
| Ok : A -> document -> result A
| Throw : string -> result A.
Arguments Throw {A} _.

Definition M (A : Type) : Type := document -> result A.

Definition ret {A : Type} (a : A) : M A := fun d => Ok a d.

Definition bind {A B : Type} (m : M A) (k : A -> M B) : M B :=
  fun d => match m d with
           | Ok a d' => k a d'
           | Throw e => Throw e
           end.

Definition throw {A : Type} (e : string) : M A := fun _ => Throw e.

Definition gets {A : Type} (f : document -> A) : M A := fun d => Ok (f d) d.

Definition modify (f : document -> document) : M unit := fun d => Ok tt (f d).

End DOM.

Import DOM.

Declare Scope dom_scope.
Delimit Scope dom_scope with dom.
Notation "x <- m ;; k" := (bind m (fun x => k))
  (at level 61, m at next level, right associativity) : dom_scope.
Notation "m ;; k" := (bind m (fun _ => k))
  (at level 61, right associativity) : dom_scope.
Open Scope dom_scope.

Module Browser.

(** [NodeList.prototype.forEach] over a static list. *)
Fixpoint forEach {A : Type} (l : list A) (f : A -> M unit) : M unit :=
  match l with
  | [] => ret tt
  | x :: l' => f x ;; forEach l' f
  end.

(** Dereferencing [null] throws. *)
Definition nonNull {A : Type} (o : option A) : M A :=
  match o with
  | Some a => ret a
  | None => throw "TypeError"
  end.

Definition get (i : nat) : M element := gets (fun d => heap d i).

Definition set (i : nat) (f : element -> element) : M unit :=
  modify (fun d => with_heap (upd (heap d) i (f (heap d i))) d).

(** [document.createElement(tag)] *)
Definition createElement (tag : string) : M nat :=
  fun d => Ok (nextId d)
              (with_nextId (S (nextId d))
                 (with_heap (upd (heap d) (nextId d) (blank tag)) d)).

(** [el.parentNode] *)
Definition parentNode (i : nat) : M (option nat) :=
  gets (fun d => parentOf i (body d)).

(** The descendants of [root] that match, in document order. *)
Definition select (sel : selector) (root : nat) (d : document) : list nat :=
  match subtree root (body d) with
  | Some t => filter (fun i => matches sel (heap d i)) (descendants t)
  | None => []
  end.

(** [root.querySelectorAll(sel)] *)
Definition querySelectorAll (sel : selector) (root : nat) : M (list nat) :=
  gets (select sel root).

(** [root.querySelector(sel)] *)
Definition querySelector (sel : selector) (root : nat) : M (option nat) :=
  gets (fun d => hd_error (select sel root d)).

(** [document.querySelectorAll(sel)], among the elements below
    [document.body], the root of the tree.  The body itself is neither a
    form nor an input, so [form] and [input[type="file"]] never match it;
    [.security-message] matches it only if it carries that class, which
    the properties that reach [showSecurityMessage] exclude by the
    hypothesis [plainBody]. *)
Definition documentQuerySelectorAll (sel : selector) : M (list nat) :=
  gets (fun d => select sel (id (body d)) d).

(** [document.body].  It is null only after the body has been removed,
    which the class does only to a body of class [security-message]
    (see [plainBody]). *)
Definition documentBody : M nat := gets (fun d => id (body d)).

(** [p.appendChild(c)] *)
Definition appendChild (p c : nat) : M unit :=
  modify (fun d => with_body (attach p c (body d)) d).

(** [el.remove()] *)
Definition remove (i : nat) : M unit :=
  modify (fun d => with_body (detach i (body d)) d).

(** [el.className = s] *)
Definition setClassName (i : nat) (s : string) : M unit :=
  set i (with_classList (JSString.tokens s)).

(** [el.classList.add(c)] *)
Definition classListAdd (i : nat) (c : string) : M unit :=
  set i (fun e => with_classList
                    (if existsb (String.eqb c) (classList e) then classList e
                     else classList e ++ [c]) e).

(** [el.classList.remove(c)] *)
Definition classListRemove (i : nat) (c : string) : M unit :=
  set i (fun e => with_classList
                    (filter (fun x => negb (String.eqb c x)) (classList e)) e).

(** [el.addEventListener(type, h)] *)
Definition addEventListener (i : nat) (ty : string) (h : handler) : M unit :=
  modify (fun d => with_listeners
                     (listeners d ++ [{| target := i; eventType := ty; callback := h |}]) d).

(** Timers are kept in the order in which they fire. *)
Fixpoint enqueue (t : timer) (q : list timer) : list timer :=
  match q with
  | [] => [t]
  | u :: q' => if (due u <=? due t)%N then u :: enqueue t q' else t :: q
  end.

(** [setTimeout(f, delay)] *)
Definition setTimeout (f : task) (delay : N) : M unit :=
  modify (fun d => with_timers
                     (enqueue {| due := (clock d + delay)%N; run := f |} (timers d)) d).

(** How a text node is written in markup: [&], [<], [>] and the
    no-break space become character references. *)
Definition escapeChar (c : ascii) : string :=
  if Ascii.eqb c "&" then "&amp;"
  else if Ascii.eqb c "<" then "&lt;"
  else if Ascii.eqb c ">" then "&gt;"
  else if nat_of_ascii c =? 160 then "&nbsp;"
  else String c EmptyString.

Fixpoint escape (s : string) : string :=
  match s with
  | EmptyString => EmptyString
  | String c s' => escapeChar c ++ escape s'
  end.

(** [el.innerHTML] of an element that holds text only. *)
Definition innerHTML (i : nat) : M string :=
  e <- get i ;;
  ret (escape (textContent e)).

End Browser.

Import Browser.

(* ================================================================== *)
(** ** [class WebsiteSecurity] *)

Module WebsiteSecurity.

(** The instance: [this.csrfToken]. *)
Record instance : Type := { csrfToken : string }.

(** [generateCSRFToken()]; [random] is [Math.random().toString(36)] and
    [now] is [Date.now().toString(36)]. *)
Definition generateCSRFToken (random now : string) : string :=
  "csrf_" ++ JSString.substr 2 9 random ++ "_" ++ now.

(** [/^[^\s@]+@[^\s@]+\.[^\s@]+$/] *)
Definition notSpaceNorAt (c : ascii) : bool :=
  negb (JSString.isWhiteSpace c || Ascii.eqb c "@").

Definition emailRegex : RegExp.regex :=
  RegExp.Cat (RegExp.Plus (RegExp.Class notSpaceNorAt))
    (RegExp.Cat (RegExp.Lit "@")
       (RegExp.Cat (RegExp.Plus (RegExp.Class notSpaceNorAt))
          (RegExp.Cat (RegExp.Lit ".")
             (RegExp.Plus (RegExp.Class notSpaceNorAt))))).

Definition clearFieldError (field : nat) : M unit :=
  parent <- parentNode field ;;
  parent <- nonNull parent ;;
  existingError <- querySelector (ByClass "field-error") parent ;;
  match existingError with
  | Some existingError => remove existingError
  | None => ret tt
  end ;;
  classListRemove field "error".

Definition showFieldError (field : nat) (message : string) : M unit :=
  clearFieldError field ;;
  errorDiv <- createElement "div" ;;
  setClassName errorDiv "field-error security-warning" ;;
  set errorDiv (with_textContent message) ;;
  set errorDiv (with_style "fontSize" "0.8rem") ;;
  set errorDiv (with_style "marginTop" "5px") ;;
  set errorDiv (with_style "padding" "5px 10px") ;;
  parent <- parentNode field ;;
  parent <- nonNull parent ;;
  appendChild parent errorDiv ;;
  classListAdd field "error".

Definition showSecurityMessage (message : string) (type : option string) : M unit :=
  let type := match type with Some t => t | None => "info" end in
  existingMessages <- documentQuerySelectorAll (ByClass "security-message") ;;
  forEach existingMessages (fun msg => remove msg) ;;
  messageDiv <- createElement "div" ;;
  setClassName messageDiv ("security-message security-" ++ type) ;;
  set messageDiv (with_textContent message) ;;
  set messageDiv (with_style "position" "fixed") ;;
  set messageDiv (with_style "top" "20px") ;;
  set messageDiv (with_style "right" "20px") ;;
  set messageDiv (with_style "zIndex" "10000") ;;
  set messageDiv (with_style "maxWidth" "300px") ;;
  set messageDiv (with_style "boxShadow" "0 4px 12px rgba(0,0,0,0.3)") ;;
  body <- documentBody ;;
  appendChild body messageDiv ;;
  setTimeout (RemoveMessage messageDiv) 5000.

Definition allowedTypes : list string :=
  [ "image/jpeg";
    "image/png";
    "application/pdf";
    "application/msword";
    "application/vnd.openxmlformats-officedocument.wordprocessingml.document" ].

Definition maxSize : N := (5 * 1024 * 1024)%N.
Definition maxSizeReadable : string := "5MB".

Definition includes (l : list string) (s : string) : bool :=
  existsb (String.eqb s) l.

(** [input.files] is [null] unless the input is a file input. *)
Definition inputFiles (input : nat) : M (list File.File) :=
  e <- get input ;;
  nonNull (if String.eqb (type e) "file" then Some (files e) else None).

Definition validateFileUpload (input : nat) : M bool :=
  fs <- inputFiles input ;;
  match hd_error fs with
  | None => ret true
  | Some file =>
      if negb (includes allowedTypes (File.type file)) then
        showFieldError input
          ("Invalid file type. Allowed: JPG, PNG, PDF, DOC (max "
             ++ maxSizeReadable ++ ")") ;;
        set input (with_value "") ;;
        ret false
      else if (maxSize <? File.size file)%N then
        showFieldError input
          ("File too large. Maximum size is " ++ maxSizeReadable) ;;
        set input (with_value "") ;;
        ret false
      else
        clearFieldError input ;;
        showSecurityMessage "File looks good!" (Some "success") ;;
        ret true
  end.

Definition validateField (field : nat) : M bool :=
  f <- get field ;;
  let value := JSString.trim (value f) in
  (* what follows the email block *)
  let requiredFieldValidation : M bool :=
    if required f && negb (JSString.truthy value) then
      showFieldError field "This field is required" ;;
      ret false
    else
      clearFieldError field ;;
      ret true in
  if String.eqb (type f) "email" && JSString.truthy value then
    if negb (RegExp.test emailRegex value) then
      showFieldError field "Please enter a valid email address" ;;
      ret false
    else requiredFieldValidation
  else requiredFieldValidation.

Fixpoint validateInputs (inputs : list nat) (isValid : bool) : M bool :=
  match inputs with
  | [] => ret isValid
  | input :: rest =>
      ok <- validateField input ;;
      validateInputs rest (if negb ok then false else isValid)
  end.

Definition validateForm (form : nat) : M bool :=
  let isValid := true in
  inputs <- querySelectorAll (Or (ByTag "input") (ByTag "textarea")) form ;;
  validateInputs inputs isValid.

(** The body of the [forms.forEach] callback. *)
Definition enhanceForm (self : instance) (form : nat) : M unit :=
  existing <- querySelector (ByName "csrf_token") form ;;
  match existing with
  | None =>
      csrfInput <- createElement "input" ;;
      set csrfInput (with_type "hidden") ;;
      set csrfInput (with_name "csrf_token") ;;
      set csrfInput (with_value (csrfToken self)) ;;
      appendChild form csrfInput
  | Some _ => ret tt
  end ;;
  addEventListener form "submit" (OnSubmit form) ;;
  inputs <- querySelectorAll (Or (ByTag "input") (ByTag "textarea")) form ;;
  forEach inputs (fun input =>
    addEventListener input "blur" (OnBlur input) ;;
    addEventListener input "input" (OnInput input)).

Definition enhanceFormSecurity (self : instance) : M unit :=
  forms <- documentQuerySelectorAll (ByTag "form") ;;
  forEach forms (enhanceForm self).

Definition setupFileUploadValidation : M unit :=
  fileInputs <- documentQuerySelectorAll (ByTagType "input" "file") ;;
  forEach fileInputs (fun input =>
    addEventListener input "change" OnChange ;;
    e <- get input ;;
    if negb (JSString.truthy (accept e)) then
      set input (with_accept ".jpg,.jpeg,.png,.pdf,.doc,.docx")
    else ret tt).

(** [init()], without its calls of [addSecurityIndicators] and
    [setupPasswordVisibilityToggle].  The first appends a marker to every
    [https] link, the second wraps every password input in a new [div];
    on a page without links and without password inputs both find nothing
    and change nothing, and the properties that start from the
    constructor on an arbitrary page assume such a page ([undecorated]). *)
Definition init (self : instance) : M unit :=
  enhanceFormSecurity self ;;
  setupFileUploadValidation.

(** [new WebsiteSecurity()] *)
Definition construct (random now : string) : M instance :=
  let self := {| csrfToken := generateCSRFToken random now |} in
  init self ;;
  ret self.

(** [sanitizeHTML(str)] *)
Definition sanitizeHTML (str : string) : M string :=
  div <- createElement "div" ;;
  set div (with_textContent str) ;;
  innerHTML div.

(** *** Events and timers *)

Record event : Type := { eventTarget : nat; defaultPrevented : bool }.

Definition preventDefault (e : event) : event :=
  {| eventTarget := eventTarget e; defaultPrevented := true |}.

(** Running one registered callback. *)
Definition handle (h : handler) (e : event) : M event :=
  match h with
  | OnSubmit form =>
      ok <- validateForm form ;;
      if negb ok then
        let e := preventDefault e in
        showSecurityMessage "Please fix form errors before submitting." (Some "error") ;;
        ret e
      else ret e
  | OnBlur input => validateField input ;; ret e
  | OnInput input => clearFieldError input ;; ret e
  | OnChange => validateFileUpload (eventTarget e) ;; ret e
  end.

Fixpoint handleAll (hs : list handler) (e : event) : M event :=
  match hs with
  | [] => ret e
  | h :: hs' => e' <- handle h e ;; handleAll hs' e'
  end.

Definition listening (i : nat) (ty : string) (l : listener) : bool :=
  (target l =? i) && String.eqb (eventType l) ty.

(** The browser fires [ty] at [i]; the answer tells whether the default
    action goes ahead. *)
Definition dispatchEvent (i : nat) (ty : string) : M bool :=
  ls <- gets listeners ;;
  e <- handleAll (map callback (filter (listening i ty) ls))
         {| eventTarget := i; defaultPrevented := false |} ;;
  ret (negb (defaultPrevented e)).

Definition runTask (t : task) : M unit :=
  match t with
  | RemoveMessage messageDiv =>
      parent <- parentNode messageDiv ;;
      match parent with
      | Some _ => remove messageDiv
      | None => ret tt
      end
  end.

Definition isDue (now : N) (t : timer) : bool := (due t <=? now)%N.

(** [dt] milliseconds pass: the timers that are due fire. *)
Definition advance (dt : N) : M unit :=
  now <- gets (fun d => (clock d + dt)%N) ;;
  ts <- gets timers ;;
  modify (with_clock now) ;;
  modify (with_timers (filter (fun t => negb (isDue now t)) ts)) ;;
  forEach (filter (isDue now) ts) (fun t => runTask (run t)).

End WebsiteSecurity.

Import WebsiteSecurity.

(* ================================================================== *)
(** ** Pages *)

Module Page.

(** Markup: an element and its children. *)
#[local] Unset Elimination Schemes.
Inductive html : Type :=
| Tag : element -> list html -> html.
#[local] Set Elimination Schemes.

Definition place : html -> nat * (nat -> element) -> tree * (nat * (nat -> element)) :=
  fix place (h : html) (st : nat * (nat -> element)) :=
    match h with
    | Tag e kids =>
        let i := fst st in
        let r :=
          (fix go (l : list html) (st : nat * (nat -> element)) :=
             match l with
             | [] => ([], st)
             | k :: l' =>
                 let r1 := place k st in
                 let r2 := go l' (snd r1) in
                 (fst r1 :: fst r2, snd r2)
             end) kids (S i, upd (snd st) i e) in
        (T i (fst r), snd r)
    end.

(** The document of a page whose body is [h]; elements are numbered in
    document order from 0. *)
Definition load (h : html) : document :=
  let r := place h (0, fun _ => blank "") in
  {| body := fst r; heap := snd (snd r); nextId := fst (snd r);
     listeners := []; timers := []; clock := 0%N |}.

Definition el (tag : string) : element := blank tag.

Definition input (ty nm val : string) (req : bool) : element :=
  {| localName := "input"; type := ty; name := nm; value := val; required := req;
     classList := []; textContent := ""; style := []; files := []; accept := "" |}.

Definition fileInput (fs : list File.File) : element :=
  {| localName := "input"; type := "file"; name := "upload";
     value := match fs with [] => "" | _ => "C:\fakepath\upload" end;
     required := false;
     classList := []; textContent := ""; style := []; files := fs; accept := "" |}.

(** What is on screen. *)
Definition texts (sel : selector) (root : nat) (d : document) : list string :=
  map (fun i => textContent (heap d i)) (select sel root d).

(** The error annotations of a field: what [clearFieldError] looks for. *)
Definition annotations (field : nat) (d : document) : list string :=
  match parentOf field (body d) with
  | Some p => texts (ByClass "field-error") p d
  | None => []
  end.

Definition marked (field : nat) (d : document) : bool :=
  existsb (String.eqb "error") (classList (heap d field)).

(** The notifications on screen. *)
Definition notifications (d : document) : list nat :=
  select (ByClass "security-message") (id (body d)) d.

(** *** Preconditions on the page *)

Definition taskElement (t : task) : nat :=
  match t with RemoveMessage i => i end.

(** Element identities are unique, and what the tree and the pending
    timers mention has been created. *)
Definition wellFormed (d : document) : Prop :=
  NoDup (ids (body d)) /\
  (forall i, In i (ids (body d)) -> i < nextId d) /\
  (forall t, In t (timers d) -> taskElement (run t) < nextId d).

Definition nodupb (l : list nat) : bool :=
  (fix go (l : list nat) : bool :=
     match l with
     | [] => true
     | x :: l' => negb (existsb (Nat.eqb x) l') && go l'
     end) l.

Definition wellFormedb (d : document) : bool :=
  nodupb (ids (body d)) &&
  forallb (fun i => i <? nextId d) (ids (body d)) &&
  forallb (fun t => taskElement (run t) <? nextId d) (timers d).

(** The field is not itself styled as an error annotation. *)
Definition plainField (field : nat) (d : document) : Prop :=
  matches (ByClass "field-error") (heap d field) = false.

(** *** The email pattern, in the words of the specification

    Non-whitespace non-[@] characters, a literal [@], non-whitespace
    non-[@] characters, a literal [.], non-whitespace non-[@]
    characters. *)
Definition plainWord (w : list ascii) : Prop :=
  w <> [] /\
  Forall (fun c => JSString.isWhiteSpace c = false /\ c <> "@"%char) w.

Definition matchesEmailPattern (s : string) : Prop :=
  exists a b c,
    list_ascii_of_string s = a ++ "@"%char :: b ++ "."%char :: c /\
    plainWord a /\ plainWord b /\ plainWord c.

(** *** Vocabulary of the statements *)

(** Removing several elements, one after the other. *)
Definition detachAll (l : list nat) (t : tree) : tree :=
  fold_left (fun t i => detach i t) l t.

(** The elements whose removal is due at time [now]. *)
Definition dueElements (now : N) (d : document) : list nat :=
  map (fun t => taskElement (run t)) (filter (isDue now) (timers d)).

(** The two messages of [validateFileUpload], written out. *)
Definition typeMessage : string :=
  "Invalid file type. Allowed: JPG, PNG, PDF, DOC (max 5MB)".
Definition sizeMessage : string := "File too large. Maximum size is 5MB".

(** A hidden token field holding [token]. *)
Definition tokenField (token : string) (e : element) : Prop :=
  localName e = "input" /\ type e = "hidden" /\ name e = "csrf_token" /\
  value e = token.

(** *** Vocabulary of the further properties *)

(** The characters that [escape] rewrites. *)
Definition reserved (c : ascii) : Prop :=
  c = "&"%char \/ c = "<"%char \/ c = ">"%char \/ nat_of_ascii c = 160.

(** Error annotations are as [showFieldError] makes them: [div]s without
    children. *)
Definition tidy (d : document) : Prop :=
  forall i s,
    subtree i (body d) = Some s ->
    matches (ByClass "field-error") (heap d i) = true ->
    childNodes s = [] /\ localName (heap d i) = "div".

(** The rules of [validateField], on the data of a field. *)
Definition passes (e : element) : bool :=
  let value := JSString.trim (value e) in
  negb (String.eqb (type e) "email" && JSString.truthy value
        && negb (RegExp.test emailRegex value))
  && negb (required e && negb (JSString.truthy value)).

(** The listeners that [enhanceFormSecurity] registers on a form and on
    one of its fields. *)
Definition submitListener (form : nat) : listener :=
  {| target := form; eventType := "submit"; callback := OnSubmit form |}.

Definition fieldListeners (input : nat) : list listener :=
  [ {| target := input; eventType := "blur"; callback := OnBlur input |};
    {| target := input; eventType := "input"; callback := OnInput input |} ].

(** The element that [enhanceFormSecurity] builds for the token. *)
Definition tokenInput (token : string) : element :=
  with_value token (with_name "csrf_token" (with_type "hidden" (blank "input"))).

(** The body is not itself a notification.  Then
    [document.querySelectorAll('.security-message')] finds elements below
    the body only, [showSecurityMessage] never removes the body, and
    [document.body] is not null when the notification is appended. *)
Definition plainBody (d : document) : Prop :=
  matches (ByClass "security-message") (heap d (id (body d))) = false.

(** The page has no password input and no link: the two calls that the
    embedding of [init] leaves out have nothing to do on it. *)
Definition undecorated (d : document) : Prop :=
  select (ByTagType "input" "password") (id (body d)) d = [] /\
  select (ByTag "a") (id (body d)) d = [].

(** No element that matches [sel] lies within another one: an event
    fired at one of them meets no other on its way up the tree, so the
    listeners it reaches are those of its target. *)
Definition unnested (sel : selector) (d : document) : Prop :=
  forall g i, In g (select sel (id (body d)) d) -> ~ In i (select sel g d).

End Page.

Import Page.

(** ** Example pages *)

Module Examples.

(** [<body><form><div><input type=ty name="field" value=val></div></form></body>]:
    the body is element 0, the form 1, the [div] 2 and the field 3. *)
Definition fieldPage (ty val : string) (req : bool) : document :=
  load (Tag (el "body") [Tag (el "form") [Tag (el "div")
          [Tag (input ty "field" val req) []]]]).

(** A required text field left empty. *)
Definition requiredPage : document := fieldPage "text" "" true.

(** A required email field that holds one space. *)
Definition emailPage : document := fieldPage "email" " " true.

(** A required text field left empty and an email field holding [bad],
    each in a [div] of its own. *)
Definition twoFieldPage : document :=
  load (Tag (el "body") [Tag (el "form")
          [Tag (el "div") [Tag (input "text" "user" "" true) []];
           Tag (el "div") [Tag (input "email" "mail" "bad" false) []]]]).

(** A form that arrives with a token field of the server's. *)
Definition tokenPage : document :=
  load (Tag (el "body") [Tag (el "form")
          [Tag (input "hidden" "csrf_token" "server-issued" false) []]]).

Definition gif6MiB : File.File :=
  {| File.type := "image/gif"; File.size := (6 * 1024 * 1024)%N |}.
Definition gif1KiB : File.File :=
  {| File.type := "image/gif"; File.size := 1024%N |}.
Definition png4MiB : File.File :=
  {| File.type := "image/png"; File.size := (4 * 1024 * 1024)%N |}.
Definition png6MiB : File.File :=
  {| File.type := "image/png"; File.size := (6 * 1024 * 1024)%N |}.

(** The verdict of a validator and the annotations it leaves on field 3. *)
Definition outcome (r : result bool) : option (bool * list string) :=
  match r with
  | Ok b d => Some (b, annotations 3 d)
  | Throw _ => None
  end.

(** A file input, in a [div] of its own, with the given selection. *)
Definition uploadPage (fs : list File.File) : document :=
  load (Tag (el "body") [Tag (el "form") [Tag (el "div") [Tag (fileInput fs) []]]]).

Definition session : instance := {| csrfToken := "csrf_4fzyo82mv_lq3k2p9x" |}.

(** A field whose parent is the form, next to two fields that have a
    [div] of their own: the body is element 0, the form 1, the first field
    2, the [div]s 3 and 5 and their fields 4 and 6. *)
Definition threeFieldPage : document :=
  load (Tag (el "body") [Tag (el "form")
          [Tag (input "text" "a" "" true) [];
           Tag (el "div") [Tag (input "text" "b" "" true) []];
           Tag (el "div") [Tag (input "text" "c" "" true) []]]]).

(** Two fields that have the form as their parent: elements 2 and 3. *)
Definition sharedParentPage : document :=
  load (Tag (el "body") [Tag (el "form")
          [Tag (input "text" "user" "" true) [];
           Tag (input "text" "city" "Oslo" false) []]]).

(** A field that carries the class of an annotation itself. *)
Definition styledFieldPage : document :=
  load (Tag (el "body") [Tag (el "form") [Tag (el "div")
          [Tag (with_classList ["field-error"] (input "text" "field" "" true)) []]]]).

End Examples.

Import Examples.

Unset Implicit Arguments.

(** Induction on the element tree. *)
Section TreeInduction.
Variable P : tree -> Prop.
Hypothesis step : forall i cs, Forall P cs -> P (T i cs).

Fixpoint tree_ind (t : tree) : P t :=
  match t with
  | T i cs =>
      step i cs ((fix go (l : list tree) : Forall P l :=
                 match l with
                 | [] => Forall_nil P
                 | c :: l' => Forall_cons c (tree_ind c) (go l')
                 end) cs)
  end.
End TreeInduction.

(* ================================================================== *)
(** * Properties *)

#[local] Arguments String.eqb : simpl never.

(** ** Lists *)

Section ListFacts.
Variables A B : Type.

Lemma NoDup_app_disjoint (l1 l2 : list A) (a : A) :
  NoDup (l1 ++ l2) -> In a l1 -> In a l2 -> False.
Proof.
  induction l1 as [ | x l1 IH]; simpl; intros Hnd H1 H2; [contradiction | ].
  inversion Hnd as [ | ? ? Hx Hnd']; subst.
  destruct H1 as [-> | H1].
  - apply Hx, in_or_app. right. assumption.
  - apply IH; assumption.
Qed.

Lemma mapFilter_spec (p : A -> bool) (f : A -> B) (l : list A) :
  mapFilter p f l = map f (filter p l).
Proof.
  induction l as [ | x l IH]; simpl; [reflexivity | ].
  destruct (p x); simpl; rewrite IH; reflexivity.
Qed.

Lemma firstSome_Some (f : A -> option B) (l : list A) (y : B) :
  firstSome f l = Some y -> exists x, In x l /\ f x = Some y.
Proof.
  induction l as [ | x l IH]; simpl; [discriminate | ].
  destruct (f x) as [z | ] eqn:E.
  - intros [= ->]. eauto.
  - intros H. destruct (IH H) as (x' & Hin & Hx'). eauto.
Qed.

Lemma firstSome_None (f : A -> option B) (l : list A) :
  firstSome f l = None <-> forall x, In x l -> f x = None.
Proof.
  induction l as [ | x l IH]; simpl.
  - split; [contradiction | reflexivity].
  - destruct (f x) as [z | ] eqn:E.
    + split; [discriminate | ]. intros H. rewrite <- E. apply H. auto.
    + rewrite IH. split.
      * intros H x' [<- | Hin]; auto.
      * intros H x' Hin. apply H. auto.
Qed.

(** When all successes agree, the first one is any one. *)
Lemma firstSome_unique (f : A -> option B) (l : list A) (x : A) (y : B) :
  In x l -> f x = Some y ->
  (forall x', In x' l -> f x' = None \/ f x' = Some y) ->
  firstSome f l = Some y.
Proof.
  induction l as [ | a l IH]; simpl; [contradiction | ].
  intros Hin Hx Hall.
  destruct (Hall a (or_introl eq_refl)) as [Ha | Ha]; rewrite Ha; [ | reflexivity].
  destruct Hin as [-> | Hin]; [congruence | ].
  apply IH; auto.
Qed.

End ListFacts.

(** ** The element tree *)

Section TreeFacts.

Lemma ids_descendants (t : tree) : ids t = id t :: descendants t.
Proof. destruct t; reflexivity. Qed.

Lemma id_in_ids (t : tree) : In (id t) (ids t).
Proof. rewrite ids_descendants. left. reflexivity. Qed.

Lemma descendants_ids (t : tree) (i : nat) : In i (descendants t) -> In i (ids t).
Proof. rewrite ids_descendants. right. assumption. Qed.

Lemma in_descendants (t : tree) (i : nat) :
  In i (descendants t) <-> exists c, In c (childNodes t) /\ In i (ids c).
Proof. unfold descendants. apply in_flat_map. Qed.

Lemma root_not_below (t : tree) : NoDup (ids t) -> ~ In (id t) (descendants t).
Proof. rewrite ids_descendants. intros H. inversion H. assumption. Qed.

Lemma NoDup_descendants (t : tree) : NoDup (ids t) -> NoDup (descendants t).
Proof. rewrite ids_descendants. intros H. inversion H. assumption. Qed.

Lemma NoDup_flat_child (cs : list tree) (c : tree) :
  NoDup (flat_map ids cs) -> In c cs -> NoDup (ids c).
Proof.
  induction cs as [ | x cs IH]; simpl; [contradiction | ].
  intros Hnd [-> | Hin].
  - eapply NoDup_app_remove_r; eassumption.
  - apply IH; [eapply NoDup_app_remove_l; eassumption | assumption].
Qed.

Lemma NoDup_child (t c : tree) :
  NoDup (ids t) -> In c (childNodes t) -> NoDup (ids c).
Proof.
  intros H. apply NoDup_flat_child. apply NoDup_descendants. assumption.
Qed.

(** Two children that share an identity are the same child. *)
Lemma children_disjoint (cs : list tree) (x y : tree) (i : nat) :
  NoDup (flat_map ids cs) -> In x cs -> In y cs ->
  In i (ids x) -> In i (ids y) -> x = y.
Proof.
  induction cs as [ | c cs IH]; simpl; [contradiction | ].
  intros Hnd [-> | Hx] [-> | Hy] Hix Hiy; try reflexivity.
  - exfalso. eapply NoDup_app_disjoint; [eassumption | eassumption | ].
    apply in_flat_map. eauto.
  - exfalso. eapply NoDup_app_disjoint; [eassumption | eassumption | ].
    apply in_flat_map. eauto.
  - apply IH; auto. eapply NoDup_app_remove_l; eassumption.
Qed.

(** *** [subtree] *)

Lemma subtree_inv (p j : nat) (cs : list tree) (s : tree) :
  subtree p (T j cs) = Some s ->
  (j = p /\ s = T j cs) \/ (j <> p /\ exists c, In c cs /\ subtree p c = Some s).
Proof.
  simpl. destruct (Nat.eqb_spec j p) as [-> | Hne].
  - intros [= <-]. auto.
  - intros H. right. split; [assumption | ].
    apply firstSome_Some in H. assumption.
Qed.

Lemma subtree_None (p : nat) (t : tree) :
  subtree p t = None <-> ~ In p (ids t).
Proof.
  induction t as [j cs IH] using tree_ind. simpl.
  destruct (Nat.eqb_spec j p) as [-> | Hne].
  - split; [discriminate | ]. intros H. exfalso. apply H. auto.
  - rewrite firstSome_None. rewrite Forall_forall in IH. split.
    + intros H [E | Hin]; [contradiction | ].
      apply in_flat_map in Hin as (c & Hc & Hp).
      apply (IH c Hc); auto.
    + intros H c Hc. apply IH; [assumption | ].
      intros Hp. apply H. right. apply in_flat_map. eauto.
Qed.

Lemma subtree_id (p : nat) (t s : tree) : subtree p t = Some s -> id s = p.
Proof.
  induction t as [j cs IH] using tree_ind. intros H.
  apply subtree_inv in H as [[<- ->] | [_ (c & Hc & H)]]; [reflexivity | ].
  rewrite Forall_forall in IH. eauto.
Qed.

Lemma subtree_descendants (p : nat) (t s : tree) (i : nat) :
  subtree p t = Some s -> In i (descendants s) -> In i (descendants t).
Proof.
  induction t as [j cs IH] using tree_ind. intros H Hi.
  apply subtree_inv in H as [[<- ->] | [_ (c & Hc & H)]]; [assumption | ].
  rewrite Forall_forall in IH. apply in_descendants. simpl.
  exists c. split; [assumption | ].
  apply descendants_ids. eauto.
Qed.

Lemma subtree_NoDup (p : nat) (t s : tree) :
  NoDup (ids t) -> subtree p t = Some s -> NoDup (ids s).
Proof.
  induction t as [j cs IH] using tree_ind. intros Hnd H.
  apply subtree_inv in H as [[<- ->] | [_ (c & Hc & H)]]; [assumption | ].
  rewrite Forall_forall in IH. apply (IH c Hc); [ | assumption].
  eapply NoDup_child; [eassumption | assumption].
Qed.

Lemma subtree_root (t : tree) : subtree (id t) t = Some t.
Proof. destruct t as [j cs]. simpl. rewrite Nat.eqb_refl. reflexivity. Qed.

Lemma subtree_child (p j : nat) (cs : list tree) (c s : tree) :
  NoDup (ids (T j cs)) -> In c cs -> subtree p c = Some s ->
  subtree p (T j cs) = Some s.
Proof.
  intros Hnd Hc Hs. simpl.
  assert (Hp : In p (ids c)).
  { destruct (subtree p c) eqn:E; [ | discriminate].
    destruct (in_dec Nat.eq_dec p (ids c)) as [ | Hn]; [assumption | ].
    apply subtree_None in Hn. congruence. }
  destruct (Nat.eqb_spec j p) as [-> | Hne].
  - exfalso. apply (root_not_below _ Hnd). apply in_descendants. simpl. eauto.
  - apply firstSome_unique with (x := c); [assumption | assumption | ].
    intros x Hx. destruct (subtree p x) as [s' | ] eqn:E; [right | left; reflexivity].
    assert (x = c); [ | congruence].
    apply NoDup_descendants in Hnd.
    apply (children_disjoint cs x c p Hnd); auto.
    destruct (in_dec Nat.eq_dec p (ids x)) as [ | Hn]; [assumption | ].
    apply subtree_None in Hn. congruence.
Qed.

(** *** [parentOf] *)

Lemma parentOf_inv (f j : nat) (cs : list tree) (p : nat) :
  parentOf f (T j cs) = Some p ->
  (p = j /\ exists c, In c cs /\ id c = f) \/
  (exists c, In c cs /\ parentOf f c = Some p).
Proof.
  simpl. destruct (existsb (fun c => id c =? f) cs) eqn:E.
  - intros [= <-]. left. split; [reflexivity | ].
    apply existsb_exists in E as (c & Hc & E).
    apply Nat.eqb_eq in E. eauto.
  - intros H. right. apply firstSome_Some in H. assumption.
Qed.

Lemma parentOf_here (f j : nat) (cs : list tree) (c : tree) :
  In c cs -> id c = f -> parentOf f (T j cs) = Some j.
Proof.
  intros Hc Hid. simpl.
  replace (existsb (fun c => id c =? f) cs) with true; [reflexivity | ].
  symmetry. apply existsb_exists. exists c.
  split; [assumption | apply Nat.eqb_eq; assumption].
Qed.

Lemma parentOf_None (f : nat) (t : tree) :
  parentOf f t = None <-> ~ In f (descendants t).
Proof.
  induction t as [j cs IH] using tree_ind. rewrite Forall_forall in IH.
  simpl. destruct (existsb (fun c => id c =? f) cs) eqn:E.
  - split; [discriminate | ]. intros H. exfalso. apply H.
    apply existsb_exists in E as (c & Hc & E). apply Nat.eqb_eq in E.
    apply in_descendants. exists c. split; [assumption | ].
    rewrite <- E. apply id_in_ids.
  - rewrite firstSome_None. split.
    + intros H Hin. apply in_descendants in Hin as (c & Hc & Hf). simpl in Hc.
      rewrite ids_descendants in Hf. destruct Hf as [Hf | Hf].
      * assert (existsb (fun c => id c =? f) cs = true); [ | congruence].
        apply existsb_exists. exists c. split; [assumption | apply Nat.eqb_eq; assumption].
      * apply (IH c Hc); auto.
    + intros H c Hc. apply IH; [assumption | ].
      intros Hf. apply H. apply in_descendants. exists c.
      split; [assumption | apply descendants_ids; assumption].
Qed.

Lemma parentOf_below (f : nat) (t : tree) (p : nat) :
  parentOf f t = Some p -> In f (descendants t).
Proof.
  intros H. destruct (in_dec Nat.eq_dec f (descendants t)) as [ | Hn]; [assumption | ].
  apply parentOf_None in Hn. congruence.
Qed.

Lemma parentOf_child (f j : nat) (cs : list tree) (c : tree) (p : nat) :
  NoDup (ids (T j cs)) -> In c cs -> parentOf f c = Some p ->
  parentOf f (T j cs) = Some p.
Proof.
  intros Hnd Hc Hp. simpl.
  assert (Hf : In f (descendants c)) by (eapply parentOf_below; eassumption).
  assert (Hcs : NoDup (flat_map ids cs)) by (apply NoDup_descendants in Hnd; assumption).
  destruct (existsb (fun c => id c =? f) cs) eqn:E.
  - exfalso. apply existsb_exists in E as (x & Hx & E). apply Nat.eqb_eq in E.
    assert (x = c).
    { apply (children_disjoint cs x c f Hcs); auto.
      - rewrite <- E. apply id_in_ids.
      - apply descendants_ids. assumption. }
    subst x. apply (root_not_below c); [ | rewrite E; assumption].
    eapply NoDup_flat_child; eassumption.
  - apply firstSome_unique with (x := c); [assumption | assumption | ].
    intros x Hx. destruct (parentOf f x) as [p' | ] eqn:E'; [right | left; reflexivity].
    assert (x = c); [ | congruence].
    apply (children_disjoint cs x c f Hcs); auto.
    + apply descendants_ids. eapply parentOf_below; eassumption.
    + apply descendants_ids. assumption.
Qed.

(** The parent is in the tree and holds the element among its children. *)
Lemma parentOf_subtree (f : nat) (t : tree) (p : nat) :
  NoDup (ids t) -> parentOf f t = Some p ->
  exists s, subtree p t = Some s /\ In f (map id (childNodes s)).
Proof.
  induction t as [j cs IH] using tree_ind. rewrite Forall_forall in IH.
  intros Hnd H.
  apply parentOf_inv in H as [[-> (c & Hc & Hid)] | (c & Hc & H)].
  - exists (T j cs). split; [apply (subtree_root (T j cs)) | ].
    simpl. apply in_map_iff. eauto.
  - destruct (IH c Hc) as (s & Hs & Hf); [ | assumption | ].
    + eapply NoDup_child; [eassumption | assumption].
    + exists s. split; [ | assumption].
      eapply subtree_child; eassumption.
Qed.

End TreeFacts.

(** ** The matcher decides the language *)

Module RegExpFacts.
Import RegExp.

Lemma lang_Cat_iff (r1 r2 : regex) (w : list ascii) :
  lang (Cat r1 r2) w <-> exists u v, w = u ++ v /\ lang r1 u /\ lang r2 v.
Proof.
  split.
  - intros H. inversion H; subst. eauto.
  - intros (u & v & -> & Hu & Hv). constructor; assumption.
Qed.

Lemma lang_Alt_iff (r1 r2 : regex) (w : list ascii) :
  lang (Alt r1 r2) w <-> lang r1 w \/ lang r2 w.
Proof.
  split.
  - intros H. inversion H; subst; auto.
  - intros [H | H]; [apply lang_AltL | apply lang_AltR]; assumption.
Qed.

Lemma lang_Class_iff (p : ascii -> bool) (w : list ascii) :
  lang (Class p) w <-> exists c, w = [c] /\ p c = true.
Proof.
  split.
  - intros H. inversion H; subst. eauto.
  - intros (c & -> & Hc). constructor; assumption.
Qed.

Lemma nullable_lang (r : regex) : nullable r = true <-> lang r [].
Proof.
  induction r; simpl.
  - split; [discriminate | intros H; inversion H].
  - split; [constructor | reflexivity].
  - split; [discriminate | intros H; inversion H].
  - rewrite andb_true_iff, IHr1, IHr2, lang_Cat_iff. split.
    + intros [H1 H2]. exists [], []. auto.
    + intros (u & v & E & Hu & Hv).
      symmetry in E. apply app_eq_nil in E as [-> ->]. auto.
  - rewrite orb_true_iff, IHr1, IHr2, lang_Alt_iff. reflexivity.
  - split; [constructor | reflexivity].
Qed.

(** A non-empty word of [Star r] starts with a non-empty word of [r]. *)
Lemma lang_Star_cons (r : regex) (w : list ascii) :
  lang (Star r) w ->
  forall c s, w = c :: s ->
  exists u v, s = u ++ v /\ lang r (c :: u) /\ lang (Star r) v.
Proof.
  intros H.
  remember (Star r) as r' eqn:E.
  induction H; try discriminate; intros c s Hw.
  injection E as ->.
  destruct u as [ | a u]; simpl in Hw.
  - apply IHlang2; auto.
  - injection Hw as -> <-. exists u, v. auto.
Qed.

Lemma deriv_lang (r : regex) :
  forall c s, lang (deriv c r) s <-> lang r (c :: s).
Proof.
  induction r; intros c s; simpl.
  - split; intros H; inversion H.
  - split; intros H; inversion H.
  - rewrite lang_Class_iff. destruct (b c) eqn:Hb; split; intros H.
    + inversion H; subst. eauto.
    + destruct H as (a & E & Ha). injection E as <- ->. constructor.
    + inversion H.
    + destruct H as (a & E & Ha). congruence.
  - destruct (nullable r1) eqn:Hn.
    + rewrite lang_Alt_iff, !lang_Cat_iff. split.
      * intros [(u & v & -> & Hu & Hv) | H].
        -- exists (c :: u), v. rewrite <- IHr1. auto.
        -- exists [], (c :: s). rewrite <- IHr2, <- nullable_lang. auto.
      * intros (u & v & E & Hu & Hv).
        destruct u as [ | a u]; simpl in E.
        -- subst v. right. apply IHr2, Hv.
        -- injection E as <- ->. left. exists u, v. rewrite IHr1. auto.
    + rewrite !lang_Cat_iff. split.
      * intros (u & v & -> & Hu & Hv).
        exists (c :: u), v. rewrite <- IHr1. auto.
      * intros (u & v & E & Hu & Hv).
        destruct u as [ | a u]; simpl in E.
        -- apply nullable_lang in Hu. congruence.
        -- injection E as <- ->. exists u, v. rewrite IHr1. auto.
  - rewrite !lang_Alt_iff, IHr1, IHr2. reflexivity.
  - rewrite lang_Cat_iff. split.
    + intros (u & v & -> & Hu & Hv).
      change (c :: u ++ v) with ((c :: u) ++ v).
      constructor; [apply IHr | ]; assumption.
    + intros H.
      destruct (lang_Star_cons _ _ H _ _ eq_refl) as (u & v & -> & Hu & Hv).
      exists u, v. rewrite IHr. auto.
Qed.

Lemma accepts_lang (s : list ascii) :
  forall r, accepts r s = true <-> lang r s.
Proof.
  induction s as [ | c s IH]; intros r; simpl.
  - apply nullable_lang.
  - rewrite IH. apply deriv_lang.
Qed.

Lemma lang_Star_Class (p : ascii -> bool) (w : list ascii) :
  lang (Star (Class p)) w <-> Forall (fun c => p c = true) w.
Proof.
  split.
  - intros H. remember (Star (Class p)) as r eqn:E.
    induction H; try discriminate.
    + constructor.
    + injection E as ->.
      inversion H; subst. simpl. constructor; auto.
  - induction 1 as [ | c w Hc _ IH].
    + constructor.
    + change (c :: w) with ([c] ++ w).
      constructor; [constructor | ]; assumption.
Qed.

Lemma lang_Plus_Class (p : ascii -> bool) (w : list ascii) :
  lang (Plus (Class p)) w <-> w <> [] /\ Forall (fun c => p c = true) w.
Proof.
  unfold Plus. rewrite lang_Cat_iff. split.
  - intros (u & v & -> & Hu & Hv).
    inversion Hu; subst. apply lang_Star_Class in Hv.
    split; [discriminate | constructor; assumption].
  - intros [Hne Hall]. destruct w as [ | c w]; [congruence | ].
    inversion Hall; subst.
    exists [c], w. rewrite lang_Star_Class.
    repeat split; [constructor | ]; assumption.
Qed.

Lemma lang_Lit (c : ascii) (w : list ascii) : lang (Lit c) w <-> w = [c].
Proof.
  unfold Lit. rewrite lang_Class_iff. split.
  - intros (a & -> & Ha). apply Ascii.eqb_eq in Ha. congruence.
  - intros ->. exists c. split; [reflexivity | apply Ascii.eqb_refl].
Qed.

End RegExpFacts.

Section Detach.

Lemma id_detach (e : nat) (t : tree) : id (detach e t) = id t.
Proof. destruct t; reflexivity. Qed.

Lemma childNodes_detach (e : nat) (t : tree) :
  childNodes (detach e t) =
  map (detach e) (filter (fun c => negb (id c =? e)) (childNodes t)).
Proof. destruct t as [j cs]. simpl. apply mapFilter_spec. Qed.

Lemma in_childNodes_detach (e : nat) (t x : tree) :
  In x (childNodes (detach e t)) <->
  exists c, In c (childNodes t) /\ id c <> e /\ x = detach e c.
Proof.
  rewrite childNodes_detach, in_map_iff. split.
  - intros (c & <- & Hc). apply filter_In in Hc as [Hc Hk].
    exists c. repeat split; [assumption | ].
    intros E. rewrite <- Nat.eqb_eq in E. rewrite E in Hk. discriminate.
  - intros (c & Hc & Hne & ->). exists c. split; [reflexivity | ].
    apply filter_In. split; [assumption | ].
    apply negb_true_iff, Nat.eqb_neq. assumption.
Qed.

(** What is left below the root was there before, and is not [e]. *)
Lemma descendants_detach (e : nat) (t : tree) (x : nat) :
  In x (descendants (detach e t)) -> In x (descendants t) /\ x <> e.
Proof.
  induction t as [j cs IH] using tree_ind. rewrite Forall_forall in IH.
  intros H. apply in_descendants in H as (c' & Hc' & Hx).
  apply in_childNodes_detach in Hc' as (c & Hc & Hne & ->). simpl in Hc.
  rewrite ids_descendants, id_detach in Hx.
  destruct Hx as [<- | Hx].
  - split; [ | assumption]. apply in_descendants. exists c.
    split; [assumption | apply id_in_ids].
  - destruct (IH c Hc Hx) as [Hd Hxe]. split; [ | assumption].
    apply in_descendants. exists c.
    split; [assumption | apply descendants_ids; assumption].
Qed.

Lemma ids_detach (e : nat) (t : tree) (x : nat) :
  In x (ids (detach e t)) -> In x (ids t).
Proof.
  rewrite !ids_descendants, id_detach. intros [H | H]; [left; assumption | right].
  apply descendants_detach in H. tauto.
Qed.

Lemma NoDup_detach (e : nat) (t : tree) :
  NoDup (ids t) -> NoDup (ids (detach e t)).
Proof.
  induction t as [j cs IH] using tree_ind. rewrite Forall_forall in IH.
  intros Hnd.
  rewrite ids_descendants, id_detach. constructor.
  - intros H. apply descendants_detach in H as [H _].
    apply (root_not_below _ Hnd). assumption.
  - apply NoDup_descendants in Hnd. unfold descendants in *.
    rewrite childNodes_detach. simpl in *.
    induction cs as [ | c cs IHcs]; simpl; [constructor | ].
    assert (Hrest : NoDup (flat_map ids cs))
      by (eapply NoDup_app_remove_l; eassumption).
    destruct (negb (id c =? e)); simpl.
    + apply NoDup_app.
      * apply IH; [left; reflexivity | ].
        eapply NoDup_app_remove_r; eassumption.
      * apply IHcs; [ | assumption]. intros x Hx. apply IH. right. assumption.
      * intros x Hx Hx'. apply ids_detach in Hx.
        apply in_flat_map in Hx' as (c' & Hc' & Hx').
        apply in_map_iff in Hc' as (c0 & <- & Hc0).
        apply filter_In in Hc0 as [Hc0 _]. apply ids_detach in Hx'.
        eapply NoDup_app_disjoint; [exact Hnd | exact Hx | ].
        apply in_flat_map. eauto.
    + apply IHcs; [ | assumption]. intros x Hx. apply IH. right. assumption.
Qed.

Lemma subtree_detach (e p : nat) (t s : tree) :
  NoDup (ids t) -> subtree p t = Some s -> In e (descendants s) ->
  subtree p (detach e t) = Some (detach e s).
Proof.
  induction t as [j cs IH] using tree_ind. rewrite Forall_forall in IH.
  intros Hnd Hs He.
  apply subtree_inv in Hs as [[<- ->] | [Hne (c & Hc & Hs)]].
  - apply (subtree_root (detach e (T j cs))).
  - assert (Hndc : NoDup (ids c)) by (apply (NoDup_child (T j cs)); assumption).
    assert (Hec : In e (descendants c)) by (eapply subtree_descendants; eassumption).
    assert (Hid : id c <> e).
    { intros E. apply (root_not_below c Hndc). rewrite E. assumption. }
    specialize (IH c Hc Hndc Hs He).
    apply NoDup_detach with (e := e) in Hnd.
    remember (detach e (T j cs)) as t' eqn:Et'.
    destruct t' as [j' cs'].
    apply subtree_child with (c := detach e c); [assumption | | assumption].
    change cs' with (childNodes (T j' cs')). rewrite Et'.
    apply in_childNodes_detach. exists c. auto.
Qed.

Lemma parentOf_detach (e f p : nat) (t s : tree) :
  NoDup (ids t) -> parentOf f t = Some p -> subtree p t = Some s ->
  In e (descendants s) -> e <> f ->
  parentOf f (detach e t) = Some p.
Proof.
  induction t as [j cs IH] using tree_ind. rewrite Forall_forall in IH.
  intros Hnd Hp Hs He Hef.
  assert (Hnd' : NoDup (ids (detach e (T j cs)))) by (apply NoDup_detach; assumption).
  remember (detach e (T j cs)) as t' eqn:Et'.
  destruct t' as [j' cs'].
  assert (Hj : j' = j).
  { change j' with (id (T j' cs')). rewrite Et'. apply id_detach. }
  subst j'.
  apply parentOf_inv in Hp as [[-> (c & Hc & Hid)] | (c & Hc & Hp)].
  - apply parentOf_here with (c := detach e c); [ | rewrite id_detach; assumption].
    change cs' with (childNodes (T j cs')). rewrite Et'.
    apply in_childNodes_detach. exists c. repeat split; [assumption | congruence].
  - assert (Hndc : NoDup (ids c)) by (apply (NoDup_child (T j cs)); assumption).
    destruct (parentOf_subtree _ _ _ Hndc Hp) as (s' & Hs' & _).
    assert (s' = s).
    { pose proof (subtree_child _ _ _ _ _ Hnd Hc Hs'). congruence. }
    subst s'.
    assert (Hec : In e (descendants c)) by (eapply subtree_descendants; eassumption).
    assert (Hid : id c <> e).
    { intros E. apply (root_not_below c Hndc). rewrite E. assumption. }
    apply parentOf_child with (c := detach e c); [assumption | | ].
    + change cs' with (childNodes (T j cs')). rewrite Et'.
      apply in_childNodes_detach. exists c. auto.
    + apply IH; assumption.
Qed.

End Detach.

Section Attach.

Lemma id_attach (p c : nat) (t : tree) : id (attach p c t) = id t.
Proof. destruct t; reflexivity. Qed.

Lemma attach_absent (p c : nat) (t : tree) :
  ~ In p (ids t) -> attach p c t = t.
Proof.
  induction t as [j cs IH] using tree_ind. rewrite Forall_forall in IH.
  intros Hp. simpl.
  destruct (Nat.eqb_spec j p) as [-> | Hne].
  - exfalso. apply Hp. left. reflexivity.
  - rewrite app_nil_r. f_equal.
    rewrite <- (map_id cs) at 2. apply map_ext_in.
    intros x Hx. apply IH; [assumption | ].
    intros H. apply Hp. right. apply in_flat_map. eauto.
Qed.

Lemma attach_here (p c : nat) (cs : list tree) :
  NoDup (ids (T p cs)) -> attach p c (T p cs) = T p (cs ++ [T c []]).
Proof.
  intros Hnd. simpl. rewrite Nat.eqb_refl. f_equal. f_equal.
  rewrite <- (map_id cs) at 2. apply map_ext_in.
  intros x Hx. apply attach_absent.
  intros H. apply (root_not_below _ Hnd).
  apply in_descendants. exists x. auto.
Qed.

Lemma ids_attach (p c : nat) (t : tree) (x : nat) :
  In x (ids (attach p c t)) <-> In x (ids t) \/ (x = c /\ In p (ids t)).
Proof.
  induction t as [j cs IH] using tree_ind. rewrite Forall_forall in IH.
  simpl. rewrite flat_map_app, in_app_iff.
  split.
  - intros [H | [H | H]].
    + auto.
    + apply in_flat_map in H as (y & Hy & Hx).
      apply in_map_iff in Hy as (y0 & <- & Hy0).
      apply (IH y0 Hy0) in Hx as [Hx | [-> Hp]].
      * left. right. apply in_flat_map. exists y0. auto.
      * right. split; [reflexivity | ]. right. apply in_flat_map. exists y0. auto.
    + destruct (Nat.eqb_spec j p) as [-> | Hne]; [ | contradiction].
      simpl in H. destruct H as [<- | []].
      right. auto.
  - intros [[H | H] | [-> [H | H]]].
    + auto.
    + apply in_flat_map in H as (y & Hy & Hx).
      right. left. apply in_flat_map. exists (attach p c y).
      split; [apply in_map; assumption | apply IH; auto].
    + right. right. subst j. rewrite Nat.eqb_refl. simpl. auto.
    + apply in_flat_map in H as (y & Hy & Hx).
      right. left. apply in_flat_map. exists (attach p c y).
      split; [apply in_map; assumption | apply IH; auto].
Qed.

Lemma NoDup_attach (p c : nat) (t : tree) :
  NoDup (ids t) -> ~ In c (ids t) -> NoDup (ids (attach p c t)).
Proof.
  induction t as [j cs IH] using tree_ind. rewrite Forall_forall in IH.
  intros Hnd Hc.
  destruct (in_dec Nat.eq_dec p (ids (T j cs))) as [Hp | Hp];
    [ | rewrite attach_absent; assumption].
  destruct (Nat.eq_dec j p) as [-> | Hne].
  - rewrite attach_here by assumption. simpl.
    rewrite flat_map_app. simpl.
    replace (p :: flat_map ids cs ++ [c]) with ((p :: flat_map ids cs) ++ [c])
      by reflexivity.
    apply NoDup_app; [assumption | repeat constructor; intros [] | ].
    intros x Hx [<- | []]. apply Hc. assumption.
  - simpl. destruct (Nat.eqb_spec j p) as [ | _]; [contradiction | ].
    rewrite app_nil_r. constructor.
    + intros H. apply in_flat_map in H as (y & Hy & Hx).
      apply in_map_iff in Hy as (y0 & <- & Hy0).
      apply ids_attach in Hx as [Hx | [-> _]].
      * apply (root_not_below _ Hnd). apply in_descendants. exists y0. auto.
      * apply Hc. left. reflexivity.
    + assert (Hcs : ~ In c (flat_map ids cs)) by (intros H; apply Hc; right; assumption).
      apply NoDup_descendants in Hnd. unfold descendants in Hnd. simpl in Hnd.
      clear Hp Hne Hc.
      induction cs as [ | y cs IHcs]; simpl; [constructor | ].
      simpl in Hnd, Hcs.
      assert (Hrest : NoDup (flat_map ids cs))
        by (eapply NoDup_app_remove_l; eassumption).
      apply NoDup_app.
      * apply IH; [left; reflexivity | | ].
        -- eapply NoDup_app_remove_r; eassumption.
        -- intros H. apply Hcs, in_or_app. auto.
      * apply IHcs; [ | assumption | ].
        -- intros x Hx. apply IH. right. assumption.
        -- intros H. apply Hcs, in_or_app. auto.
      * intros x Hx Hx'.
        apply in_flat_map in Hx' as (z & Hz & Hx').
        apply in_map_iff in Hz as (z0 & <- & Hz0).
        apply ids_attach in Hx as [Hx | [-> Hpy]];
          apply ids_attach in Hx' as [Hx' | [E Hpz]].
        -- eapply NoDup_app_disjoint; [exact Hnd | exact Hx | ].
           apply in_flat_map. eauto.
        -- subst x. apply Hcs, in_or_app. auto.
        -- apply Hcs, in_or_app. right. apply in_flat_map. eauto.
        -- eapply NoDup_app_disjoint; [exact Hnd | exact Hpy | ].
           apply in_flat_map. eauto.
Qed.

Lemma in_childNodes_attach (p c : nat) (t x : tree) :
  In x (childNodes t) -> In (attach p c x) (childNodes (attach p c t)).
Proof.
  destruct t as [j cs]. simpl. intros H.
  apply in_or_app. left. apply in_map. assumption.
Qed.

Lemma subtree_attach (p c q : nat) (t s : tree) :
  NoDup (ids t) -> ~ In c (ids t) -> subtree q t = Some s ->
  subtree q (attach p c t) = Some (attach p c s).
Proof.
  induction t as [j cs IH] using tree_ind. rewrite Forall_forall in IH.
  intros Hnd Hc Hs.
  apply subtree_inv in Hs as [[<- ->] | [Hne (y & Hy & Hs)]].
  - apply (subtree_root (attach p c (T j cs))).
  - assert (Hnd' : NoDup (ids (attach p c (T j cs)))) by (apply NoDup_attach; assumption).
    pose proof (in_childNodes_attach p c (T j cs) y Hy) as Hin.
    remember (attach p c (T j cs)) as t' eqn:Et'.
    destruct t' as [j' cs'].
    apply subtree_child with (c := attach p c y); [assumption | exact Hin | ].
    apply IH; [assumption | | | assumption].
    + apply (NoDup_child (T j cs)); assumption.
    + intros H. apply Hc. right. apply in_flat_map. eauto.
Qed.

Lemma parentOf_attach (p c f q : nat) (t : tree) :
  NoDup (ids t) -> ~ In c (ids t) -> parentOf f t = Some q ->
  parentOf f (attach p c t) = Some q.
Proof.
  induction t as [j cs IH] using tree_ind. rewrite Forall_forall in IH.
  intros Hnd Hc Hq.
  assert (Hnd' : NoDup (ids (attach p c (T j cs)))) by (apply NoDup_attach; assumption).
  pose proof (id_attach p c (T j cs)) as Hid.
  pose proof (in_childNodes_attach p c (T j cs)) as Hin.
  remember (attach p c (T j cs)) as t' eqn:Et'.
  destruct t' as [j' cs']. simpl in Hid. subst j'.
  apply parentOf_inv in Hq as [[-> (y & Hy & Hf)] | (y & Hy & Hq)].
  - apply parentOf_here with (c := attach p c y);
      [apply Hin; assumption | rewrite id_attach; assumption].
  - apply parentOf_child with (c := attach p c y);
      [assumption | apply Hin; assumption | ].
    apply IH; [assumption | | | assumption].
    + apply (NoDup_child (T j cs)); assumption.
    + intros H. apply Hc. right. apply in_flat_map. eauto.
Qed.

Lemma descendants_attach_here (p c : nat) (s : tree) :
  NoDup (ids s) -> id s = p ->
  descendants (attach p c s) = descendants s ++ [c].
Proof.
  destruct s as [j cs]. intros Hnd E. simpl in E. subst j.
  rewrite attach_here by assumption.
  unfold descendants. simpl. rewrite flat_map_app. reflexivity.
Qed.

End Attach.

(** ** The error state of a field *)

Section Heap.

Lemma upd_same (h : nat -> element) (i : nat) (e : element) : upd h i e i = e.
Proof. unfold upd. rewrite Nat.eqb_refl. reflexivity. Qed.

Lemma upd_other (h : nat -> element) (i j : nat) (e : element) :
  j <> i -> upd h i e j = h j.
Proof. unfold upd. intros H. apply Nat.eqb_neq in H. rewrite H. reflexivity. Qed.

Lemma filter_nil_iff (A : Type) (f : A -> bool) (l : list A) :
  filter f l = [] <-> forall x, In x l -> f x = false.
Proof.
  induction l as [ | a l IH]; simpl.
  - split; [contradiction | reflexivity].
  - destruct (f a) eqn:E.
    + split; [discriminate | ]. intros H.
      specialize (H a (or_introl eq_refl)). congruence.
    + rewrite IH. split.
      * intros H x [<- | Hx]; auto.
      * intros H x Hx. apply H. auto.
Qed.

Lemma map_filter_ext (A B : Type) (f g : A -> bool) (h k : A -> B) (l : list A) :
  (forall x, In x l -> f x = g x /\ h x = k x) ->
  map h (filter f l) = map k (filter g l).
Proof.
  induction l as [ | a l IH]; simpl; intros H; [reflexivity | ].
  destruct (H a (or_introl eq_refl)) as [-> Hh].
  destruct (g a); simpl; [rewrite Hh; f_equal | ]; apply IH; auto.
Qed.

(** Adding or removing the class [error] leaves the other classes. *)
Lemma existsb_remove_other (c c' : string) (l : list string) :
  c <> c' ->
  existsb (String.eqb c) (filter (fun x => negb (String.eqb c' x)) l) =
  existsb (String.eqb c) l.
Proof.
  intros Hne. induction l as [ | a l IH]; simpl; [reflexivity | ].
  destruct (String.eqb_spec c' a) as [<- | Ha]; simpl.
  - rewrite IH. destruct (String.eqb_spec c c'); [contradiction | reflexivity].
  - rewrite IH. reflexivity.
Qed.

Lemma existsb_removed (c : string) (l : list string) :
  existsb (String.eqb c) (filter (fun x => negb (String.eqb c x)) l) = false.
Proof.
  induction l as [ | a l IH]; simpl; [reflexivity | ].
  destruct (String.eqb_spec c a) as [<- | Ha]; simpl; [assumption | ].
  rewrite IH. destruct (String.eqb_spec c a); [contradiction | reflexivity].
Qed.

Lemma existsb_add_other (c c' : string) (l : list string) :
  c <> c' ->
  existsb (String.eqb c)
    (if existsb (String.eqb c') l then l else l ++ [c']) =
  existsb (String.eqb c) l.
Proof.
  intros Hne. destruct (existsb (String.eqb c') l); [reflexivity | ].
  rewrite existsb_app. simpl.
  destruct (String.eqb_spec c c'); [contradiction | ].
  rewrite !orb_false_r. reflexivity.
Qed.

Lemma existsb_added (c : string) (l : list string) :
  existsb (String.eqb c)
    (if existsb (String.eqb c) l then l else l ++ [c]) = true.
Proof.
  destruct (existsb (String.eqb c) l) eqn:E; [assumption | ].
  rewrite existsb_app. simpl. rewrite String.eqb_refl.
  apply orb_true_iff. right. reflexivity.
Qed.

End Heap.

Section FieldErrorState.

Variables (field p : nat) (d : document).
Hypothesis Hwf : wellFormed d.
Hypothesis Hparent : parentOf field (body d) = Some p.
Hypothesis Hplain : plainField field d.

Let fe := ByClass "field-error".

Lemma clearFieldError_eq :
  clearFieldError field d =
  Ok tt (with_heap
           (upd (heap d) field
              (with_classList
                 (filter (fun x => negb (String.eqb "error" x))
                    (classList (heap d field))) (heap d field)))
           (with_body
              match hd_error (select fe p d) with
              | Some e => detach e (body d)
              | None => body d
              end d)).
Proof.
  unfold clearFieldError, parentNode, nonNull, querySelector, bind, gets.
  rewrite Hparent. unfold ret at 1, fe.
  destruct (hd_error (select (ByClass "field-error") p d)); reflexivity.
Qed.

Lemma clearFieldError_spec :
  exists d1,
    clearFieldError field d = Ok tt d1 /\
    wellFormed d1 /\ nextId d1 = nextId d /\
    parentOf field (body d1) = Some p /\
    plainField field d1 /\
    marked field d1 = false /\
    List.length (annotations field d1) <= List.length (annotations field d) - 1 /\
    (forall i, i <> field -> heap d1 i = heap d i) /\
    heap d1 field =
      with_classList (filter (fun x => negb (String.eqb "error" x))
                        (classList (heap d field))) (heap d field) /\
    (forall i, In i (ids (body d1)) -> In i (ids (body d))) /\
    body d1 = match hd_error (select fe p d) with
              | Some e => detach e (body d)
              | None => body d
              end /\
    listeners d1 = listeners d /\ timers d1 = timers d /\ clock d1 = clock d.
Proof.
  destruct Hwf as (Hnd & Hlt & Htm).
  destruct (parentOf_subtree _ _ _ Hnd Hparent) as (s & Hs & Hchild).
  assert (Hfield : In field (descendants s)).
  { apply in_map_iff in Hchild as (c & <- & Hc).
    apply in_descendants. exists c. split; [assumption | apply id_in_ids]. }
  eexists. split; [apply clearFieldError_eq | ].
  set (e := hd_error (select fe p d)).
  assert (He : forall x, e = Some x -> In x (descendants s) /\ x <> field /\
                           exists rest, select fe p d = x :: rest).
  { intros x Hx. unfold e, select in Hx. unfold select. rewrite Hs in *.
    destruct (filter _ (descendants s)) as [ | y rest] eqn:Ef; [discriminate | ].
    injection Hx as ->.
    assert (Hin : In x (filter (fun i => matches fe (heap d i))
                          (descendants s))) by (rewrite Ef; left; reflexivity).
    apply filter_In in Hin as [Hin Hm].
    repeat split; [assumption | | exists rest; reflexivity].
    intros ->. unfold plainField in Hplain. unfold fe in Hm. congruence. }
  set (t1 := match e with Some x => detach x (body d) | None => body d end).
  assert (Ht1 : NoDup (ids t1) /\ (forall i, In i (ids t1) -> In i (ids (body d))) /\
                parentOf field t1 = Some p /\
                exists s1, subtree p t1 = Some s1 /\
                  forall x, In x (descendants s1) ->
                    In x (descendants s) /\ e <> Some x).
  { unfold t1. destruct e as [x | ] eqn:Ee.
    - destruct (He x eq_refl) as (Hx & Hxf & _).
      split; [apply NoDup_detach; assumption | ].
      split; [intros i; apply ids_detach | ].
      split; [eapply parentOf_detach; eassumption | ].
      exists (detach x s). split; [apply subtree_detach; assumption | ].
      intros y Hy. apply descendants_detach in Hy as [Hy Hne].
      split; [assumption | congruence].
    - repeat split; try assumption; auto.
      exists s. split; [assumption | ]. intros x Hx. split; [assumption | discriminate]. }
  destruct Ht1 as (Hnd1 & Hsub1 & Hp1 & s1 & Hs1 & Hdesc1).
  assert (Hfe : forall y, matches fe
                   (upd (heap d) field
                      (with_classList
                         (filter (fun x0 => negb (String.eqb "error" x0))
                            (classList (heap d field))) (heap d field)) y)
                = matches fe (heap d y)).
  { intros y. destruct (Nat.eq_dec y field) as [-> | Hyf].
    - rewrite upd_same. simpl. apply existsb_remove_other. discriminate.
    - rewrite upd_other by assumption. reflexivity. }
  simpl.
  split; [split; [assumption | split; [intros i Hi; apply Hlt, Hsub1; assumption
                                       | assumption] ] | ].
  split; [reflexivity | ].
  split; [assumption | ].
  split; [unfold plainField; cbn [heap with_heap]; fold fe; rewrite Hfe; exact Hplain | ].
  split; [unfold marked; simpl; rewrite upd_same; simpl; apply existsb_removed | ].
  split.
  { unfold annotations, texts, select.
    cbn [heap body with_heap with_body].
    fold fe e t1. rewrite Hp1, Hs1, Hparent, Hs. rewrite !length_map.
    set (l1 := filter _ (descendants s1)).
    assert (Hincl : forall y, In y l1 ->
              In y (filter (fun i => matches fe (heap d i)) (descendants s)) /\
              e <> Some y).
    { intros y Hy. apply filter_In in Hy as [Hy Hm].
      destruct (Hdesc1 y Hy) as [Hy0 Hne]. rewrite Hfe in Hm.
      split; [apply filter_In; auto | assumption]. }
    assert (Hndl : NoDup l1).
    { apply NoDup_filter, NoDup_descendants. eapply subtree_NoDup; eassumption. }
    destruct e as [x | ] eqn:Ee.
    - destruct (He x eq_refl) as (_ & _ & rest & Hsel).
      unfold select in Hsel. rewrite Hs in Hsel.
      match goal with |- _ <= List.length ?L - 1 =>
        assert (Hle : List.length (x :: l1) <= List.length L) end.
      { apply NoDup_incl_length.
        - constructor; [ | assumption].
          intros Hin. apply Hincl in Hin as [_ Hne]. congruence.
        - intros y [<- | Hy]; [rewrite Hsel; left; reflexivity | ].
          apply Hincl. assumption. }
      cbn [List.length] in Hle. lia.
    - destruct l1 as [ | y l1']; [simpl; lia | exfalso].
      destruct (Hincl y (or_introl eq_refl)) as [Hin _].
      unfold e, select in Ee. rewrite Hs in Ee.
      destruct (filter _ (descendants s)); [contradiction | discriminate]. }
  split; [intros i Hi; apply upd_other; assumption | ].
  split; [apply upd_same | ].
  split; [assumption | ].
  repeat split; reflexivity.
Qed.

End FieldErrorState.

Section ShowFieldError.

Variables (field p : nat) (d : document) (message : string).
Hypothesis Hwf : wellFormed d.
Hypothesis Hparent : parentOf field (body d) = Some p.
Hypothesis Hplain : plainField field d.

Let fe := ByClass "field-error".

(** The state after [showFieldError], the heap apart. *)
Lemma showFieldError_eq (d1 : document) :
  clearFieldError field d = Ok tt d1 ->
  parentOf field (body d1) = Some p ->
  field <> nextId d1 ->
  exists h2,
    showFieldError field message d =
    Ok tt {| body := attach p (nextId d1) (body d1); heap := h2;
             nextId := S (nextId d1); listeners := listeners d1;
             timers := timers d1; clock := clock d1 |} /\
    classList (h2 (nextId d1)) = ["field-error"; "security-warning"] /\
    textContent (h2 (nextId d1)) = message /\
    h2 field =
      with_classList
        (if existsb (String.eqb "error") (classList (heap d1 field))
         then classList (heap d1 field)
         else classList (heap d1 field) ++ ["error"]) (heap d1 field) /\
    (forall i, i <> field -> i <> nextId d1 -> h2 i = heap d1 i).
Proof.
  intros Hclear Hp1 Hne.
  eexists. split.
  { unfold showFieldError, bind. rewrite Hclear.
    unfold createElement, setClassName, classListAdd, appendChild,
      parentNode, nonNull.
    unfold set, modify, gets, ret.
    cbn [heap body nextId with_heap with_body with_nextId].
    rewrite Hp1. simpl.
    repeat rewrite upd_same. reflexivity. }
  assert (Hne' : nextId d1 <> field) by congruence.
  split; [ | split; [ | split; [ | ] ] ].
  - rewrite upd_other by assumption. repeat rewrite upd_same. reflexivity.
  - rewrite upd_other by assumption. repeat rewrite upd_same. reflexivity.
  - rewrite upd_same. repeat rewrite (upd_other _ _ _ _ Hne). reflexivity.
  - intros i Hi Hn. rewrite upd_other by assumption.
    repeat rewrite (upd_other _ _ _ _ Hn). reflexivity.
Qed.

Lemma showFieldError_spec :
  exists d1 d2,
    clearFieldError field d = Ok tt d1 /\
    showFieldError field message d = Ok tt d2 /\
    wellFormed d2 /\ nextId d2 = S (nextId d) /\
    parentOf field (body d2) = Some p /\
    plainField field d2 /\
    marked field d2 = true /\
    annotations field d2 = annotations field d1 ++ [message] /\
    (List.length (annotations field d) <= 1 -> annotations field d2 = [message]) /\
    (forall i, i <> field -> i <> nextId d -> heap d2 i = heap d i) /\
    heap d2 field = with_classList (classList (heap d2 field)) (heap d field) /\
    body d2 = attach p (nextId d) (body d1) /\
    listeners d2 = listeners d /\ timers d2 = timers d /\ clock d2 = clock d /\
    List.length (annotations field d2) <= Nat.max 1 (List.length (annotations field d)).
Proof.
  destruct (clearFieldError_spec field p d Hwf Hparent Hplain)
    as (d1 & Hclear & (Hnd1 & Hlt1 & Htm1) & Hnext & Hp1 & Hplain1 & Hmark1 & Hone &
        Hother & Hfield & Hsub & _ & Hl & Ht & Hc).
  assert (Hin : In field (ids (body d1))).
  { apply descendants_ids. eapply parentOf_below. eassumption. }
  assert (Hne : field <> nextId d1) by (apply Hlt1 in Hin; lia).
  assert (Hfresh : ~ In (nextId d1) (ids (body d1))).
  { intros H. apply Hlt1 in H. lia. }
  destruct (showFieldError_eq d1 Hclear Hp1 Hne)
    as (h2 & Hshow & Hcls & Htxt & Hh2f & Hh2o).
  destruct (parentOf_subtree _ _ _ Hnd1 Hp1) as (s1 & Hs1 & Hchild1).
  exists d1. eexists. split; [exact Hclear | ]. split; [exact Hshow | ].
  cbn [body heap nextId listeners timers clock].
  assert (Hfe : forall y, y <> nextId d1 ->
                  matches fe (h2 y) = matches fe (heap d1 y) /\
                  textContent (h2 y) = textContent (heap d1 y)).
  { intros y Hy. destruct (Nat.eq_dec y field) as [-> | Hyf].
    - rewrite Hh2f. split; [ | reflexivity]. simpl.
      apply existsb_add_other. discriminate.
    - rewrite Hh2o by assumption. auto. }
  split.
  { split; [ | split]; cbn [body nextId timers].
    - apply NoDup_attach; assumption.
    - intros i Hi. apply ids_attach in Hi as [Hi | [-> _]]; [ | lia].
      apply Hlt1 in Hi. lia.
    - intros t Hin'. apply Htm1 in Hin'. lia. }
  split; [congruence | ].
  split; [apply parentOf_attach; assumption | ].
  split; [unfold plainField; cbn [heap]; fold fe; rewrite (proj1 (Hfe field Hne));
          exact Hplain1 | ].
  split.
  { unfold marked. cbn [heap]. rewrite Hh2f. simpl. apply existsb_added. }
  assert (Hann : annotations field
                   {| body := attach p (nextId d1) (body d1); heap := h2;
                      nextId := S (nextId d1); listeners := listeners d1;
                      timers := timers d1; clock := clock d1 |} =
                 annotations field d1 ++ [message]).
  { unfold annotations, texts, select. cbn [body heap].
    rewrite (parentOf_attach _ _ _ _ _ Hnd1 Hfresh Hp1), Hp1.
    rewrite (subtree_attach _ _ _ _ _ Hnd1 Hfresh Hs1), Hs1.
    rewrite descendants_attach_here;
      [ | eapply subtree_NoDup; eassumption | eapply subtree_id; eassumption].
    rewrite filter_app, map_app. f_equal.
    - apply map_filter_ext. intros y Hy.
      apply Hfe. intros ->. apply Hfresh. apply descendants_ids.
      eapply subtree_descendants; eassumption.
    - simpl. rewrite Hcls. simpl. rewrite Htxt. reflexivity. }
  split; [exact Hann | ].
  split.
  { intros Hlen. rewrite Hann.
    revert Hone. destruct (annotations field d1) as [ | a l];
      cbn [List.length]; intros Hone; [reflexivity | lia]. }
  split.
  { intros i Hi Hn. rewrite Hh2o by congruence. apply Hother. assumption. }
  split; [rewrite Hh2f, Hfield; reflexivity | ].
  split; [congruence | ]. split; [congruence | ]. split; [congruence | ].
  split; [congruence | ].
  rewrite Hann, length_app. cbn [List.length]. lia.
Qed.

End ShowFieldError.

Section Checks.

Lemma nodupb_sound (l : list nat) : nodupb l = true -> NoDup l.
Proof.
  induction l as [ | x l IH]; simpl; intros H; [constructor | ].
  apply andb_true_iff in H as [Hx Hl]. constructor; [ | apply IH; assumption].
  intros Hin. apply negb_true_iff in Hx.
  assert (existsb (Nat.eqb x) l = true); [ | congruence].
  apply existsb_exists. exists x. split; [assumption | apply Nat.eqb_refl].
Qed.

Lemma wellFormedb_sound (d : document) : wellFormedb d = true -> wellFormed d.
Proof.
  unfold wellFormedb, wellFormed. intros H.
  apply andb_true_iff in H as [H H3]. apply andb_true_iff in H as [H1 H2].
  split; [apply nodupb_sound; assumption | split].
  - intros i Hi. rewrite forallb_forall in H2. apply Nat.ltb_lt. auto.
  - intros t Ht. rewrite forallb_forall in H3. apply Nat.ltb_lt. auto.
Qed.

End Checks.

Section EmailPattern.
Import RegExp RegExpFacts.

Lemma notSpaceNorAt_true (c : ascii) :
  notSpaceNorAt c = true <-> JSString.isWhiteSpace c = false /\ c <> "@"%char.
Proof.
  unfold notSpaceNorAt. rewrite negb_true_iff, orb_false_iff.
  rewrite <- (Ascii.eqb_neq c "@"). reflexivity.
Qed.

Lemma lang_word (w : list ascii) :
  lang (Plus (Class notSpaceNorAt)) w <-> plainWord w.
Proof.
  rewrite lang_Plus_Class. unfold plainWord.
  rewrite !Forall_forall.
  split; intros [Hne H]; (split; [assumption | ]);
    intros c Hc; apply notSpaceNorAt_true; auto.
Qed.

(** The expression of the source says what the specification says. *)
Lemma emailRegex_spec (s : string) :
  test emailRegex s = true <-> matchesEmailPattern s.
Proof.
  unfold test, emailRegex, matchesEmailPattern.
  rewrite accepts_lang. rewrite lang_Cat_iff. split.
  - intros (a & r1 & E1 & Ha & H).
    apply lang_Cat_iff in H as (x & r2 & -> & Hx & H).
    apply lang_Lit in Hx as ->.
    apply lang_Cat_iff in H as (b & r3 & -> & Hb & H).
    apply lang_Cat_iff in H as (y & c & -> & Hy & Hc).
    apply lang_Lit in Hy as ->.
    exists a, b, c. rewrite <- !lang_word. auto.
  - intros (a & b & c & E & Ha & Hb & Hc).
    exists a, ("@"%char :: b ++ "."%char :: c). rewrite lang_word.
    split; [assumption | split; [assumption | ] ].
    change ("@"%char :: b ++ "."%char :: c)
      with (["@"%char] ++ b ++ "."%char :: c).
    constructor; [apply lang_Lit; reflexivity | ].
    constructor; [apply lang_word; assumption | ].
    change ("."%char :: c) with (["."%char] ++ c).
    constructor; [apply lang_Lit; reflexivity | apply lang_word; assumption].
Qed.

Lemma truthy_true (s : string) : JSString.truthy s = true <-> s <> "".
Proof.
  destruct s; simpl; split; intros H; try discriminate; try reflexivity.
  exfalso. apply H. reflexivity.
Qed.

End EmailPattern.

Section FieldValidator.

Variables (field p : nat) (d : document).
Hypothesis Hwf : wellFormed d.
Hypothesis Hparent : parentOf field (body d) = Some p.
Hypothesis Hplain : plainField field d.

Lemma validateField_cases :
  validateField field d =
  if String.eqb (type (heap d field)) "email"
     && JSString.truthy (JSString.trim (value (heap d field)))
     && negb (RegExp.test emailRegex (JSString.trim (value (heap d field))))
  then (showFieldError field "Please enter a valid email address" ;; ret false) d
  else if required (heap d field)
          && negb (JSString.truthy (JSString.trim (value (heap d field))))
  then (showFieldError field "This field is required" ;; ret false) d
  else (clearFieldError field ;; ret true) d.
Proof.
  unfold validateField, bind at 1, get, gets.
  destruct (String.eqb (type (heap d field)) "email");
    destruct (JSString.truthy (JSString.trim (value (heap d field))));
    destruct (RegExp.test emailRegex (JSString.trim (value (heap d field))));
    destruct (required (heap d field));
    reflexivity.
Qed.

Lemma showFieldError_ret (message : string) :
  exists d',
    (showFieldError field message ;; ret false) d = Ok false d' /\
    showFieldError field message d = Ok tt d' /\
    wellFormed d' /\
    marked field d' = true /\
    (exists rest, annotations field d' = rest ++ [message]) /\
    (forall i, i < nextId d ->
       heap d' i = with_classList (classList (heap d' i)) (heap d i)).
Proof.
  destruct (showFieldError_spec field p d message Hwf Hparent Hplain)
    as (d1 & d2 & _ & Hshow & Hwf2 & _ & _ & _ & Hmark & Hann & _ & Hother & Hfld & _).
  exists d2. unfold bind. rewrite Hshow.
  split; [reflexivity | ]. split; [reflexivity | ].
  split; [assumption | ]. split; [assumption | ].
  split; [eexists; exact Hann | ].
  intros i Hi. destruct (Nat.eq_dec i field) as [-> | Hne]; [assumption | ].
  rewrite Hother by (auto; lia). destruct (heap d i); reflexivity.
Qed.

Lemma clearFieldError_ret :
  exists d',
    (clearFieldError field ;; ret true) d = Ok true d' /\
    clearFieldError field d = Ok tt d' /\
    wellFormed d' /\
    marked field d' = false /\
    (forall i, i < nextId d ->
       heap d' i = with_classList (classList (heap d' i)) (heap d i)).
Proof.
  destruct (clearFieldError_spec field p d Hwf Hparent Hplain)
    as (d1 & Hclear & Hwf1 & _ & _ & _ & Hmark & _ & Hother & Hfld & _).
  exists d1. unfold bind. rewrite Hclear.
  split; [reflexivity | ]. split; [reflexivity | ].
  split; [assumption | ]. split; [assumption | ].
  intros i Hi. destruct (Nat.eq_dec i field) as [-> | Hne].
  - rewrite Hfld. reflexivity.
  - rewrite Hother by assumption. destruct (heap d i); reflexivity.
Qed.

End FieldValidator.

(** ** Notifications *)

Section DetachAll.

Lemma forEach_remove (l : list nat) (d : document) :
  forEach l (fun msg => remove msg) d = Ok tt (with_body (detachAll l (body d)) d).
Proof.
  revert d. induction l as [ | i l IH]; intros d.
  - destruct d; reflexivity.
  - simpl. unfold bind, remove at 1, modify. rewrite IH. reflexivity.
Qed.

Lemma detach_absent (e : nat) (t : tree) :
  ~ In e (descendants t) -> detach e t = t.
Proof.
  induction t as [j cs IH] using tree_ind. rewrite Forall_forall in IH.
  intros H. simpl. f_equal. rewrite mapFilter_spec.
  assert (Hcs : forall c, In c cs -> ~ In e (ids c)).
  { intros c Hc Hin. apply H. apply in_descendants. exists c. auto. }
  clear H. induction cs as [ | c cs IHcs]; simpl; [reflexivity | ].
  destruct (Nat.eqb_spec (id c) e) as [E | Hne]; simpl.
  - exfalso. apply (Hcs c (or_introl eq_refl)). rewrite <- E. apply id_in_ids.
  - f_equal.
    + apply IH; [left; reflexivity | ]. intros Hin.
      apply (Hcs c (or_introl eq_refl)). apply descendants_ids. assumption.
    + apply IHcs.
      * intros x Hx. apply IH. right. assumption.
      * intros x Hx. apply Hcs. right. assumption.
Qed.

Lemma id_detachAll (l : list nat) (t : tree) : id (detachAll l t) = id t.
Proof.
  revert t. induction l as [ | i l IH]; intros t; simpl; [reflexivity | ].
  unfold detachAll in IH. rewrite IH. apply id_detach.
Qed.

Lemma NoDup_detachAll (l : list nat) (t : tree) :
  NoDup (ids t) -> NoDup (ids (detachAll l t)).
Proof.
  revert t. induction l as [ | i l IH]; intros t H; simpl; [assumption | ].
  apply IH. apply NoDup_detach. assumption.
Qed.

Lemma descendants_detachAll (l : list nat) (t : tree) (x : nat) :
  In x (descendants (detachAll l t)) -> In x (descendants t) /\ ~ In x l.
Proof.
  revert t. induction l as [ | i l IH]; intros t H; simpl in *; [auto | ].
  apply IH in H as [H Hl]. apply descendants_detach in H as [H Hi].
  split; [assumption | ]. intros [E | Hin]; [congruence | contradiction].
Qed.

Lemma ids_detachAll (l : list nat) (t : tree) (x : nat) :
  In x (ids (detachAll l t)) -> In x (ids t).
Proof.
  rewrite !ids_descendants, id_detachAll. intros [H | H]; [left; assumption | right].
  apply descendants_detachAll in H. tauto.
Qed.

(** A child of the root stays until it is removed itself. *)
Lemma child_detach (e x : nat) (t : tree) :
  In x (map id (childNodes t)) -> x <> e ->
  In x (map id (childNodes (detach e t))).
Proof.
  intros H Hne. apply in_map_iff in H as (c & <- & Hc).
  apply in_map_iff. exists (detach e c). split; [apply id_detach | ].
  apply in_childNodes_detach. exists c. auto.
Qed.

Lemma child_detachAll (l : list nat) (x : nat) (t : tree) :
  In x (map id (childNodes t)) -> ~ In x l ->
  In x (map id (childNodes (detachAll l t))).
Proof.
  revert t. induction l as [ | i l IH]; intros t H Hl; simpl; [assumption | ].
  apply IH.
  - apply child_detach; [assumption | ]. intros ->. apply Hl. left. reflexivity.
  - intros Hin. apply Hl. right. assumption.
Qed.

Lemma child_descendant (x : nat) (t : tree) :
  In x (map id (childNodes t)) -> In x (descendants t).
Proof.
  intros H. apply in_map_iff in H as (c & <- & Hc).
  apply in_descendants. exists c. split; [assumption | apply id_in_ids].
Qed.

End DetachAll.

Section Queue.

Lemma in_enqueue (t x : timer) (q : list timer) :
  In x (enqueue t q) <-> x = t \/ In x q.
Proof.
  induction q as [ | u q IH]; simpl.
  - intuition congruence.
  - destruct (due u <=? due t)%N; simpl; rewrite ?IH; intuition congruence.
Qed.

Lemma NoDup_singleton (l : list nat) (a : nat) :
  NoDup l -> In a l -> (forall x, In x l -> x = a) -> l = [a].
Proof.
  intros Hnd Ha Hall. destruct l as [ | x l]; [contradiction | ].
  assert (x = a) by (apply Hall; left; reflexivity). subst x.
  destruct l as [ | y l]; [reflexivity | ].
  assert (y = a) by (apply Hall; right; left; reflexivity). subst y.
  inversion Hnd as [ | ? ? Hx _]. exfalso. apply Hx. left. reflexivity.
Qed.

Lemma tokens_securityMessage (type : string) :
  existsb (String.eqb "security-message")
    (JSString.tokens ("security-message security-" ++ type)) = true.
Proof.
  unfold JSString.tokens. simpl. reflexivity.
Qed.

End Queue.

Section Steps.

Lemma subtree_here (j : nat) (cs : list tree) :
  subtree j (T j cs) = Some (T j cs).
Proof. simpl. rewrite Nat.eqb_refl. reflexivity. Qed.

Lemma createElement_then (A : Type) (tag : string) (k : nat -> M A) (d : document) :
  bind (createElement tag) k d =
  k (nextId d)
    (with_nextId (S (nextId d))
       (with_heap (upd (heap d) (nextId d) (blank tag)) d)).
Proof. reflexivity. Qed.

(** An assignment to a property of an element whose state is known. *)
Lemma set_known (A : Type) (i : nat) (f : element -> element) (e : element)
    (k : unit -> M A) (d : document) :
  heap d i = e ->
  bind (set i f) k d = k tt (with_heap (upd (heap d) i (f e)) d).
Proof. intros <-. reflexivity. Qed.

End Steps.

Section NotificationCenter.

Variables (d : document) (message : string) (type : option string).
Hypothesis Hwf : wellFormed d.

Let sm := ByClass "security-message".
Let n := nextId d.
Let kind := match type with Some t => t | None => "info" end.

Lemma showSecurityMessage_eq :
  exists h2,
    showSecurityMessage message type d =
    Ok tt {| body := attach (id (body d)) n (detachAll (notifications d) (body d));
             heap := h2; nextId := S n; listeners := listeners d;
             timers := enqueue {| due := (clock d + 5000)%N; run := RemoveMessage n |}
                         (timers d);
             clock := clock d |} /\
    classList (h2 n) = JSString.tokens ("security-message security-" ++ kind) /\
    textContent (h2 n) = message /\
    (forall i, i <> n -> h2 i = heap d i).
Proof.
  unfold showSecurityMessage, bind at 1, documentQuerySelectorAll, gets.
  unfold bind at 1. rewrite forEach_remove.
  rewrite createElement_then. cbn [nextId with_body].
  fold n kind. unfold setClassName.
  erewrite set_known by (cbn [heap with_heap with_nextId]; apply upd_same).
  repeat (erewrite set_known by (cbn [heap with_heap with_nextId]; apply upd_same)).
  unfold documentBody, appendChild, setTimeout, modify, gets, bind.
  cbn [heap body nextId listeners timers clock
       with_timers with_body with_heap with_nextId].
  rewrite id_detachAll.
  eexists. split; [reflexivity | ].
  cbn [heap body nextId listeners timers clock
       with_timers with_body with_heap with_nextId].
  split; [ | split].
  - rewrite upd_same. reflexivity.
  - rewrite upd_same. reflexivity.
  - intros i Hi. repeat rewrite (upd_other _ _ _ _ Hi). reflexivity.
Qed.

Lemma showSecurityMessage_spec :
  exists d',
    showSecurityMessage message type d = Ok tt d' /\
    wellFormed d' /\ nextId d' = S n /\
    notifications d' = [n] /\
    textContent (heap d' n) = message /\
    classList (heap d' n) = JSString.tokens ("security-message security-" ++ kind) /\
    (forall i, i <> n -> heap d' i = heap d i) /\
    timers d' = enqueue {| due := (clock d + 5000)%N; run := RemoveMessage n |}
                  (timers d) /\
    clock d' = clock d /\ listeners d' = listeners d /\
    In n (map id (childNodes (body d'))) /\
    body d' = attach (id (body d)) n (detachAll (notifications d) (body d)).
Proof.
  destruct Hwf as (Hnd & Hlt & Htm).
  destruct showSecurityMessage_eq as (h2 & Heq & Hcls & Htxt & Hother).
  eexists. split; [exact Heq | ].
  cbn [body heap nextId listeners timers clock].
  set (t1 := detachAll (notifications d) (body d)).
  assert (Hnd1 : NoDup (ids t1)) by (apply NoDup_detachAll; assumption).
  assert (Hfresh : ~ In n (ids t1)).
  { intros H. apply ids_detachAll, Hlt in H. unfold n in H. lia. }
  assert (Hid : id t1 = id (body d)) by apply id_detachAll.
  assert (Hatt : attach (id (body d)) n t1 =
                 T (id (body d)) (childNodes t1 ++ [T n []])).
  { rewrite <- Hid. destruct t1 as [j cs]. apply attach_here. assumption. }
  split.
  { split; [ | split]; cbn [body nextId timers].
    - apply NoDup_attach; assumption.
    - intros i Hi. apply ids_attach in Hi as [Hi | [-> _]]; [ | lia].
      apply ids_detachAll, Hlt in Hi. unfold n. lia.
    - intros t Ht. apply in_enqueue in Ht as [-> | Ht]; simpl; [lia | ].
      apply Htm in Ht. unfold n. lia. }
  split; [reflexivity | ].
  split.
  { unfold notifications, select. cbn [body heap].
    rewrite Hatt. cbn [id]. rewrite subtree_here.
    unfold descendants. cbn [childNodes]. rewrite flat_map_app, filter_app.
    replace (filter _ (flat_map ids (childNodes t1))) with (@nil nat).
    - simpl. rewrite Hcls. fold (JSString.tokens ("security-message security-" ++ kind)).
      rewrite tokens_securityMessage. reflexivity.
    - symmetry. apply filter_nil_iff. intros x Hx.
      change (In x (descendants t1)) in Hx.
      assert (Hxn : x <> n).
      { intros ->. apply Hfresh. apply descendants_ids. assumption. }
      apply descendants_detachAll in Hx as [Hx Hnot].
      rewrite Hother by assumption.
      destruct (matches (ByClass "security-message") (heap d x)) eqn:Em;
        [exfalso | reflexivity].
      apply Hnot. unfold notifications, select.
      rewrite (subtree_root (body d)). apply filter_In. auto. }
  split; [assumption | ]. split; [assumption | ]. split; [assumption | ].
  split; [reflexivity | ]. split; [reflexivity | ]. split; [reflexivity | ].
  split; [ | reflexivity].
  rewrite Hatt. cbn [childNodes]. rewrite map_app. apply in_or_app.
  right. left. reflexivity.
Qed.

End NotificationCenter.

Section Timers.

Lemma with_body_same (d : document) : with_body (body d) d = d.
Proof. destruct d; reflexivity. Qed.

Lemma runTask_eq (t : task) (d : document) :
  runTask t d = Ok tt (with_body (detach (taskElement t) (body d)) d).
Proof.
  destruct t as [i]. unfold runTask, bind, parentNode, gets. simpl.
  destruct (parentOf i (body d)) eqn:E; [reflexivity | ].
  apply parentOf_None in E. rewrite detach_absent by assumption.
  rewrite with_body_same. reflexivity.
Qed.

(** A removal whose notification is gone changes nothing. *)
Lemma runTask_stale (i : nat) (d : document) :
  ~ In i (descendants (body d)) -> runTask (RemoveMessage i) d = Ok tt d.
Proof.
  intros H. apply parentOf_None in H.
  unfold runTask, bind, parentNode, gets. rewrite H. reflexivity.
Qed.

Lemma forEach_runTask (ts : list timer) (d : document) :
  forEach ts (fun t => runTask (run t)) d =
  Ok tt (with_body
           (detachAll (map (fun t => taskElement (run t)) ts) (body d)) d).
Proof.
  revert d. induction ts as [ | t ts IH]; intros d.
  - simpl. rewrite with_body_same. reflexivity.
  - simpl. unfold bind. rewrite runTask_eq, IH. reflexivity.
Qed.

Lemma advance_eq (dt : N) (d : document) :
  advance dt d =
  Ok tt {| body := detachAll (dueElements (clock d + dt) d) (body d);
           heap := heap d; nextId := nextId d; listeners := listeners d;
           timers := filter (fun t => negb (isDue (clock d + dt) t)) (timers d);
           clock := (clock d + dt)%N |}.
Proof.
  unfold advance, bind, gets, modify. rewrite forEach_runTask. reflexivity.
Qed.

Lemma advance_wellFormed (dt : N) (d d' : document) :
  wellFormed d -> advance dt d = Ok tt d' -> wellFormed d'.
Proof.
  intros (Hnd & Hlt & Htm). rewrite advance_eq. intros [= <-].
  split; [ | split]; cbn [body nextId timers].
  - apply NoDup_detachAll. assumption.
  - intros i Hi. apply Hlt. eapply ids_detachAll. eassumption.
  - intros t Ht. apply filter_In in Ht as [Ht _]. auto.
Qed.

(** Time only takes notifications away. *)
Lemma notifications_advance (dt : N) (d d' : document) (x : nat) :
  advance dt d = Ok tt d' ->
  In x (notifications d') ->
  In x (notifications d) /\ ~ In x (dueElements (clock d + dt) d).
Proof.
  rewrite advance_eq. intros [= <-]. unfold notifications, select.
  cbn [body heap]. rewrite id_detachAll, !subtree_root.
  rewrite <- (id_detachAll (dueElements (clock d + dt) d) (body d)) at 1.
  rewrite subtree_root.
  rewrite !filter_In. intros [Hx Hm].
  apply descendants_detachAll in Hx. tauto.
Qed.

Lemma NoDup_notifications (d : document) :
  wellFormed d -> NoDup (notifications d).
Proof.
  intros (Hnd & _). unfold notifications, select. rewrite subtree_root.
  apply NoDup_filter, NoDup_descendants. assumption.
Qed.

Lemma notifications_below (d : document) (x : nat) :
  In x (notifications d) <->
  In x (descendants (body d)) /\ matches (ByClass "security-message") (heap d x) = true.
Proof.
  unfold notifications, select. rewrite subtree_root. apply filter_In.
Qed.

End Timers.


(** ** File uploads *)

Section FileUploadValidator.

Variables (input p : nat) (d : document).
Hypothesis Hwf : wellFormed d.
Hypothesis Hparent : parentOf input (body d) = Some p.
Hypothesis Hplain : plainField input d.
Hypothesis Hfile : type (heap d input) = "file".

Lemma validateFileUpload_cases :
  validateFileUpload input d =
  match hd_error (files (heap d input)) with
  | None => Ok true d
  | Some file =>
      if negb (includes allowedTypes (File.type file)) then
        (showFieldError input typeMessage ;;
         set input (with_value "") ;; ret false) d
      else if (maxSize <? File.size file)%N then
        (showFieldError input sizeMessage ;;
         set input (with_value "") ;; ret false) d
      else
        (clearFieldError input ;;
         showSecurityMessage "File looks good!" (Some "success") ;;
         ret true) d
  end.
Proof.
  unfold validateFileUpload, inputFiles, bind at 1, bind at 1, get, gets, nonNull.
  rewrite Hfile. rewrite String.eqb_refl. unfold ret at 1.
  destruct (hd_error (files (heap d input))) as [file | ]; [ | reflexivity].
  destruct (includes allowedTypes (File.type file)); [ | reflexivity].
  destruct (maxSize <? File.size file)%N; reflexivity.
Qed.

Lemma includes_In (l : list string) (s : string) :
  includes l s = true <-> In s l.
Proof.
  unfold includes. rewrite existsb_exists. split.
  - intros (x & Hx & E). apply String.eqb_eq in E. congruence.
  - intros H. exists s. split; [assumption | apply String.eqb_refl].
Qed.

(** What a rejection leaves behind. *)
Lemma reject_spec (message : string) :
  exists d',
    (showFieldError input message ;; set input (with_value "") ;; ret false) d
      = Ok false d' /\
    (exists rest, annotations input d' = rest ++ [message]) /\
    marked input d' = true /\
    value (heap d' input) = "" /\ files (heap d' input) = [] /\
    (forall i, i < nextId d -> i <> input -> heap d' i = heap d i).
Proof.
  destruct (showFieldError_spec input p d message Hwf Hparent Hplain)
    as (d1 & d2 & _ & Hshow & _ & _ & Hp2 & _ & Hmark & Hann & _ & Hother & Hfld & _).
  eexists. split.
  { unfold bind. rewrite Hshow. reflexivity. }
  split.
  { exists (annotations input d1). rewrite <- Hann.
    unfold annotations, texts, select. cbn [body heap with_heap].
    destruct (parentOf input (body d2)) as [q | ]; [ | reflexivity].
    destruct (subtree q (body d2)); [ | reflexivity].
    apply map_filter_ext. intros x _.
    destruct (Nat.eq_dec x input) as [-> | Hne].
    - rewrite upd_same. split; reflexivity.
    - rewrite upd_other by assumption. split; reflexivity. }
  split.
  { unfold marked in *. cbn [heap with_heap]. rewrite upd_same. exact Hmark. }
  cbn [heap with_heap]. rewrite upd_same.
  split; [reflexivity | ]. split.
  { simpl. rewrite Hfld. simpl. rewrite Hfile. reflexivity. }
  intros i Hi Hne. rewrite upd_other by assumption.
  apply Hother; [assumption | lia].
Qed.

Lemma accept_spec :
  exists d',
    (clearFieldError input ;;
     showSecurityMessage "File looks good!" (Some "success") ;; ret true) d
      = Ok true d' /\
    marked input d' = false /\
    texts (ByClass "security-message") (id (body d')) d' = ["File looks good!"] /\
    nextId d' = S (nextId d).
Proof.
  destruct (clearFieldError_spec input p d Hwf Hparent Hplain)
    as (d1 & Hclear & Hwf1 & Hn1 & Hp1 & _ & Hmark & _).
  destruct (showSecurityMessage_spec d1 "File looks good!" (Some "success") Hwf1)
    as (d2 & Hs & _ & Hn2 & Hvis & Htxt & _ & Hoth & _).
  exists d2. split.
  { unfold bind. rewrite Hclear, Hs. reflexivity. }
  assert (Hin : input < nextId d1).
  { destruct Hwf1 as (_ & Hlt & _). apply Hlt, descendants_ids.
    eapply parentOf_below. eassumption. }
  split.
  { unfold marked in *. rewrite Hoth by lia. exact Hmark. }
  split; [ | congruence].
  unfold texts. fold (notifications d2). rewrite Hvis. simpl.
  rewrite Htxt. reflexivity.
Qed.

End FileUploadValidator.

(** ** The token of a form *)

Section TokenInjection.

Variable self : instance.

Let csrf := ByName "csrf_token".

Lemma forEach_listen (inputs : list nat) (d : document) :
  exists ls,
    forEach inputs (fun input =>
      addEventListener input "blur" (OnBlur input) ;;
      addEventListener input "input" (OnInput input)) d =
    Ok tt (with_listeners ls d).
Proof.
  set (f := fun input : nat =>
              addEventListener input "blur" (OnBlur input) ;;
              addEventListener input "input" (OnInput input)).
  revert d. induction inputs as [ | i inputs IH]; intros d.
  - exists (listeners d). destruct d; reflexivity.
  - simpl. unfold bind at 1. unfold f at 1.
    unfold bind at 1, addEventListener, modify.
    match goal with |- context [forEach inputs f ?d1] =>
      destruct (IH d1) as (ls & Hls) end.
    exists ls. rewrite Hls. reflexivity.
Qed.

(** Wiring the handlers touches the listeners only. *)
Lemma wire_spec (form : nat) (d : document) :
  exists ls,
    (addEventListener form "submit" (OnSubmit form) ;;
     inputs <- querySelectorAll (Or (ByTag "input") (ByTag "textarea")) form ;;
     forEach inputs (fun input =>
       addEventListener input "blur" (OnBlur input) ;;
       addEventListener input "input" (OnInput input))) d =
    Ok tt (with_listeners ls d).
Proof.
  set (f := fun input : nat =>
              addEventListener input "blur" (OnBlur input) ;;
              addEventListener input "input" (OnInput input)).
  unfold bind at 1, addEventListener at 1, modify.
  unfold bind at 1, querySelectorAll, gets.
  match goal with |- context [forEach ?l f ?d1] =>
    destruct (forEach_listen l d1) as (ls & Hls) end.
  fold f in Hls. exists ls. rewrite Hls. reflexivity.
Qed.

Lemma enhanceForm_present (form : nat) (d : document) (x : nat) (rest : list nat) :
  select csrf form d = x :: rest ->
  exists d',
    enhanceForm self form d = Ok tt d' /\
    body d' = body d /\ heap d' = heap d /\ nextId d' = nextId d /\
    select csrf form d' = select csrf form d.
Proof.
  intros Hsome.
  unfold enhanceForm, bind at 1, querySelector, gets.
  fold csrf. rewrite Hsome. cbn [hd_error].
  unfold bind at 1, ret at 1.
  destruct (wire_spec form d) as (ls & Hls).
  rewrite Hls. eexists. split; [reflexivity | ].
  repeat split; try reflexivity. exact Hsome.
Qed.

Variables (form : nat) (s : tree) (d : document).
Hypothesis Hwf : wellFormed d.
Hypothesis Hform : subtree form (body d) = Some s.

Lemma enhanceForm_absent :
  select csrf form d = [] ->
  exists d',
    enhanceForm self form d = Ok tt d' /\
    select csrf form d' = [nextId d] /\
    tokenField (csrfToken self) (heap d' (nextId d)) /\
    wellFormed d' /\
    body d' = attach form (nextId d) (body d) /\
    (forall i, i <> nextId d -> heap d' i = heap d i).
Proof.
  intros Hnone. destruct Hwf as (Hnd & Hlt & Htm).
  unfold enhanceForm, bind at 1, querySelector, gets.
  fold csrf. rewrite Hnone. cbn [hd_error].
  unfold bind at 1. rewrite createElement_then.
  erewrite set_known by (cbn [heap with_heap with_nextId]; apply upd_same).
  erewrite set_known by (cbn [heap with_heap with_nextId]; apply upd_same).
  erewrite set_known by (cbn [heap with_heap with_nextId]; apply upd_same).
  unfold appendChild, modify.
  match goal with |- context [bind (addEventListener ?f ?t ?h) ?k ?d1] =>
    destruct (wire_spec form d1) as (ls & Hls) end.
  rewrite Hls. eexists. split; [reflexivity | ].
  cbn [body heap nextId listeners timers clock
       with_listeners with_body with_heap with_nextId].
  assert (Hfresh : ~ In (nextId d) (ids (body d))).
  { intros H. apply Hlt in H. lia. }
  split.
  { unfold select. cbn [body heap with_listeners with_body with_heap with_nextId].
    rewrite (subtree_attach _ _ _ _ _ Hnd Hfresh Hform).
    rewrite descendants_attach_here;
      [ | eapply subtree_NoDup; eassumption | eapply subtree_id; eassumption].
    rewrite filter_app.
    replace (filter _ (descendants s)) with (@nil nat).
    - simpl. rewrite !upd_same. reflexivity.
    - symmetry. apply filter_nil_iff. intros x Hx.
      assert (Hxn : x <> nextId d).
      { intros ->. apply Hfresh, descendants_ids.
        eapply subtree_descendants; eassumption. }
      rewrite !(upd_other _ _ _ _ Hxn).
      unfold select in Hnone. rewrite Hform in Hnone.
      rewrite filter_nil_iff in Hnone. apply Hnone. assumption. }
  split.
  { rewrite !upd_same. repeat split. }
  split.
  { split; [ | split]; cbn [body nextId timers with_listeners with_body
                              with_heap with_nextId].
    - apply NoDup_attach; assumption.
    - intros i Hi. apply ids_attach in Hi as [Hi | [-> _]]; [ | lia].
      apply Hlt in Hi. lia.
    - intros t Ht. apply Htm in Ht. lia. }
  split; [reflexivity | ].
  intros i Hi. rewrite !(upd_other _ _ _ _ Hi). reflexivity.
Qed.

End TokenInjection.


(* ================================================================== *)
(** * The claims *)

(** ** FieldValidator *)

Lemma emailRule_iff (ty v : string) :
  String.eqb ty "email" && JSString.truthy v
    && negb (RegExp.test emailRegex v) = true <->
  ty = "email" /\ v <> "" /\ ~ matchesEmailPattern v.
Proof.
  rewrite !andb_true_iff, String.eqb_eq, truthy_true, negb_true_iff.
  rewrite <- emailRegex_spec.
  split.
  - intros [[H1 H2] H3]. rewrite H3. repeat split; auto; discriminate.
  - intros (H1 & H2 & H3). repeat split; auto.
    destruct (RegExp.test emailRegex v); [exfalso; apply H3 | ]; reflexivity.
Qed.

Lemma requiredRule_iff (req : bool) (v : string) :
  req && negb (JSString.truthy v) = true <-> req = true /\ v = "".
Proof.
  rewrite andb_true_iff, negb_true_iff.
  destruct v; simpl; split; intros [H1 H2]; split; auto; try discriminate; congruence.
Qed.

Lemma matchesEmailPattern_nonempty (s : string) :
  matchesEmailPattern s -> s <> "".
Proof.
  intros (a & b & c & E & _) ->. simpl in E. destruct a; discriminate E.
Qed.

(** C3: [validateField] applies its rules in order.  An email field whose
    trimmed value is non-empty and does not match the email pattern is
    rejected with "Please enter a valid email address"; otherwise a
    required field whose trimmed value is empty is rejected with
    "This field is required"; otherwise the field is accepted, its error
    state is cleared and no message is shown. *)
Theorem validateField_rules (field p : nat) (d : document) :
  wellFormed d -> parentOf field (body d) = Some p -> plainField field d ->
  (type (heap d field) = "email" /\
   JSString.trim (value (heap d field)) <> "" /\
   ~ matchesEmailPattern (JSString.trim (value (heap d field))) ->
   exists d',
     validateField field d = Ok false d' /\
     showFieldError field "Please enter a valid email address" d = Ok tt d' /\
     marked field d' = true /\
     exists rest,
       annotations field d' = rest ++ ["Please enter a valid email address"]) /\
  (~ (type (heap d field) = "email" /\
      JSString.trim (value (heap d field)) <> "" /\
      ~ matchesEmailPattern (JSString.trim (value (heap d field)))) ->
   required (heap d field) = true /\ JSString.trim (value (heap d field)) = "" ->
   exists d',
     validateField field d = Ok false d' /\
     showFieldError field "This field is required" d = Ok tt d' /\
     marked field d' = true /\
     exists rest, annotations field d' = rest ++ ["This field is required"]) /\
  (~ (type (heap d field) = "email" /\
      JSString.trim (value (heap d field)) <> "" /\
      ~ matchesEmailPattern (JSString.trim (value (heap d field)))) ->
   ~ (required (heap d field) = true /\ JSString.trim (value (heap d field)) = "") ->
   exists d',
     validateField field d = Ok true d' /\
     clearFieldError field d = Ok tt d' /\
     marked field d' = false).
Proof.
  intros Hwf Hparent Hplain.
  rewrite <- emailRule_iff, <- requiredRule_iff.
  rewrite (validateField_cases field d).
  destruct (String.eqb (type (heap d field)) "email"
            && JSString.truthy (JSString.trim (value (heap d field)))
            && negb (RegExp.test emailRegex (JSString.trim (value (heap d field))))).
  - split; [ | split; intros H; exfalso; apply H; reflexivity].
    intros _.
    destruct (showFieldError_ret field p d Hwf Hparent Hplain
                "Please enter a valid email address")
      as (d' & H1 & H2 & _ & H3 & H4 & _).
    exists d'. auto.
  - split; [discriminate | ].
    destruct (required (heap d field)
              && negb (JSString.truthy (JSString.trim (value (heap d field))))).
    + split; [ | intros _ H; exfalso; apply H; reflexivity].
      intros _ _.
      destruct (showFieldError_ret field p d Hwf Hparent Hplain
                  "This field is required")
        as (d' & H1 & H2 & _ & H3 & H4 & _).
      exists d'. auto.
    + split; [intros _ H; discriminate | ].
      intros _ _.
      destruct (clearFieldError_ret field p d Hwf Hparent Hplain)
        as (d' & H1 & H2 & _ & H3 & _).
      exists d'. auto.
Qed.

(** C4, amended: an email field is accepted iff its trimmed value matches
    the email pattern, or is empty while the field is not required.  A
    value of white space only is accepted, and the field unmarked, when
    the field is not required; on a required field it is rejected with
    "This field is required".  A value that is not empty and does not
    match the pattern is rejected with "Please enter a valid email
    address". *)
Theorem validateField_email (field p : nat) (d : document) :
  wellFormed d -> parentOf field (body d) = Some p -> plainField field d ->
  type (heap d field) = "email" ->
  exists b d',
    validateField field d = Ok b d' /\
    (b = true <->
     matchesEmailPattern (JSString.trim (value (heap d field))) \/
     (JSString.trim (value (heap d field)) = "" /\
      required (heap d field) = false)) /\
    (JSString.trim (value (heap d field)) = "" ->
     required (heap d field) = true ->
     b = false /\ marked field d' = true /\
     exists rest, annotations field d' = rest ++ ["This field is required"]) /\
    (JSString.trim (value (heap d field)) = "" ->
     required (heap d field) = false ->
     b = true /\ marked field d' = false) /\
    (JSString.trim (value (heap d field)) <> "" ->
     ~ matchesEmailPattern (JSString.trim (value (heap d field))) ->
     b = false /\ marked field d' = true /\
     exists rest,
       annotations field d' = rest ++ ["Please enter a valid email address"]).
Proof.
  intros Hwf Hparent Hplain Hemail. rewrite (validateField_cases field d).
  set (f := heap d field) in *. set (v := JSString.trim (value f)).
  rewrite Hemail, String.eqb_refl. cbn [andb].
  destruct (JSString.truthy v) eqn:Etr; cbn [andb negb].
  - apply truthy_true in Etr.
    destruct (RegExp.test emailRegex v) eqn:Ete; cbn [negb].
    + apply emailRegex_spec in Ete. rewrite andb_false_r.
      destruct (clearFieldError_ret field p d Hwf Hparent Hplain)
        as (d' & H & _).
      exists true, d'. split; [exact H | ]. split; [tauto | ].
      split; [intros Hv; contradiction | ].
      split; [intros Hv; contradiction | ].
      intros _ Hno. contradiction.
    + destruct (showFieldError_ret field p d Hwf Hparent Hplain
                  "Please enter a valid email address")
        as (d' & H & _ & _ & Hmark & Hann & _).
      exists false, d'. split; [exact H | ].
      split.
      { split; [discriminate | ].
        intros [Hm | [Hv _]]; [ | contradiction].
        apply emailRegex_spec in Hm. congruence. }
      split; [intros Hv; contradiction | ].
      split; [intros Hv; contradiction | ].
      intros _ _. auto.
  - assert (Hv : v = "").
    { destruct v; [reflexivity | discriminate Etr]. }
    rewrite andb_true_r.
    destruct (required f) eqn:Er.
    + destruct (showFieldError_ret field p d Hwf Hparent Hplain
                  "This field is required")
        as (d' & H & _ & _ & Hmark & Hann & _).
      exists false, d'. split; [exact H | ].
      split.
      { split; [discriminate | ].
        intros [Hm | [_ Hr]]; [ | discriminate Hr].
        exfalso. apply (matchesEmailPattern_nonempty _ Hm). exact Hv. }
      split; [intros _ _; auto | ].
      split; [intros _ Hr; discriminate Hr | ].
      intros Hne. contradiction.
    + destruct (clearFieldError_ret field p d Hwf Hparent Hplain)
        as (d' & H & _ & _ & Hmark & _).
      exists true, d'. split; [exact H | ]. split; [tauto | ].
      split; [intros _ Hr; discriminate Hr | ].
      split; [intros _ _; auto | ].
      intros Hne. contradiction.
Qed.


(** ** FieldErrorState *)

(** What two calls of [showFieldError] in a row do guarantee: the field
    is marked, the second message is the last annotation below the parent
    of the field, and there are no more annotations below it than before
    (one, if there was none).  Only when at most one annotation lies below
    the parent, of whatever field it is, does each call leave exactly one,
    the message just shown. *)
Theorem showFieldError_twice (field p : nat) (d : document) (first second : string) :
  wellFormed d -> parentOf field (body d) = Some p -> plainField field d ->
  exists d1 d2,
    showFieldError field first d = Ok tt d1 /\
    showFieldError field second d1 = Ok tt d2 /\
    marked field d1 = true /\ marked field d2 = true /\
    (exists rest, annotations field d2 = rest ++ [second]) /\
    List.length (annotations field d2)
      <= Nat.max 1 (List.length (annotations field d)) /\
    (List.length (annotations field d) <= 1 ->
     annotations field d1 = [first] /\ annotations field d2 = [second]).
Proof.
  intros Hwf Hparent Hplain.
  destruct (showFieldError_spec field p d first Hwf Hparent Hplain)
    as (_ & d1 & _ & Hshow1 & Hwf1 & _ & Hp1 & Hplain1 & Hm1 & _ & Hone1 &
        _ & _ & _ & _ & _ & _ & Hlen1).
  destruct (showFieldError_spec field p d1 second Hwf1 Hp1 Hplain1)
    as (c2 & d2 & _ & Hshow2 & _ & _ & _ & _ & Hm2 & Hann2 & Hone2 &
        _ & _ & _ & _ & _ & _ & Hlen2).
  exists d1, d2.
  split; [exact Hshow1 | ]. split; [exact Hshow2 | ].
  split; [exact Hm1 | ]. split; [exact Hm2 | ].
  split; [exists (annotations field c2); exact Hann2 | ].
  split; [lia | ].
  intros Hlen. specialize (Hone1 Hlen). split; [exact Hone1 | ].
  apply Hone2. rewrite Hone1. simpl. lia.
Qed.

(** C7 fails in the code, on [threeFieldPage].  The two fields that have
    a [div] of their own are validated and rejected; each has its
    annotation.  Then [showFieldError] is called twice in a row on the
    field whose parent is the form.  Each call removes the first
    annotation found below the form, which is the one of another field,
    and appends its own: both messages are left, the first above the
    second, and the two other fields have lost their annotations while
    they stay marked. *)
Theorem showFieldError_stacks :
  exists d0 d1 d2,
    (validateField 4 ;; validateField 6) threeFieldPage = Ok false d0 /\
    annotations 4 d0 = ["This field is required"] /\
    annotations 6 d0 = ["This field is required"] /\
    annotations 2 d0 = ["This field is required"; "This field is required"] /\
    showFieldError 2 "first" d0 = Ok tt d1 /\
    showFieldError 2 "second" d1 = Ok tt d2 /\
    annotations 2 d2 = ["first"; "second"] /\
    annotations 4 d2 = [] /\ annotations 6 d2 = [] /\
    marked 4 d2 = true /\ marked 6 d2 = true.
Proof.
  eexists. eexists. eexists.
  split; [vm_compute; reflexivity | ].
  split; [vm_compute; reflexivity | ].
  split; [vm_compute; reflexivity | ].
  split; [vm_compute; reflexivity | ].
  split; [vm_compute; reflexivity | ].
  split; [vm_compute; reflexivity | ].
  repeat split; vm_compute; reflexivity.
Qed.

(** ** FileUploadValidator *)

(** C2: on a file input, [validateFileUpload] accepts iff no file is
    selected, or the type of the file is one of the five allowed types and
    its size is at most 5,242,880 bytes.  A file of another type is
    rejected with the type message, whatever its size; a file of an
    allowed type that is too large is rejected with the size message.
    The body of the page is not itself a notification ([plainBody]):
    accepting a file ends in [showSecurityMessage]. *)
Theorem validateFileUpload_accepts (input p : nat) (d : document) :
  wellFormed d -> parentOf input (body d) = Some p -> plainField input d ->
  type (heap d input) = "file" -> plainBody d ->
  exists b d',
    validateFileUpload input d = Ok b d' /\
    (b = true <->
     hd_error (files (heap d input)) = None \/
     exists file,
       hd_error (files (heap d input)) = Some file /\
       In (File.type file)
         ["image/jpeg"; "image/png"; "application/pdf"; "application/msword";
          "application/vnd.openxmlformats-officedocument.wordprocessingml.document"] /\
       (File.size file <= 5242880)%N) /\
    (forall file,
       hd_error (files (heap d input)) = Some file ->
       ~ In (File.type file)
           ["image/jpeg"; "image/png"; "application/pdf"; "application/msword";
            "application/vnd.openxmlformats-officedocument.wordprocessingml.document"] ->
       exists rest,
         annotations input d' =
         rest ++ ["Invalid file type. Allowed: JPG, PNG, PDF, DOC (max 5MB)"]) /\
    (forall file,
       hd_error (files (heap d input)) = Some file ->
       In (File.type file)
         ["image/jpeg"; "image/png"; "application/pdf"; "application/msword";
          "application/vnd.openxmlformats-officedocument.wordprocessingml.document"] ->
       (5242880 < File.size file)%N ->
       exists rest,
         annotations input d' = rest ++ ["File too large. Maximum size is 5MB"]).
Proof.
  intros Hwf Hparent Hplain Hfile _.
  rewrite (validateFileUpload_cases input d Hfile).
  change ["image/jpeg"; "image/png"; "application/pdf"; "application/msword";
          "application/vnd.openxmlformats-officedocument.wordprocessingml.document"]
    with allowedTypes.
  change 5242880%N with maxSize.
  destruct (hd_error (files (heap d input))) as [file | ].
  - destruct (includes allowedTypes (File.type file)) eqn:Ety; simpl negb; cbv iota.
    + apply includes_In in Ety.
      destruct (N.ltb_spec maxSize (File.size file)) as [Hsz | Hsz].
      * destruct (reject_spec input p d Hwf Hparent Hplain Hfile sizeMessage) as (d' & Hr & Hann & _).
        exists false, d'. split; [exact Hr | ]. split; [ | split].
        -- split; [discriminate | ].
           intros [H | (f & [= <-] & _ & H)]; [discriminate | lia].
        -- intros f [= <-] H. contradiction.
        -- intros f [= <-] _ _. exact Hann.
      * destruct (accept_spec input p d Hwf Hparent Hplain) as (d' & Ha & _).
        exists true, d'. split; [exact Ha | ]. split; [ | split].
        -- split; [ | reflexivity]. intros _. right. exists file. auto.
        -- intros f [= <-] H. contradiction.
        -- intros f [= <-] _ H. lia.
    + assert (Hnot : ~ In (File.type file) allowedTypes).
      { rewrite <- includes_In. congruence. }
      destruct (reject_spec input p d Hwf Hparent Hplain Hfile typeMessage) as (d' & Hr & Hann & _).
      exists false, d'. split; [exact Hr | ]. split; [ | split].
      * split; [discriminate | ].
        intros [H | (f & [= <-] & H & _)]; [discriminate | contradiction].
      * intros f [= <-] _. exact Hann.
      * intros f [= <-] H. contradiction.
  - exists true, d. split; [reflexivity | ]. split; [ | split].
    + split; auto.
    + intros f H. discriminate.
    + intros f H. discriminate.
Qed.

(** C9: when [validateFileUpload] rejects the selected file, for its type
    or for its size, the value of the input is the empty string and its
    selection is empty afterwards; the files held by the other inputs are
    the same as before. *)
Theorem validateFileUpload_clears (input p : nat) (d : document) (file : File.File) :
  wellFormed d -> parentOf input (body d) = Some p -> plainField input d ->
  type (heap d input) = "file" ->
  hd_error (files (heap d input)) = Some file ->
  ~ In (File.type file) allowedTypes \/ (maxSize < File.size file)%N ->
  exists d',
    validateFileUpload input d = Ok false d' /\
    value (heap d' input) = "" /\
    files (heap d' input) = [] /\
    (forall i, i < nextId d -> i <> input -> files (heap d' i) = files (heap d i)).
Proof.
  intros Hwf Hparent Hplain Hfile Hsel Hbad.
  rewrite (validateFileUpload_cases input d Hfile), Hsel.
  assert (Hframe : forall message,
    exists d',
      (showFieldError input message ;; set input (with_value "") ;; ret false) d
        = Ok false d' /\
      value (heap d' input) = "" /\ files (heap d' input) = [] /\
      (forall i, i < nextId d -> i <> input -> files (heap d' i) = files (heap d i))).
  { intros message.
    destruct (reject_spec input p d Hwf Hparent Hplain Hfile message) as (d' & Hr & _ & _ & Hv & Hf & Hother).
    exists d'. repeat split; try assumption.
    intros i Hi Hne. rewrite Hother by assumption. reflexivity. }
  destruct (includes allowedTypes (File.type file)) eqn:Ety; simpl negb; cbv iota.
  - destruct (N.ltb_spec maxSize (File.size file)) as [Hsz | Hsz].
    + apply Hframe.
    + exfalso. apply includes_In in Ety. destruct Hbad as [H | H]; [contradiction | lia].
  - apply Hframe.
Qed.

(** C10: with no file selected [validateFileUpload] answers [true] and
    leaves the document exactly as it was: no annotation is cleared and no
    notification is shown.  Accepting a file that is present does change
    it: the mark of the input is cleared and, the body of the page not
    being itself a notification ([plainBody]), the notification
    "File looks good!" is on screen. *)
Theorem validateFileUpload_no_file (input p : nat) (d : document) :
  wellFormed d -> parentOf input (body d) = Some p -> plainField input d ->
  type (heap d input) = "file" ->
  (hd_error (files (heap d input)) = None ->
   validateFileUpload input d = Ok true d) /\
  (forall file,
     hd_error (files (heap d input)) = Some file ->
     In (File.type file) allowedTypes -> (File.size file <= maxSize)%N ->
     plainBody d ->
     exists d',
       validateFileUpload input d = Ok true d' /\
       marked input d' = false /\
       texts (ByClass "security-message") (id (body d')) d' = ["File looks good!"] /\
       nextId d' = S (nextId d)).
Proof.
  intros Hwf Hparent Hplain Hfile.
  rewrite (validateFileUpload_cases input d Hfile). split.
  - intros ->. reflexivity.
  - intros file -> Hty Hsz _.
    apply includes_In in Hty. rewrite Hty. simpl negb. cbv iota.
    destruct (N.ltb_spec maxSize (File.size file)) as [H | _]; [lia | ].
    apply (accept_spec input p d Hwf Hparent Hplain).
Qed.

(** ** FormGatekeeper: the token *)

(** C6, amended: processing a form that holds no element named
    [csrf_token] leaves exactly one in it, a hidden input whose value is
    the token of the session; a form that holds one already is left as it
    is; processing the form a second time adds no token field. *)
Theorem enhanceForm_token (self : instance) (form : nat) (s : tree) (d : document) :
  wellFormed d -> subtree form (body d) = Some s ->
  (select (ByName "csrf_token") form d = [] ->
   exists d',
     enhanceForm self form d = Ok tt d' /\
     select (ByName "csrf_token") form d' = [nextId d] /\
     tokenField (csrfToken self) (heap d' (nextId d))) /\
  (select (ByName "csrf_token") form d <> [] ->
   exists d',
     enhanceForm self form d = Ok tt d' /\
     body d' = body d /\ heap d' = heap d) /\
  (exists d1 d2,
     enhanceForm self form d = Ok tt d1 /\
     enhanceForm self form d1 = Ok tt d2 /\
     body d2 = body d1 /\ heap d2 = heap d1 /\
     select (ByName "csrf_token") form d2 = select (ByName "csrf_token") form d1).
Proof.
  intros Hwf Hform. split; [ | split].
  - intros Hnone. destruct (enhanceForm_absent self form s d Hwf Hform Hnone) as (d' & H1 & H2 & H3 & _).
    exists d'. auto.
  - intros Hsome. destruct (select (ByName "csrf_token") form d) as [ | x rest] eqn:E; [congruence | ].
    destruct (enhanceForm_present self form d x rest E) as (d' & H1 & H2 & H3 & _).
    exists d'. auto.
  - destruct (select (ByName "csrf_token") form d) as [ | x rest] eqn:E.
    + destruct (enhanceForm_absent self form s d Hwf Hform E) as (d1 & H1 & H2 & _).
      destruct (enhanceForm_present self form d1 _ _ H2) as (d2 & H3 & Hb & Hh & _ & Hs).
      exists d1, d2. auto.
    + destruct (enhanceForm_present self form d x rest E) as (d1 & H1 & _ & _ & _ & Hs1).
      rewrite E in Hs1.
      destruct (enhanceForm_present self form d1 x rest Hs1) as (d2 & H3 & Hb & Hh & _ & Hs).
      exists d1, d2. auto.
Qed.

(** ** NotificationCenter *)

(** C8: a notification removes the ones on screen before it shows, so one
    notification is visible after each call; each call schedules the removal
    of its notification 5000 ms later; the removal scheduled for a
    notification that has been evicted changes nothing.  After two calls,
    [dt] ms apart, the second notification alone is visible, it stays so
    for the next 5000 ms, and from 5000 ms after the second call none is
    left.  The body of the page is not itself a
    notification ([plainBody]), or the first call would remove it. *)
Theorem notify_twice (d : document) (m1 m2 : string) (k1 k2 : option string) (dt : N) :
  wellFormed d -> plainBody d ->
  exists d1 d2,
    showSecurityMessage m1 k1 d = Ok tt d1 /\
    notifications d1 = [nextId d] /\
    In {| due := (clock d + 5000)%N; run := RemoveMessage (nextId d) |} (timers d1) /\
    (showSecurityMessage m1 k1 ;; advance dt ;; showSecurityMessage m2 k2) d
      = Ok tt d2 /\
    notifications d2 = [S (nextId d)] /\
    textContent (heap d2 (S (nextId d))) = m2 /\
    In {| due := (clock d + dt + 5000)%N; run := RemoveMessage (S (nextId d)) |}
       (timers d2) /\
    runTask (RemoveMessage (nextId d)) d2 = Ok tt d2 /\
    (forall later, (later < 5000)%N ->
       exists d3, advance later d2 = Ok tt d3 /\ notifications d3 = [S (nextId d)]) /\
    (forall later, (5000 <= later)%N ->
       exists d3, advance later d2 = Ok tt d3 /\ notifications d3 = []).
Proof.
  intros Hwf _.
  destruct (showSecurityMessage_spec d m1 k1 Hwf)
    as (d1 & Hs1 & Hwf1 & Hn1 & Hvis1 & _ & Hcls1 & _ & Ht1 & Hc1 & _).
  destruct (advance dt d1) as [[] d1' | ] eqn:Hadv;
    [ | rewrite advance_eq in Hadv; discriminate].
  pose proof (advance_wellFormed dt d1 d1' Hwf1 Hadv) as Hwf1'.
  assert (Hd1' : heap d1' = heap d1 /\ nextId d1' = S (nextId d) /\
                 clock d1' = (clock d + dt)%N).
  { rewrite advance_eq in Hadv. injection Hadv as <-. simpl.
    rewrite Hn1, Hc1. auto. }
  destruct Hd1' as (Hh1' & Hn1' & Hc1').
  destruct (showSecurityMessage_spec d1' m2 k2 Hwf1')
    as (d2 & Hs2 & Hwf2 & Hn2 & Hvis2 & Htxt2 & _ & Hoth2 & Ht2 & Hc2 & _ & Hch2 & Hb2).
  rewrite Hn1' in *.
  exists d1, d2.
  split; [exact Hs1 | ]. split; [exact Hvis1 | ].
  split; [rewrite Ht1; apply in_enqueue; left; reflexivity | ].
  split; [unfold bind; rewrite Hs1, Hadv; exact Hs2 | ].
  split; [exact Hvis2 | ]. split; [exact Htxt2 | ].
  split; [rewrite Ht2, Hc1'; apply in_enqueue; left; reflexivity | ].
  assert (Hbound : forall t, In t (timers d1') -> taskElement (run t) <> S (nextId d)).
  { intros t Ht. destruct Hwf1' as (_ & _ & Htm). apply Htm in Ht. lia. }
  split.
  { apply runTask_stale. intros Hin.
    assert (Hin' : In (nextId d) (notifications d2)).
    { apply notifications_below. split; [assumption | ].
      rewrite Hoth2 by lia. rewrite Hh1'. unfold matches. rewrite Hcls1.
      apply tokens_securityMessage. }
    rewrite Hvis2 in Hin'. destruct Hin' as [E | []]. lia. }
  split.
  - intros later Hlater.
    destruct (advance later d2) as [[] d3 | ] eqn:Hadv2;
      [ | rewrite advance_eq in Hadv2; discriminate].
    exists d3. split; [reflexivity | ].
    apply NoDup_singleton.
    + apply NoDup_notifications. eapply advance_wellFormed; eassumption.
    + assert (Hnot : ~ In (S (nextId d)) (dueElements (clock d2 + later) d2)).
      { unfold dueElements. intros Hin.
        apply in_map_iff in Hin as (t & Hid & Ht).
        apply filter_In in Ht as [Ht Hdue].
        rewrite Ht2 in Ht. apply in_enqueue in Ht as [-> | Ht].
        - unfold isDue in Hdue. simpl in Hdue. apply N.leb_le in Hdue. lia.
        - apply Hbound in Ht. contradiction. }
      rewrite advance_eq in Hadv2. injection Hadv2 as <-.
      apply notifications_below. cbn [body heap]. split.
      * apply child_descendant, child_detachAll; assumption.
      * assert (Hin : In (S (nextId d)) (notifications d2))
          by (rewrite Hvis2; left; reflexivity).
        apply notifications_below in Hin. tauto.
    + intros x Hx. apply (notifications_advance _ _ _ _ Hadv2) in Hx as [Hx _].
      rewrite Hvis2 in Hx. destruct Hx as [<- | []]. reflexivity.
  - intros later Hlater.
    destruct (advance later d2) as [[] d3 | ] eqn:Hadv2;
      [ | rewrite advance_eq in Hadv2; discriminate].
    exists d3. split; [reflexivity | ].
    destruct (notifications d3) as [ | x l] eqn:E; [reflexivity | exfalso].
    assert (Hx : In x (notifications d3)) by (rewrite E; left; reflexivity).
    apply (notifications_advance _ _ _ _ Hadv2) in Hx as [Hx Hnot].
    rewrite Hvis2 in Hx. destruct Hx as [<- | []].
    apply Hnot. unfold dueElements. apply in_map_iff.
    exists {| due := (clock d1' + 5000)%N; run := RemoveMessage (S (nextId d)) |}.
    split; [reflexivity | ]. apply filter_In. split.
    + rewrite Ht2. apply in_enqueue. left. reflexivity.
    + unfold isDue. simpl. apply N.leb_le. lia.
Qed.

(** ** The claims on the example pages *)

Section SpecificationExamples.

(** The examples of the specification's testable properties. *)

Example email_blank_optional :
  outcome (validateField 3 (fieldPage "email" " " false)) = Some (true, []).
Proof. vm_compute. reflexivity. Qed.

Example email_well_formed :
  outcome (validateField 3 (fieldPage "email" "a@b.com" false)) = Some (true, []).
Proof. vm_compute. reflexivity. Qed.

Example email_without_dot :
  outcome (validateField 3 (fieldPage "email" "a@b" false))
  = Some (false, ["Please enter a valid email address"]).
Proof. vm_compute. reflexivity. Qed.

Example required_blank :
  outcome (validateField 3 (fieldPage "text" "  " true))
  = Some (false, ["This field is required"]).
Proof. vm_compute. reflexivity. Qed.

Example required_filled :
  outcome (validateField 3 (fieldPage "text" "x" true)) = Some (true, []).
Proof. vm_compute. reflexivity. Qed.

Example upload_png_4MiB :
  outcome (validateFileUpload 3 (uploadPage [png4MiB])) = Some (true, []).
Proof. vm_compute. reflexivity. Qed.

Example upload_png_6MiB :
  outcome (validateFileUpload 3 (uploadPage [png6MiB]))
  = Some (false, ["File too large. Maximum size is 5MB"]).
Proof. vm_compute. reflexivity. Qed.

Example upload_gif_1KiB :
  outcome (validateFileUpload 3 (uploadPage [gif1KiB]))
  = Some (false, ["Invalid file type. Allowed: JPG, PNG, PDF, DOC (max 5MB)"]).
Proof. vm_compute. reflexivity. Qed.

Example upload_gif_6MiB :
  outcome (validateFileUpload 3 (uploadPage [gif6MiB]))
  = Some (false, ["Invalid file type. Allowed: JPG, PNG, PDF, DOC (max 5MB)"]).
Proof. vm_compute. reflexivity. Qed.

End SpecificationExamples.

Section FormGatekeeper.

(** The submit interceptor: the default action is prevented, and the error
    notification shown, exactly when [validateForm] answers [false]. *)
Lemma onSubmit_spec (form : nat) (e : event) (d d1 : document) (ok : bool) :
  validateForm form d = Ok ok d1 ->
  exists d2,
    handle (OnSubmit form) e d =
      Ok (if ok then e else preventDefault e) d2 /\
    (ok = true -> d2 = d1) /\
    (ok = false ->
     showSecurityMessage "Please fix form errors before submitting."
       (Some "error") d1 = Ok tt d2).
Proof.
  intros Hv. unfold handle, bind at 1. rewrite Hv.
  destruct ok; cbn [negb].
  - exists d1. split; [reflexivity | ]. split; [reflexivity | discriminate].
  - destruct (showSecurityMessage_eq d1 "Please fix form errors before submitting."
                (Some "error")) as (h2 & Hs & _).
    eexists. unfold bind. rewrite Hs.
    split; [reflexivity | ]. split; [discriminate | reflexivity].
Qed.

(** C1, on the page of the specification's end-to-end example (a required
    text field left empty and an email field holding "bad"): the submit
    is prevented, the error notification is shown and both fields are
    marked, but only the email field keeps its annotation.  The annotation
    of the required field is removed again when the token field, which
    [enhanceFormSecurity] appended to the form, is validated in its turn:
    its parent is the form, and [clearFieldError] removes the first
    annotation found below the parent. *)
Theorem submit_drops_first_annotation (random now : string) :
  exists d',
    (construct random now ;; dispatchEvent 1 "submit") twoFieldPage = Ok false d' /\
    texts (ByClass "security-message") 0 d'
      = ["Please fix form errors before submitting."] /\
    marked 3 d' = true /\ marked 5 d' = true /\
    annotations 5 d' = ["Please enter a valid email address"] /\
    annotations 3 d' = [].
Proof.
  eexists. split; [vm_compute; reflexivity | ].
  repeat split; vm_compute; reflexivity.
Qed.

End FormGatekeeper.

Section Counterexamples.

Lemma wellFormed_requiredPage : wellFormed requiredPage.
Proof. apply wellFormedb_sound. reflexivity. Qed.

Lemma wellFormed_emailPage : wellFormed emailPage.
Proof. apply wellFormedb_sound. reflexivity. Qed.

Lemma wellFormed_tokenPage : wellFormed tokenPage.
Proof. apply wellFormedb_sound. reflexivity. Qed.

Lemma wellFormed_uploadPage (fs : list File.File) : wellFormed (uploadPage fs).
Proof. apply wellFormedb_sound. reflexivity. Qed.

(** C4 as stated fails: a required email field that holds one space is
    rejected, with the message of the required rule. *)
Lemma required_email_blank_rejected :
  ~ (forall field p d b d',
       wellFormed d -> parentOf field (body d) = Some p -> plainField field d ->
       type (heap d field) = "email" ->
       validateField field d = Ok b d' ->
       (b = true <->
        JSString.trim (value (heap d field)) = "" \/
        matchesEmailPattern (JSString.trim (value (heap d field))))) /\
  exists d',
    validateField 3 emailPage = Ok false d' /\
    marked 3 d' = true /\
    annotations 3 d' = ["This field is required"].
Proof.
  split; [ | eexists; split; [vm_compute; reflexivity | split; reflexivity]].
  intros H.
  assert (E : exists d', validateField 3 emailPage = Ok false d')
    by (eexists; vm_compute; reflexivity).
  destruct E as (d' & E).
  specialize (H 3 2 emailPage false d' wellFormed_emailPage
                eq_refl eq_refl eq_refl E).
  assert (C : false = true) by (apply H; left; reflexivity).
  discriminate C.
Qed.


(** C6 as stated fails: a form that arrives with a token field keeps it,
    and its value is not the token of the session. *)
Lemma foreign_token_kept :
  ~ (forall self form s d d',
       wellFormed d -> subtree form (body d) = Some s ->
       enhanceForm self form d = Ok tt d' ->
       exists i,
         select (ByName "csrf_token") form d' = [i] /\
         tokenField (csrfToken self) (heap d' i)).
Proof.
  intros H.
  assert (E : exists d', enhanceForm session 1 tokenPage = Ok tt d' /\
                         select (ByName "csrf_token") 1 d' = [2] /\
                         value (heap d' 2) = "server-issued").
  { eexists. split; [vm_compute; reflexivity | ]. split; vm_compute; reflexivity. }
  destruct E as (d' & E & Hsel & Hval).
  destruct (H session 1 (T 1 [T 2 []]) tokenPage d' wellFormed_tokenPage eq_refl E)
    as (i & Hi & _ & _ & _ & Htok).
  rewrite Hsel in Hi. injection Hi as <-.
  rewrite Hval in Htok. discriminate Htok.
Qed.

(** The same on the whole pass over the page. *)
Example tokenPage_pass :
  exists d',
    enhanceFormSecurity session tokenPage = Ok tt d' /\
    map (fun i => value (heap d' i)) (select (ByName "csrf_token") 1 d')
      = ["server-issued"].
Proof.
  eexists. split; vm_compute; reflexivity.
Qed.

End Counterexamples.

Section Witnesses.

(** C3 on the empty required field of [requiredPage]. *)
Lemma validateField_rules_witness :
  wellFormed requiredPage /\ parentOf 3 (body requiredPage) = Some 2 /\
  plainField 3 requiredPage /\
  exists d',
    validateField 3 requiredPage = Ok false d' /\
    exists rest, annotations 3 d' = rest ++ ["This field is required"].
Proof.
  split; [exact wellFormed_requiredPage | ].
  split; [reflexivity | ]. split; [reflexivity | ].
  destruct (validateField_rules 3 2 requiredPage wellFormed_requiredPage
              eq_refl eq_refl) as (_ & H & _).
  destruct H as (d' & Hv & _ & _ & Hann).
  - intros (H & _). vm_compute in H. discriminate H.
  - split; reflexivity.
  - exists d'. split; assumption.
Defined.

(** C4, amended, on the email field of [emailPage], which is required and
    holds one space. *)
Lemma validateField_email_witness :
  wellFormed emailPage /\ parentOf 3 (body emailPage) = Some 2 /\
  plainField 3 emailPage /\ type (heap emailPage 3) = "email" /\
  exists d',
    validateField 3 emailPage = Ok false d' /\
    marked 3 d' = true /\
    exists rest, annotations 3 d' = rest ++ ["This field is required"].
Proof.
  split; [exact wellFormed_emailPage | ].
  split; [reflexivity | ]. split; [reflexivity | ]. split; [reflexivity | ].
  destruct (validateField_email 3 2 emailPage wellFormed_emailPage
              eq_refl eq_refl eq_refl)
    as (b & d' & Hv & _ & Hreq & _).
  destruct (Hreq eq_refl eq_refl) as (-> & Hmark & Hann).
  exists d'. split; [exact Hv | ]. split; [exact Hmark | exact Hann].
Defined.


(** C6, amended, on the form of [requiredPage]. *)
Lemma enhanceForm_token_witness :
  wellFormed requiredPage /\
  subtree 1 (body requiredPage) = Some (T 1 [T 2 [T 3 []]]) /\
  select (ByName "csrf_token") 1 requiredPage = [] /\
  exists d',
    enhanceForm session 1 requiredPage = Ok tt d' /\
    select (ByName "csrf_token") 1 d' = [4] /\
    tokenField "csrf_4fzyo82mv_lq3k2p9x" (heap d' 4).
Proof.
  split; [exact wellFormed_requiredPage | ].
  split; [reflexivity | ]. split; [reflexivity | ].
  destruct (enhanceForm_token session 1 (T 1 [T 2 [T 3 []]]) requiredPage
              wellFormed_requiredPage eq_refl) as (H & _).
  apply H. reflexivity.
Defined.

(** Two calls on the field of [requiredPage], which has no annotation. *)
Lemma showFieldError_twice_witness :
  wellFormed requiredPage /\ parentOf 3 (body requiredPage) = Some 2 /\
  plainField 3 requiredPage /\
  exists d1 d2,
    showFieldError 3 "first" requiredPage = Ok tt d1 /\
    showFieldError 3 "second" d1 = Ok tt d2 /\
    annotations 3 d1 = ["first"] /\ annotations 3 d2 = ["second"] /\
    marked 3 d2 = true.
Proof.
  split; [exact wellFormed_requiredPage | ].
  split; [reflexivity | ]. split; [reflexivity | ].
  destruct (showFieldError_twice 3 2 requiredPage "first" "second"
              wellFormed_requiredPage eq_refl eq_refl)
    as (d1 & d2 & H1 & H2 & _ & Hm & _ & _ & Hone).
  exists d1, d2. split; [exact H1 | ]. split; [exact H2 | ].
  destruct Hone as [Ha Hb]; [simpl; lia | ].
  split; [exact Ha | ]. split; [exact Hb | exact Hm].
Defined.

(** C8 on [requiredPage], the two calls 100 ms apart. *)
Lemma notify_twice_witness :
  wellFormed requiredPage /\ plainBody requiredPage /\
  exists d2,
    (showSecurityMessage "one" None ;; advance 100 ;;
     showSecurityMessage "two" (Some "error")) requiredPage = Ok tt d2 /\
    notifications d2 = [5] /\ textContent (heap d2 5) = "two" /\
    exists d3, advance 5000 d2 = Ok tt d3 /\ notifications d3 = [].
Proof.
  split; [exact wellFormed_requiredPage | ]. split; [reflexivity | ].
  destruct (notify_twice requiredPage "one" "two" None (Some "error") 100
              wellFormed_requiredPage eq_refl)
    as (d1 & d2 & _ & _ & _ & H & Hvis & Htxt & _ & _ & _ & Hlate).
  exists d2. split; [exact H | ]. split; [exact Hvis | ]. split; [exact Htxt | ].
  apply Hlate. reflexivity.
Defined.

(** C2 on a 6 MiB GIF. *)
Lemma validateFileUpload_accepts_witness :
  wellFormed (uploadPage [gif6MiB]) /\
  parentOf 3 (body (uploadPage [gif6MiB])) = Some 2 /\
  plainField 3 (uploadPage [gif6MiB]) /\
  type (heap (uploadPage [gif6MiB]) 3) = "file" /\
  plainBody (uploadPage [gif6MiB]) /\
  exists d',
    validateFileUpload 3 (uploadPage [gif6MiB]) = Ok false d' /\
    exists rest,
      annotations 3 d' =
      rest ++ ["Invalid file type. Allowed: JPG, PNG, PDF, DOC (max 5MB)"].
Proof.
  split; [apply wellFormed_uploadPage | ].
  split; [reflexivity | ]. split; [reflexivity | ]. split; [reflexivity | ].
  split; [reflexivity | ].
  destruct (validateFileUpload_accepts 3 2 (uploadPage [gif6MiB])
              (wellFormed_uploadPage _) eq_refl eq_refl eq_refl eq_refl)
    as (b & d' & Hv & Hb & Hty & _).
  destruct b.
  - exfalso. destruct (proj1 Hb eq_refl) as [H | (f & H & Hin & _)].
    + discriminate H.
    + injection H as <-. simpl in Hin.
      repeat (destruct Hin as [Hin | Hin]; [discriminate Hin | ]).
      exact Hin.
  - exists d'. split; [exact Hv | ].
    apply (Hty gif6MiB eq_refl). simpl. intros Hin.
    repeat (destruct Hin as [Hin | Hin]; [discriminate Hin | ]).
    exact Hin.
Defined.

(** C9 on a 6 MiB GIF. *)
Lemma validateFileUpload_clears_witness :
  wellFormed (uploadPage [gif6MiB]) /\
  parentOf 3 (body (uploadPage [gif6MiB])) = Some 2 /\
  plainField 3 (uploadPage [gif6MiB]) /\
  type (heap (uploadPage [gif6MiB]) 3) = "file" /\
  hd_error (files (heap (uploadPage [gif6MiB]) 3)) = Some gif6MiB /\
  (~ In (File.type gif6MiB) allowedTypes \/ (maxSize < File.size gif6MiB)%N) /\
  exists d',
    validateFileUpload 3 (uploadPage [gif6MiB]) = Ok false d' /\
    value (heap d' 3) = "" /\ files (heap d' 3) = [].
Proof.
  split; [apply wellFormed_uploadPage | ].
  split; [reflexivity | ]. split; [reflexivity | ]. split; [reflexivity | ].
  split; [reflexivity | ].
  assert (Hbad : ~ In (File.type gif6MiB) allowedTypes \/
                 (maxSize < File.size gif6MiB)%N) by (right; reflexivity).
  split; [exact Hbad | ].
  destruct (validateFileUpload_clears 3 2 (uploadPage [gif6MiB]) gif6MiB
              (wellFormed_uploadPage _) eq_refl eq_refl eq_refl
              eq_refl Hbad) as (d' & Hv & Hval & Hfiles & _).
  exists d'. auto.
Defined.

(** C10 on an empty file input. *)
Lemma validateFileUpload_no_file_witness :
  wellFormed (uploadPage []) /\
  parentOf 3 (body (uploadPage [])) = Some 2 /\
  plainField 3 (uploadPage []) /\
  type (heap (uploadPage []) 3) = "file" /\
  hd_error (files (heap (uploadPage []) 3)) = None /\
  validateFileUpload 3 (uploadPage []) = Ok true (uploadPage []).
Proof.
  split; [apply wellFormed_uploadPage | ].
  split; [reflexivity | ]. split; [reflexivity | ]. split; [reflexivity | ].
  split; [reflexivity | ].
  apply (validateFileUpload_no_file 3 2 (uploadPage [])
           (wellFormed_uploadPage _) eq_refl eq_refl eq_refl).
  reflexivity.
Defined.

End Witnesses.

(* ================================================================== *)
(** * Further properties *)

(** ** Strings and the email pattern *)

Section StringFacts.

Lemma list_ascii_app (s1 s2 : string) :
  list_ascii_of_string (s1 ++ s2) =
  list_ascii_of_string s1 ++ list_ascii_of_string s2.
Proof.
  induction s1 as [ | c s1 IH]; simpl; [reflexivity | ]. rewrite IH. reflexivity.
Qed.

Lemma trimStart_cases (s : string) :
  (JSString.trimStart s = "" /\
   Forall (fun c => JSString.isWhiteSpace c = true) (list_ascii_of_string s)) \/
  (exists c r, JSString.trimStart s = String c r /\ JSString.isWhiteSpace c = false /\
     Exists (fun c => JSString.isWhiteSpace c = false) (list_ascii_of_string s)).
Proof.
  induction s as [ | c s IH]; simpl.
  - left. split; [reflexivity | constructor].
  - destruct (JSString.isWhiteSpace c) eqn:E.
    + destruct IH as [[H1 H2] | (c' & r & H1 & H2 & H3)].
      * left. split; [assumption | constructor; assumption].
      * right. exists c', r. split; [assumption | ]. split; [assumption | ].
        apply Exists_cons_tl. assumption.
    + right. exists c, s. split; [reflexivity | ]. split; [assumption | ].
      apply Exists_cons_hd. assumption.
Qed.

Lemma trim_empty_iff (s : string) :
  JSString.trim s = "" <->
  Forall (fun c => JSString.isWhiteSpace c = true) (list_ascii_of_string s).
Proof.
  unfold JSString.trim.
  destruct (trimStart_cases s) as [[H1 H2] | (c & r & H1 & H2 & H3)].
  - rewrite H1. simpl. split; auto.
  - rewrite H1. simpl. rewrite H2. simpl. split; [discriminate | ].
    intros Hall. exfalso. apply Exists_exists in H3 as (x & Hx & Hx').
    rewrite Forall_forall in Hall. apply Hall in Hx. congruence.
Qed.

Lemma trimStart_pad (pad s : string) :
  Forall (fun c => JSString.isWhiteSpace c = true) (list_ascii_of_string pad) ->
  JSString.trimStart (pad ++ s) = JSString.trimStart s.
Proof.
  induction pad as [ | c pad IH]; simpl; intros H; [reflexivity | ].
  inversion H; subst. rewrite H2. auto.
Qed.

Lemma trimEnd_blank (pad : string) :
  Forall (fun c => JSString.isWhiteSpace c = true) (list_ascii_of_string pad) ->
  JSString.trimEnd pad = "".
Proof.
  induction pad as [ | c pad IH]; simpl; intros H; [reflexivity | ].
  inversion H; subst. rewrite IH by assumption. rewrite H2. reflexivity.
Qed.

Lemma trimEnd_pad (s pad : string) :
  Forall (fun c => JSString.isWhiteSpace c = true) (list_ascii_of_string pad) ->
  JSString.trimEnd (s ++ pad) = JSString.trimEnd s.
Proof.
  intros H. induction s as [ | c s IH]; simpl.
  - apply trimEnd_blank. assumption.
  - rewrite IH. reflexivity.
Qed.

Lemma trimEnd_solid (s : string) :
  Forall (fun c => JSString.isWhiteSpace c = false) (list_ascii_of_string s) ->
  JSString.trimEnd s = s.
Proof.
  induction s as [ | c s IH]; simpl; intros H; [reflexivity | ].
  inversion H; subst. rewrite IH by assumption. rewrite H2. reflexivity.
Qed.

Lemma trimStart_solid (s : string) :
  Forall (fun c => JSString.isWhiteSpace c = false) (list_ascii_of_string s) ->
  JSString.trimStart s = s.
Proof.
  destruct s as [ | c s]; simpl; intros H; [reflexivity | ].
  inversion H; subst. rewrite H2. reflexivity.
Qed.

Lemma trim_padded (pad1 s pad2 : string) :
  Forall (fun c => JSString.isWhiteSpace c = true) (list_ascii_of_string pad1) ->
  Forall (fun c => JSString.isWhiteSpace c = true) (list_ascii_of_string pad2) ->
  Forall (fun c => JSString.isWhiteSpace c = false) (list_ascii_of_string s) ->
  JSString.trim (pad1 ++ s ++ pad2) = s.
Proof.
  intros H1 H2 H3. unfold JSString.trim.
  rewrite trimStart_pad by assumption.
  destruct s as [ | c s].
  - simpl. destruct (trimStart_cases pad2) as [[E _] | (c & r & _ & E & E')].
    + rewrite E. reflexivity.
    + exfalso. apply Exists_exists in E' as (x & Hx & Hx').
      rewrite Forall_forall in H2. apply H2 in Hx. congruence.
  - change ((String c s) ++ pad2)%string with (String c (s ++ pad2)%string).
    inversion H3; subst. cbn [JSString.trimStart]. rewrite H4.
    change (String c (s ++ pad2)%string) with ((String c s) ++ pad2)%string.
    rewrite trimEnd_pad by assumption. apply trimEnd_solid. assumption.
Qed.

Lemma plainWord_solid (w : list ascii) :
  plainWord w -> Forall (fun c => JSString.isWhiteSpace c = false) w.
Proof.
  intros [_ H]. eapply Forall_impl; [ | exact H]. intros c [Hc _]. exact Hc.
Qed.

Lemma plainWord_no_at (w : list ascii) :
  plainWord w -> count_occ ascii_dec w "@"%char = 0.
Proof.
  intros [_ H]. apply count_occ_not_In. intros Hin.
  rewrite Forall_forall in H. apply H in Hin. destruct Hin as [_ Hne]. congruence.
Qed.

Lemma plainWord_length (w : list ascii) : plainWord w -> 1 <= List.length w.
Proof.
  intros [H _]. destruct w; [congruence | simpl; lia].
Qed.

Lemma length_append (s1 s2 : string) :
  String.length (s1 ++ s2) = String.length s1 + String.length s2.
Proof.
  induction s1 as [ | c s1 IH]; simpl; congruence.
Qed.

Lemma length_list_ascii (s : string) :
  List.length (list_ascii_of_string s) = String.length s.
Proof.
  induction s; simpl; congruence.
Qed.

Lemma matchesEmailPattern_solid (s : string) :
  matchesEmailPattern s ->
  Forall (fun c => JSString.isWhiteSpace c = false) (list_ascii_of_string s).
Proof.
  intros (a & b & c & E & Ha & Hb & Hc). rewrite E.
  apply Forall_app. split; [apply plainWord_solid; assumption | ].
  constructor; [reflexivity | ].
  apply Forall_app. split; [apply plainWord_solid; assumption | ].
  constructor; [reflexivity | apply plainWord_solid; assumption].
Qed.

End StringFacts.

(** X1: what the email pattern of [validateField] accepts.  A string that
    passes [emailRegex] holds exactly one [@] and no white space, is at
    least five characters long, and splits into a non-empty local part
    and, after the [@], a domain of at least three characters that holds
    a dot. *)
Theorem emailRegex_shape (s : string) :
  RegExp.test emailRegex s = true ->
  count_occ ascii_dec (list_ascii_of_string s) "@"%char = 1 /\
  Forall (fun c => JSString.isWhiteSpace c = false) (list_ascii_of_string s) /\
  5 <= String.length s /\
  exists localPart domain,
    list_ascii_of_string s = localPart ++ "@"%char :: domain /\
    localPart <> [] /\ In "."%char domain /\ 3 <= List.length domain.
Proof.
  intros H. apply emailRegex_spec in H.
  split; [ | split; [apply matchesEmailPattern_solid; assumption | ]].
  - destruct H as (a & b & c & E & Ha & Hb & Hc). rewrite E.
    rewrite count_occ_app. simpl. rewrite count_occ_app. simpl.
    rewrite !plainWord_no_at by assumption. reflexivity.
  - destruct H as (a & b & c & E & Ha & Hb & Hc).
    pose proof (plainWord_length _ Ha). pose proof (plainWord_length _ Hb).
    pose proof (plainWord_length _ Hc).
    split.
    + rewrite <- length_list_ascii, E. rewrite length_app. simpl.
      rewrite length_app. simpl. lia.
    + exists a, (b ++ "."%char :: c). split; [assumption | ].
      split; [apply Ha | ]. split.
      * apply in_or_app. right. left. reflexivity.
      * rewrite length_app. simpl. lia.
Qed.

(** X1 on [a@b.c]. *)
Lemma emailRegex_shape_witness :
  RegExp.test emailRegex "a@b.c" = true /\
  count_occ ascii_dec (list_ascii_of_string "a@b.c") "@"%char = 1.
Proof.
  split; [reflexivity | ].
  apply (emailRegex_shape "a@b.c"). reflexivity.
Defined.

Lemma trim_visible_iff (s : string) :
  JSString.trim s <> "" <->
  Exists (fun c => JSString.isWhiteSpace c = false) (list_ascii_of_string s).
Proof.
  rewrite trim_empty_iff. split.
  - intros H. destruct (trimStart_cases s) as [[_ H2] | (c & r & _ & _ & H3)];
      [contradiction | assumption].
  - intros H Hall. apply Exists_exists in H as (x & Hx & Hx').
    rewrite Forall_forall in Hall. apply Hall in Hx. congruence.
Qed.

(** X2: a required field that holds white space only, or nothing, is
    rejected with "This field is required", whatever its type; a required
    field of a type other than email is accepted exactly when its value
    holds a character that is not white space. *)
Theorem validateField_required (field p : nat) (d : document) :
  wellFormed d -> parentOf field (body d) = Some p -> plainField field d ->
  required (heap d field) = true ->
  exists b d',
    validateField field d = Ok b d' /\
    (Forall (fun c => JSString.isWhiteSpace c = true)
       (list_ascii_of_string (value (heap d field))) ->
     b = false /\
     exists rest, annotations field d' = rest ++ ["This field is required"]) /\
    (type (heap d field) <> "email" ->
     (b = true <->
      Exists (fun c => JSString.isWhiteSpace c = false)
        (list_ascii_of_string (value (heap d field))))).
Proof.
  intros Hwf Hparent Hplain Hreq.
  pose proof (trim_empty_iff (value (heap d field))) as Hblank.
  pose proof (trim_visible_iff (value (heap d field))) as Hvis.
  rewrite (validateField_cases field d). rewrite Hreq.
  destruct (JSString.trim (value (heap d field))) as [ | c v] eqn:Etrim.
  - rewrite andb_false_r. cbn [JSString.truthy JSString.isEmpty negb andb].
    destruct (showFieldError_ret field p d Hwf Hparent Hplain
                "This field is required")
      as (d' & H1 & _ & _ & _ & H4 & _).
    exists false, d'. split; [assumption | ]. split; [auto | ].
    intros _. split; [discriminate | ].
    intros H. apply Hvis in H. congruence.
  - assert (Hno : ~ Forall (fun c => JSString.isWhiteSpace c = true)
                      (list_ascii_of_string (value (heap d field)))).
    { intros H. apply Hblank in H. discriminate. }
    assert (Hyes : Exists (fun c => JSString.isWhiteSpace c = false)
                     (list_ascii_of_string (value (heap d field)))).
    { apply Hvis. discriminate. }
    cbn [JSString.truthy JSString.isEmpty negb andb]. rewrite andb_true_r.
    destruct (String.eqb (type (heap d field)) "email") eqn:Ety.
    + apply String.eqb_eq in Ety. cbn [andb].
      destruct (negb (RegExp.test emailRegex (String c v))).
      * destruct (showFieldError_ret field p d Hwf Hparent Hplain
                    "Please enter a valid email address")
          as (d' & H1 & _).
        exists false, d'. split; [assumption | ].
        split; [intros H; contradiction | intros H; contradiction].
      * destruct (clearFieldError_ret field p d Hwf Hparent Hplain)
          as (d' & H1 & _).
        exists true, d'. split; [assumption | ].
        split; [intros H; contradiction | intros H; contradiction].
    + cbn [andb].
      destruct (clearFieldError_ret field p d Hwf Hparent Hplain)
        as (d' & H1 & _).
      exists true, d'. split; [assumption | ].
      split; [intros H; contradiction | ]. intros _. split; auto.
Qed.

(** X2 on a required text field that holds two spaces. *)
Lemma validateField_required_witness :
  wellFormed (fieldPage "text" "  " true) /\
  exists d',
    validateField 3 (fieldPage "text" "  " true) = Ok false d' /\
    exists rest, annotations 3 d' = rest ++ ["This field is required"].
Proof.
  assert (Hwf : wellFormed (fieldPage "text" "  " true)).
  { apply wellFormedb_sound. reflexivity. }
  split; [exact Hwf | ].
  destruct (validateField_required 3 2 (fieldPage "text" "  " true)
              Hwf eq_refl eq_refl eq_refl) as (b & d' & H & Hblank & _).
  destruct Hblank as [-> Hann].
  { repeat constructor. }
  exists d'. split; assumption.
Defined.

(** X3: white space around an email address is ignored.  An email field
    whose value is an address that matches the pattern, with white space
    before and after it, is accepted and unmarked, and its value is left
    as it was typed. *)
Theorem validateField_email_padded (field p : nat) (d : document)
    (pad1 addr pad2 : string) :
  wellFormed d -> parentOf field (body d) = Some p -> plainField field d ->
  type (heap d field) = "email" ->
  value (heap d field) = (pad1 ++ addr ++ pad2)%string ->
  Forall (fun c => JSString.isWhiteSpace c = true) (list_ascii_of_string pad1) ->
  Forall (fun c => JSString.isWhiteSpace c = true) (list_ascii_of_string pad2) ->
  matchesEmailPattern addr ->
  exists d',
    validateField field d = Ok true d' /\ marked field d' = false /\
    value (heap d' field) = (pad1 ++ addr ++ pad2)%string.
Proof.
  intros Hwf Hparent Hplain Hty Hval H1 H2 Haddr.
  rewrite (validateField_cases field d). rewrite Hval.
  rewrite trim_padded by (try assumption; apply matchesEmailPattern_solid; assumption).
  pose proof (proj2 (emailRegex_spec addr) Haddr) as Htest. rewrite Htest.
  assert (Hne : JSString.truthy addr = true).
  { apply truthy_true. apply matchesEmailPattern_nonempty. assumption. }
  rewrite Hne. rewrite andb_false_r. cbn [negb]. rewrite andb_false_r.
  destruct (clearFieldError_ret field p d Hwf Hparent Hplain)
    as (d' & Hr & _ & _ & Hmark & Hframe).
  exists d'. split; [assumption | ]. split; [assumption | ].
  rewrite Hframe.
  - cbn [value with_classList]. assumption.
  - destruct Hwf as (_ & Hlt & _). apply Hlt, descendants_ids.
    eapply parentOf_below. eassumption.
Qed.

(** X3 on an email field that holds [a@b.c] between spaces. *)
Lemma validateField_email_padded_witness :
  exists d',
    validateField 3 (fieldPage "email" " a@b.c  " false) = Ok true d' /\
    marked 3 d' = false /\ value (heap d' 3) = " a@b.c  ".
Proof.
  assert (Hwf : wellFormed (fieldPage "email" " a@b.c  " false)).
  { apply wellFormedb_sound. reflexivity. }
  apply (validateField_email_padded 3 2 (fieldPage "email" " a@b.c  " false)
           " " "a@b.c" "  " Hwf eq_refl eq_refl eq_refl eq_refl).
  - repeat constructor.
  - repeat constructor.
  - apply emailRegex_spec. reflexivity.
Defined.

(** ** The token and the escaping of text *)

Section Token.

Lemma append_sep_inj (a b x y : string) :
  ~ In "_"%char (list_ascii_of_string a) ->
  ~ In "_"%char (list_ascii_of_string b) ->
  (a ++ "_" ++ x)%string = (b ++ "_" ++ y)%string -> a = b /\ x = y.
Proof.
  revert b. induction a as [ | c a IH]; intros [ | c' b] Ha Hb E; simpl in *.
  - injection E as E. auto.
  - injection E as E1 E2. exfalso. apply Hb. left. congruence.
  - injection E as E1 E2. exfalso. apply Ha. left. congruence.
  - injection E as E1 E2. subst c'.
    destruct (IH b) as [-> ->]; auto.
Qed.

End Token.

(** X4: two tokens are equal only if their random segments (the nine
    characters kept of [Math.random().toString(36)]) and their timestamps
    are equal, as long as the segments hold no underscore, which base-36
    digits never do. *)
Theorem generateCSRFToken_injective (random1 now1 random2 now2 : string) :
  ~ In "_"%char (list_ascii_of_string (JSString.substr 2 9 random1)) ->
  ~ In "_"%char (list_ascii_of_string (JSString.substr 2 9 random2)) ->
  generateCSRFToken random1 now1 = generateCSRFToken random2 now2 ->
  JSString.substr 2 9 random1 = JSString.substr 2 9 random2 /\ now1 = now2.
Proof.
  intros H1 H2 E. unfold generateCSRFToken in E.
  simpl in E. injection E as E.
  apply append_sep_inj; assumption.
Qed.

(** X4 on two random numbers that agree on the nine digits kept. *)
Lemma generateCSRFToken_injective_witness :
  JSString.substr 2 9 "0.4fzyo82mvyr" = JSString.substr 2 9 "0.4fzyo82mvxx" /\
  "lq3k2p9x" = "lq3k2p9x".
Proof.
  apply (generateCSRFToken_injective "0.4fzyo82mvyr" "lq3k2p9x" "0.4fzyo82mvxx" "lq3k2p9x").
  - vm_compute. intros H. repeat (destruct H as [H | H]; [discriminate H | ]). exact H.
  - vm_compute. intros H. repeat (destruct H as [H | H]; [discriminate H | ]). exact H.
  - reflexivity.
Defined.

Section Escape.


Lemma escapeChar_cases (c : ascii) :
  (c = "&"%char /\ escapeChar c = "&amp;") \/
  (c = "<"%char /\ escapeChar c = "&lt;") \/
  (c = ">"%char /\ escapeChar c = "&gt;") \/
  (nat_of_ascii c = 160 /\ escapeChar c = "&nbsp;") \/
  (~ reserved c /\ escapeChar c = String c "").
Proof.
  unfold escapeChar, reserved.
  destruct (Ascii.eqb c "&") eqn:E1; [apply Ascii.eqb_eq in E1; auto | ].
  destruct (Ascii.eqb c "<") eqn:E2; [apply Ascii.eqb_eq in E2; auto | ].
  destruct (Ascii.eqb c ">") eqn:E3; [apply Ascii.eqb_eq in E3; auto 6 | ].
  destruct (nat_of_ascii c =? 160) eqn:E4; [apply Nat.eqb_eq in E4; auto 6 | ].
  apply Ascii.eqb_neq in E1, E2, E3. apply Nat.eqb_neq in E4.
  right. right. right. right. split; [ | reflexivity].
  intros [H | [H | [H | H]]]; contradiction.
Qed.

Lemma escape_no_markup (s : string) (c : ascii) :
  c = "<"%char \/ c = ">"%char -> ~ In c (list_ascii_of_string (escape s)).
Proof.
  intros Hc. induction s as [ | x s IH]; simpl; [auto | ].
  rewrite list_ascii_app. intros H. apply in_app_or in H as [H | H]; [ | auto].
  destruct (escapeChar_cases x) as [[_ E] | [[_ E] | [[_ E] | [[_ E] | [Hx E]]]]];
    rewrite E in H; simpl in H;
    try (destruct Hc as [-> | ->];
         repeat (destruct H as [H | H]; [discriminate H | ]); exact H).
  destruct H as [H | []]. subst x. apply Hx. unfold reserved. tauto.
Qed.

Lemma escape_plain (s : string) :
  Forall (fun c => ~ reserved c) (list_ascii_of_string s) -> escape s = s.
Proof.
  induction s as [ | c s IH]; simpl; intros H; [reflexivity | ].
  inversion H; subst. rewrite IH by assumption.
  destruct (escapeChar_cases c) as [[A _] | [[A _] | [[A _] | [[A _] | [_ E]]]]];
    try (exfalso; apply H2; unfold reserved; tauto).
  rewrite E. reflexivity.
Qed.

Lemma escape_length (s : string) : String.length s <= String.length (escape s).
Proof.
  induction s as [ | c s IH]; simpl; [lia | ].
  rewrite length_append.
  destruct (escapeChar_cases c) as [[_ E] | [[_ E] | [[_ E] | [[_ E] | [_ E]]]]];
    rewrite E; simpl; lia.
Qed.

Lemma escape_fixed (s : string) :
  escape s = s -> Forall (fun c => ~ reserved c) (list_ascii_of_string s).
Proof.
  induction s as [ | c s IH]; simpl; intros H; [constructor | ].
  pose proof (escape_length s) as Hlen.
  assert (Hl : String.length (escapeChar c ++ escape s) = S (String.length s)).
  { rewrite H. reflexivity. }
  rewrite length_append in Hl.
  destruct (escapeChar_cases c) as [[_ E] | [[_ E] | [[_ E] | [[_ E] | [Hc E]]]]];
    rewrite E in Hl, H; simpl in Hl; try lia.
  simpl in H. injection H as H. constructor; auto.
Qed.

Lemma escape_nil (s : string) : escape s = "" -> s = "".
Proof.
  destruct s as [ | c s]; [reflexivity | ]. simpl. intros H.
  destruct (escapeChar_cases c) as [[_ E] | [[_ E] | [[_ E] | [[_ E] | [_ E]]]]];
    rewrite E in H; discriminate H.
Qed.

Lemma escape_injective (s1 s2 : string) : escape s1 = escape s2 -> s1 = s2.
Proof.
  revert s2. induction s1 as [ | c1 s1 IH]; intros s2 H.
  - symmetry. apply escape_nil. symmetry. exact H.
  - destruct s2 as [ | c2 s2]; [apply escape_nil in H; discriminate H | ].
    simpl in H.
    assert (Hnb : nat_of_ascii c1 = 160 -> nat_of_ascii c2 = 160 -> c1 = c2).
    { intros H1 H2.
      rewrite <- (ascii_nat_embedding c1), <- (ascii_nat_embedding c2). congruence. }
    destruct (escapeChar_cases c1) as [[A1 E1] | [[A1 E1] | [[A1 E1] | [[A1 E1] | [A1 E1]]]]];
    destruct (escapeChar_cases c2) as [[A2 E2] | [[A2 E2] | [[A2 E2] | [[A2 E2] | [A2 E2]]]]];
      rewrite E1, E2 in H; simpl in H;
      try discriminate H;
      inversion H; subst; clear H;
      try solve [ f_equal; solve [auto | congruence] ];
      exfalso; unfold reserved in *; tauto.
Qed.

Lemma sanitizeHTML_eq (str : string) (d : document) :
  sanitizeHTML str d =
  Ok (escape str)
     (with_heap (upd (upd (heap d) (nextId d) (blank "div")) (nextId d)
                   (with_textContent str (blank "div")))
        (with_nextId (S (nextId d))
           (with_heap (upd (heap d) (nextId d) (blank "div")) d))).
Proof.
  unfold sanitizeHTML. rewrite createElement_then.
  erewrite set_known by (cbn [heap with_heap with_nextId]; apply upd_same).
  unfold innerHTML, bind, get, gets, ret.
  cbn [heap with_heap with_nextId]. rewrite upd_same. reflexivity.
Qed.

End Escape.

(** X5: the text that [sanitizeHTML] returns holds neither [<] nor [>],
    and the [div] it works on is never attached: the tree, the listeners
    and the timers are as before, and so is every element but the new
    one. *)
Theorem sanitizeHTML_no_markup (str : string) (d : document) :
  exists out d',
    sanitizeHTML str d = Ok out d' /\
    ~ In "<"%char (list_ascii_of_string out) /\
    ~ In ">"%char (list_ascii_of_string out) /\
    body d' = body d /\ listeners d' = listeners d /\ timers d' = timers d /\
    (forall i, i <> nextId d -> heap d' i = heap d i).
Proof.
  eexists. eexists. split; [apply sanitizeHTML_eq | ].
  split; [apply escape_no_markup; auto | ].
  split; [apply escape_no_markup; auto | ].
  cbn [body heap listeners timers with_heap with_nextId].
  repeat (split; [reflexivity | ]).
  intros i Hi. rewrite !upd_other by assumption. reflexivity.
Qed.

(** X6: [sanitizeHTML] returns its argument unchanged exactly when the
    argument holds none of [&], [<], [>] and the no-break space. *)
Theorem sanitizeHTML_unchanged_iff (str : string) (d : document) :
  exists out d',
    sanitizeHTML str d = Ok out d' /\
    (out = str <-> Forall (fun c => ~ reserved c) (list_ascii_of_string str)).
Proof.
  eexists. eexists. split; [apply sanitizeHTML_eq | ].
  split; [apply escape_fixed | apply escape_plain].
Qed.

(** X7: [sanitizeHTML] loses nothing: two strings with the same result
    are the same string. *)
Theorem sanitizeHTML_injective (str1 str2 out : string) (d1 d2 e1 e2 : document) :
  sanitizeHTML str1 d1 = Ok out e1 ->
  sanitizeHTML str2 d2 = Ok out e2 ->
  str1 = str2.
Proof.
  rewrite !sanitizeHTML_eq. intros H1 H2.
  injection H1 as H1 _. injection H2 as H2 _.
  apply escape_injective. congruence.
Qed.

(** X7 on a tag, sanitized on two pages. *)
Lemma sanitizeHTML_injective_witness :
  exists e1 e2,
    sanitizeHTML "<b>" requiredPage = Ok "&lt;b&gt;" e1 /\
    sanitizeHTML "<b>" emailPage = Ok "&lt;b&gt;" e2 /\
    "<b>" = "<b>".
Proof.
  eexists. eexists.
  assert (H1 := sanitizeHTML_eq "<b>" requiredPage).
  assert (H2 := sanitizeHTML_eq "<b>" emailPage).
  split; [exact H1 | ]. split; [exact H2 | ].
  exact (sanitizeHTML_injective "<b>" "<b>" _ requiredPage emailPage _ _ H1 H2).
Defined.

Section FileInputs.

Let defaultAccept := ".jpg,.jpeg,.png,.pdf,.doc,.docx".

Let listenChange (i : nat) : listener :=
  {| target := i; eventType := "change"; callback := OnChange |}.

Let restrict (input : nat) : M unit :=
  addEventListener input "change" OnChange ;;
  e <- get input ;;
  if negb (JSString.truthy (accept e)) then
    set input (with_accept ".jpg,.jpeg,.png,.pdf,.doc,.docx")
  else ret tt.

Lemma forEach_restrict (l : list nat) (d : document) :
  exists h,
    forEach l restrict d =
    Ok tt {| body := body d; heap := h; nextId := nextId d;
             listeners := listeners d ++ map listenChange l;
             timers := timers d; clock := clock d |} /\
    (forall i, In i l ->
       h i = if JSString.truthy (accept (heap d i)) then heap d i
             else with_accept defaultAccept (heap d i)) /\
    (forall i, ~ In i l -> h i = heap d i).
Proof.
  revert d. induction l as [ | x l IH]; intros d.
  - exists (heap d). split.
    + simpl. rewrite app_nil_r. destruct d; reflexivity.
    + split; [intros i [] | reflexivity].
  - cbn [forEach]. unfold bind at 1. unfold restrict at 1.
    unfold bind at 1, addEventListener, modify.
    unfold bind at 1, get, gets. cbn [heap with_listeners].
    destruct (JSString.truthy (accept (heap d x))) eqn:Eacc; cbn [negb].
    + unfold ret at 1.
      match goal with |- context [forEach l restrict ?d1] =>
        destruct (IH d1) as (h & Hrun & Hin & Hout) end.
      cbn [body heap nextId listeners timers clock with_listeners] in *.
      exists h. split.
      { rewrite Hrun. rewrite <- app_assoc. reflexivity. }
      split.
      * intros i [<- | Hi].
        -- destruct (in_dec Nat.eq_dec x l) as [Hx | Hx].
           ++ rewrite (Hin x Hx), Eacc. reflexivity.
           ++ rewrite (Hout x Hx), Eacc. reflexivity.
        -- apply Hin. assumption.
      * intros i Hi. apply Hout. intros H. apply Hi. right. assumption.
    + unfold set, modify.
      match goal with |- context [forEach l restrict ?d1] =>
        destruct (IH d1) as (h & Hrun & Hin & Hout) end.
      cbn [body heap nextId listeners timers clock with_listeners with_heap] in *.
      exists h. split.
      { rewrite Hrun. rewrite <- app_assoc. reflexivity. }
      split.
      * intros i [<- | Hi].
        -- destruct (in_dec Nat.eq_dec x l) as [Hx | Hx].
           ++ rewrite (Hin x Hx), upd_same, Eacc. reflexivity.
           ++ rewrite (Hout x Hx), upd_same, Eacc. reflexivity.
        -- rewrite (Hin i Hi).
           destruct (Nat.eq_dec i x) as [-> | Hne].
           ++ rewrite upd_same, Eacc. reflexivity.
           ++ rewrite upd_other by assumption. reflexivity.
      * intros i Hi. rewrite Hout by (intros H; apply Hi; right; assumption).
        apply upd_other. intros ->. apply Hi. left. reflexivity.
Qed.

End FileInputs.

(** X8: [setupFileUploadValidation] never throws.  It registers one
    [change] listener for each file input of the page, in document order,
    after the listeners that are there; afterwards every file input has a
    non-empty [accept], its own if it had one and the default list
    otherwise; nothing but [accept] changes, and the tree is untouched. *)
Theorem setupFileUploadValidation_restricts (d : document) :
  exists d',
    setupFileUploadValidation d = Ok tt d' /\
    body d' = body d /\ nextId d' = nextId d /\ timers d' = timers d /\
    listeners d' =
      listeners d ++
      map (fun i => {| target := i; eventType := "change"; callback := OnChange |})
        (select (ByTagType "input" "file") (id (body d)) d) /\
    (forall i, In i (select (ByTagType "input" "file") (id (body d)) d) ->
       JSString.truthy (accept (heap d' i)) = true /\
       (JSString.truthy (accept (heap d i)) = true -> heap d' i = heap d i) /\
       (accept (heap d i) = "" ->
        heap d' i = with_accept ".jpg,.jpeg,.png,.pdf,.doc,.docx" (heap d i))) /\
    (forall i, ~ In i (select (ByTagType "input" "file") (id (body d)) d) ->
       heap d' i = heap d i).
Proof.
  unfold setupFileUploadValidation, bind at 1, documentQuerySelectorAll, gets.
  destruct (forEach_restrict (select (ByTagType "input" "file") (id (body d)) d) d)
    as (h & Hrun & Hin & Hout).
  eexists. split; [exact Hrun | ].
  cbn [body heap nextId listeners timers].
  repeat (split; [reflexivity | ]).
  split; [ | exact Hout].
  intros i Hi. rewrite (Hin i Hi).
  destruct (JSString.truthy (accept (heap d i))) eqn:E.
  - split; [assumption | ]. split; [reflexivity | ].
    intros H. rewrite H in E. discriminate E.
  - split; [reflexivity | ]. split; [discriminate | reflexivity].
Qed.

(** ** Accepted uploads *)

(** X9: accepting a file leaves the selection as it is.  All the
    selected files stay selected, also those after the first, which
    [validateFileUpload] never looks at; no value and no selection of any
    element changes.  The body of the page is not itself a notification
    ([plainBody]): accepting a file ends in [showSecurityMessage]. *)
Theorem validateFileUpload_keeps_selection (input p : nat) (d : document)
    (file : File.File) (others : list File.File) :
  wellFormed d -> parentOf input (body d) = Some p -> plainField input d ->
  type (heap d input) = "file" ->
  files (heap d input) = file :: others ->
  In (File.type file) allowedTypes -> (File.size file <= maxSize)%N ->
  plainBody d ->
  exists d',
    validateFileUpload input d = Ok true d' /\
    files (heap d' input) = file :: others /\
    (forall i, i < nextId d ->
       files (heap d' i) = files (heap d i) /\ value (heap d' i) = value (heap d i)).
Proof.
  intros Hwf Hparent Hplain Hfile Hsel Hty Hsz _.
  rewrite (validateFileUpload_cases input d Hfile). rewrite Hsel. cbn [hd_error].
  apply includes_In in Hty. rewrite Hty. cbn [negb].
  assert (Hsz' : (maxSize <? File.size file)%N = false) by (apply N.ltb_ge; assumption).
  rewrite Hsz'.
  destruct (clearFieldError_spec input p d Hwf Hparent Hplain)
    as (d1 & Hclear & Hwf1 & Hn1 & _ & _ & _ & _ & Hoth1 & Hfld1 & _).
  destruct (showSecurityMessage_spec d1 "File looks good!" (Some "success") Hwf1)
    as (d2 & Hs & _ & _ & _ & _ & _ & Hoth2 & _).
  exists d2. split.
  { unfold bind. rewrite Hclear, Hs. reflexivity. }
  assert (Hframe : forall i, i < nextId d ->
            files (heap d2 i) = files (heap d i) /\
            value (heap d2 i) = value (heap d i)).
  { intros i Hi. rewrite Hoth2 by lia.
    destruct (Nat.eq_dec i input) as [-> | Hne].
    - rewrite Hfld1. split; reflexivity.
    - rewrite Hoth1 by assumption. split; reflexivity. }
  split; [ | exact Hframe].
  rewrite <- Hsel. apply Hframe.
  destruct Hwf as (_ & Hlt & _). apply Hlt, descendants_ids.
  eapply parentOf_below. eassumption.
Qed.

(** X9 on a 4 MiB PNG followed by a 6 MiB GIF. *)
Lemma validateFileUpload_keeps_selection_witness :
  exists d',
    validateFileUpload 3 (uploadPage [png4MiB; gif6MiB]) = Ok true d' /\
    files (heap d' 3) = [png4MiB; gif6MiB] /\
    (forall i, i < nextId (uploadPage [png4MiB; gif6MiB]) ->
       files (heap d' i) = files (heap (uploadPage [png4MiB; gif6MiB]) i) /\
       value (heap d' i) = value (heap (uploadPage [png4MiB; gif6MiB]) i)).
Proof.
  apply (validateFileUpload_keeps_selection 3 2 (uploadPage [png4MiB; gif6MiB])
           png4MiB [gif6MiB] (wellFormed_uploadPage _) eq_refl eq_refl eq_refl eq_refl).
  - simpl. auto.
  - vm_compute. discriminate.
  - reflexivity.
Defined.

(** ** More on the tree *)

Section TreeSurgery.

Lemma detach_attach (p c : nat) (t : tree) :
  ~ In c (ids t) -> detach c (attach p c t) = t.
Proof.
  induction t as [j cs IH] using tree_ind. rewrite Forall_forall in IH.
  intros Hc. cbn [attach detach]. rewrite mapFilter_spec.
  rewrite filter_app, map_app.
  assert (Hj : j <> c) by (intros ->; apply Hc; left; reflexivity).
  replace (map (detach c) (filter (fun x => negb (id x =? c))
             (if j =? p then [T c []] else []))) with (@nil tree).
  2:{ destruct (j =? p); [ | reflexivity]. cbn [filter id].
      rewrite Nat.eqb_refl. reflexivity. }
  rewrite app_nil_r. f_equal.
  assert (Hcs : forall x, In x cs -> ~ In c (ids x)).
  { intros x Hx Hin. apply Hc. right. apply in_flat_map. exists x. auto. }
  clear Hc. induction cs as [ | x cs IHcs]; [reflexivity | ].
  cbn [map filter]. rewrite id_attach.
  assert (Hx : id x <> c).
  { intros E. apply (Hcs x (or_introl eq_refl)). rewrite <- E. apply id_in_ids. }
  apply Nat.eqb_neq in Hx. rewrite Hx. cbn [negb map]. f_equal.
  - apply IH; [left; reflexivity | apply Hcs; left; reflexivity].
  - apply IHcs.
    + intros y Hy. apply IH. right. assumption.
    + intros y Hy. apply Hcs. right. assumption.
Qed.

Lemma subtree_In (i : nat) (t s : tree) : subtree i t = Some s -> In i (ids t).
Proof.
  intros H. destruct (in_dec Nat.eq_dec i (ids t)) as [Hin | Hout]; [assumption | ].
  apply subtree_None in Hout. congruence.
Qed.

(** Removing [e] does not move what is outside the subtree of [e]. *)
Lemma subtree_detach_other (e q : nat) (t s : tree) :
  NoDup (ids t) -> subtree q t = Some s ->
  (forall se, subtree e t = Some se -> ~ In q (ids se)) ->
  subtree q (detach e t) = Some (detach e s).
Proof.
  induction t as [j cs IH] using tree_ind. rewrite Forall_forall in IH.
  intros Hnd Hs Hout.
  apply subtree_inv in Hs as [[-> ->] | (Hjq & c & Hc & Hs)].
  - cbn [detach]. apply subtree_here.
  - assert (Hje : j <> e).
    { intros ->. apply (Hout (T e cs)); [apply subtree_here | ].
      right. apply in_flat_map. exists c. split; [assumption | ].
      eapply subtree_In. eassumption. }
    assert (Hqc : In q (ids c)).
    { eapply subtree_In. eassumption. }
    assert (Hce : id c <> e).
    { intros E. apply (Hout c); [ | assumption].
      apply (subtree_child e j cs c c Hnd Hc). rewrite <- E. apply subtree_root. }
    apply (subtree_child q j _ (detach e c)).
    + apply (NoDup_detach e (T j cs)). assumption.
    + apply (in_childNodes_detach e (T j cs)). exists c. auto.
    + apply IH; [assumption | apply (NoDup_child (T j cs)); assumption | assumption | ].
      intros se Hse. apply Hout. apply (subtree_child e j cs c se Hnd Hc Hse).
Qed.

Lemma parentOf_detach_other (e f p : nat) (t : tree) :
  NoDup (ids t) -> parentOf f t = Some p ->
  (forall se, subtree e t = Some se -> ~ In f (ids se)) ->
  parentOf f (detach e t) = Some p.
Proof.
  induction t as [j cs IH] using tree_ind. rewrite Forall_forall in IH.
  intros Hnd Hp Hout.
  assert (Hje : j <> e).
  { intros ->. apply (Hout (T e cs)); [apply subtree_here | ].
    apply descendants_ids. eapply parentOf_below. eassumption. }
  apply parentOf_inv in Hp as [[-> (c & Hc & Hid)] | (c & Hc & Hp)].
  - assert (Hce : id c <> e).
    { intros E. apply (Hout c).
      - apply (subtree_child e j cs c c Hnd Hc). rewrite <- E. apply subtree_root.
      - rewrite <- Hid. apply id_in_ids. }
    cbn [detach]. apply (parentOf_here f j _ (detach e c)).
    + apply (in_childNodes_detach e (T j cs)). exists c. auto.
    + rewrite id_detach. assumption.
  - assert (Hfc : In f (ids c)).
    { apply descendants_ids. eapply parentOf_below. eassumption. }
    assert (Hce : id c <> e).
    { intros E. apply (Hout c); [ | assumption].
      apply (subtree_child e j cs c c Hnd Hc). rewrite <- E. apply subtree_root. }
    apply (parentOf_child f j _ (detach e c)).
    + apply (NoDup_detach e (T j cs)). assumption.
    + apply (in_childNodes_detach e (T j cs)). exists c. auto.
    + apply IH; [assumption | apply (NoDup_child (T j cs)); assumption | assumption | ].
      intros se Hse. apply Hout. apply (subtree_child e j cs c se Hnd Hc Hse).
Qed.

Lemma subtree_Some (i : nat) (t : tree) :
  In i (ids t) -> exists s, subtree i t = Some s.
Proof.
  intros H. destruct (subtree i t) as [s | ] eqn:E; [eauto | ].
  apply subtree_None in E. contradiction.
Qed.

Lemma subtree_ids (i : nat) (t s : tree) (x : nat) :
  subtree i t = Some s -> In x (ids s) -> In x (ids t).
Proof.
  intros Hs Hx. rewrite ids_descendants in Hx. destruct Hx as [<- | Hx].
  - rewrite (subtree_id _ _ _ Hs). eapply subtree_In. eassumption.
  - apply descendants_ids. eapply subtree_descendants; eassumption.
Qed.

Lemma subtree_fresh (p c : nat) (t : tree) :
  NoDup (ids t) -> ~ In c (ids t) -> In p (ids t) ->
  subtree c (attach p c t) = Some (T c []).
Proof.
  induction t as [j cs IH] using tree_ind. rewrite Forall_forall in IH.
  intros Hnd Hc Hp.
  assert (Hj : j <> c) by (intros ->; apply Hc; left; reflexivity).
  assert (Hnd' : NoDup (ids (attach p c (T j cs)))) by (apply NoDup_attach; assumption).
  destruct (Nat.eq_dec j p) as [-> | Hjp].
  - rewrite attach_here in * by assumption.
    apply (subtree_child c p _ (T c [])); [assumption | | apply subtree_here].
    apply in_or_app. right. left. reflexivity.
  - destruct Hp as [Hp | Hp]; [contradiction | ].
    apply in_flat_map in Hp as (x & Hx & Hp).
    apply (subtree_child c j _ (attach p c x)); [assumption | | ].
    + apply (in_childNodes_attach p c (T j cs)). assumption.
    + apply IH; [assumption | apply (NoDup_child (T j cs)); assumption | | assumption].
      intros H. apply Hc. right. apply in_flat_map. exists x. auto.
Qed.

End TreeSurgery.

(** ** One validation after the other *)

Section FieldStep.

Variables (field p : nat) (d : document).
Hypothesis Hwf : wellFormed d.
Hypothesis Htidy : tidy d.
Hypothesis Hparent : parentOf field (body d) = Some p.
Hypothesis Hplain : plainField field d.

Lemma ids_detach_ne (e x : nat) (t : tree) :
  NoDup (ids t) -> In e (descendants t) -> In x (ids (detach e t)) -> x <> e.
Proof.
  intros Hnd He Hx. rewrite ids_descendants in Hx. destruct Hx as [<- | Hx].
  - rewrite id_detach. intros E. apply (root_not_below t Hnd). rewrite E. assumption.
  - apply descendants_detach in Hx. tauto.
Qed.

Lemma tidy_leaf (e : nat) (se : tree) (x : nat) :
  subtree e (body d) = Some se -> matches (ByClass "field-error") (heap d e) = true ->
  In x (ids se) -> x = e.
Proof.
  intros Hse Hm Hx. destruct (Htidy e se Hse Hm) as [Hleaf _].
  pose proof (subtree_id _ _ _ Hse) as Hid.
  destruct se as [j cs]. cbn [childNodes id] in *. subst cs j.
  destruct Hx as [Hx | []]. congruence.
Qed.

Lemma clear_step :
  exists d1,
    clearFieldError field d = Ok tt d1 /\
    wellFormed d1 /\ tidy d1 /\ nextId d1 = nextId d /\
    parentOf field (body d1) = Some p /\
    plainField field d1 /\ marked field d1 = false /\
    (forall i, i <> field -> heap d1 i = heap d i) /\
    heap d1 field =
      with_classList (filter (fun x => negb (String.eqb "error" x))
                        (classList (heap d field))) (heap d field) /\
    (forall j q, parentOf j (body d) = Some q -> matches (ByClass "field-error") (heap d j) = false ->
                 parentOf j (body d1) = Some q) /\
    listeners d1 = listeners d /\ timers d1 = timers d /\ clock d1 = clock d.
Proof.
  destruct (clearFieldError_spec field p d Hwf Hparent Hplain)
    as (d1 & Hclear & Hwf1 & Hn1 & Hp1 & Hplain1 & Hmark1 & _ &
        Hother & Hfield & _ & Hbody & Hl & Ht & Hc).
  destruct Hwf as (Hnd & Hlt & Htm).
  exists d1. split; [assumption | ]. split; [assumption | ].
  assert (Hfe : forall y, matches (ByClass "field-error") (heap d1 y) = matches (ByClass "field-error") (heap d y) /\
                          localName (heap d1 y) = localName (heap d y)).
  { intros y. destruct (Nat.eq_dec y field) as [-> | Hyf].
    - rewrite Hfield. split; [ | reflexivity]. simpl.
      apply existsb_remove_other. discriminate.
    - rewrite Hother by assumption. auto. }
  (* the element that is removed, if there is one *)
  assert (He : forall e, hd_error (select (ByClass "field-error") p d) = Some e ->
             In e (descendants (body d)) /\ matches (ByClass "field-error") (heap d e) = true).
  { intros e Hhd. unfold select in Hhd.
    destruct (subtree p (body d)) as [sp | ] eqn:Esp; [ | discriminate Hhd].
    destruct (filter _ (descendants sp)) as [ | y rest] eqn:Ef; [discriminate | ].
    injection Hhd as ->.
    assert (Hin : In e (filter (fun i => matches (ByClass "field-error") (heap d i)) (descendants sp)))
      by (rewrite Ef; left; reflexivity).
    apply filter_In in Hin as [Hin Hm]. split; [ | assumption].
    eapply subtree_descendants; eassumption. }
  split.
  { (* tidy *)
    intros i s Hs Hm.
    destruct (Hfe i) as [Hm' Hname]. rewrite Hm' in Hm. rewrite Hname.
    rewrite Hbody in Hs.
    destruct (hd_error (select (ByClass "field-error") p d)) as [e | ] eqn:Ehd;
      [ | apply (Htidy i s); assumption].
    destruct (He e eq_refl) as [Hein Hem].
    assert (Hi : In i (ids (detach e (body d)))) by (eapply subtree_In; eassumption).
    assert (Hie : i <> e) by (eapply ids_detach_ne; eassumption).
    destruct (subtree_Some i (body d) (ids_detach _ _ _ Hi)) as (s0 & Hs0).
    destruct (Htidy i s0 Hs0 Hm) as [Hleaf Hdiv]. split; [ | assumption].
    assert (Hs' : subtree i (detach e (body d)) = Some (detach e s0)).
    { apply subtree_detach_other; [assumption | assumption | ].
      intros se Hse Hin. apply Hie. eapply tidy_leaf; eassumption. }
    rewrite Hs' in Hs. injection Hs as <-.
    destruct s0 as [j cs]. cbn [childNodes] in Hleaf. subst cs. reflexivity. }
  split; [assumption | ]. split; [assumption | ]. split; [assumption | ].
  split; [assumption | ]. split; [assumption | ]. split; [assumption | ].
  split; [ | auto].
  intros j q Hq Hjm. rewrite Hbody.
  destruct (hd_error (select (ByClass "field-error") p d)) as [e | ] eqn:Ehd; [ | assumption].
  destruct (He e eq_refl) as [Hein Hem].
  apply parentOf_detach_other; [assumption | assumption | ].
  intros se Hse Hin.
  assert (j = e) by (eapply tidy_leaf; eassumption). subst j.
  congruence.
Qed.

Lemma showFieldError_created (message : string) (d2 : document) :
  showFieldError field message d = Ok tt d2 ->
  localName (heap d2 (nextId d)) = "div" /\
  classList (heap d2 (nextId d)) = ["field-error"; "security-warning"].
Proof.
  destruct (clearFieldError_spec field p d Hwf Hparent Hplain)
    as (d1 & Hclear & (Hnd1 & Hlt1 & _) & Hn1 & Hp1 & _).
  assert (Hne : nextId d1 <> field).
  { intros E. assert (Hin : In field (ids (body d1))).
    { apply descendants_ids. eapply parentOf_below. eassumption. }
    apply Hlt1 in Hin. lia. }
  unfold showFieldError, bind. rewrite Hclear.
  unfold createElement, setClassName, classListAdd, appendChild,
    parentNode, nonNull.
  unfold set, modify, gets, ret.
  cbn [heap body nextId with_heap with_body with_nextId].
  rewrite Hp1. intros H. injection H as <-.
  cbn [heap with_heap with_body with_nextId]. rewrite <- Hn1.
  rewrite (upd_other _ field (nextId d1)) by assumption. repeat rewrite upd_same.
  split; reflexivity.
Qed.

Lemma show_step (message : string) :
  exists d2,
    showFieldError field message d = Ok tt d2 /\
    wellFormed d2 /\ tidy d2 /\ nextId d2 = S (nextId d) /\
    parentOf field (body d2) = Some p /\
    plainField field d2 /\ marked field d2 = true /\
    (forall i, i <> field -> i <> nextId d -> heap d2 i = heap d i) /\
    heap d2 field = with_classList (classList (heap d2 field)) (heap d field) /\
    (forall j q, parentOf j (body d) = Some q -> matches (ByClass "field-error") (heap d j) = false ->
                 parentOf j (body d2) = Some q) /\
    listeners d2 = listeners d /\ timers d2 = timers d /\ clock d2 = clock d.
Proof.
  destruct clear_step
    as (d1 & Hclear & Hwf1 & Htidy1 & Hn1 & Hp1 & Hplain1 & _ & Hoth1 & Hfld1 &
        Hpar1 & _).
  destruct (showFieldError_spec field p d message Hwf Hparent Hplain)
    as (d1' & d2 & Hclear' & Hshow & Hwf2 & Hn2 & Hp2 & Hplain2 & Hmark2 & _ & _ &
        Hoth2 & Hfld2 & Hbody2 & Hl & Ht & Hc & _).
  rewrite Hclear in Hclear'. injection Hclear' as <-.
  destruct (showFieldError_created message d2 Hshow) as [Hdiv Hcls].
  destruct Hwf1 as (Hnd1 & Hlt1 & Htm1).
  assert (Hfresh : ~ In (nextId d) (ids (body d1))).
  { intros H. apply Hlt1 in H. lia. }
  destruct (parentOf_subtree _ _ _ Hnd1 Hp1) as (sp & Hsp & Hchild).
  exists d2. split; [assumption | ]. split; [assumption | ].
  split.
  { (* tidy *)
    intros i s Hs Hm. rewrite Hbody2 in Hs.
    destruct (Nat.eq_dec i (nextId d)) as [-> | Hin].
    - rewrite subtree_fresh in Hs;
        [ | assumption | assumption | eapply subtree_In; eassumption].
      injection Hs as <-. split; [reflexivity | assumption].
    - assert (Hi : In i (ids (body d1))).
      { apply subtree_In in Hs. apply ids_attach in Hs as [Hs | [Hs _]];
          [assumption | contradiction]. }
      destruct (subtree_Some i (body d1) Hi) as (s0 & Hs0).
      rewrite (subtree_attach _ _ _ _ _ Hnd1 Hfresh Hs0) in Hs. injection Hs as <-.
      assert (Hif : i <> field).
      { intros ->. unfold plainField in Hplain2. congruence. }
      assert (Heq : heap d2 i = heap d1 i).
      { rewrite Hoth2, Hoth1 by assumption. reflexivity. }
      rewrite Heq in Hm. rewrite Heq.
      destruct (Htidy1 i s0 Hs0 Hm) as [Hleaf Hname]. split; [ | assumption].
      pose proof (subtree_id _ _ _ Hs0) as Hid.
      destruct s0 as [j cs]. cbn [childNodes id] in *. subst cs j.
      assert (Hip : i <> p).
      { intros ->. rewrite Hsp in Hs0. injection Hs0 as ->. destruct Hchild. }
      cbn [attach map app]. apply Nat.eqb_neq in Hip. rewrite Hip. reflexivity. }
  split; [assumption | ]. split; [assumption | ]. split; [assumption | ].
  split; [assumption | ]. split; [assumption | ]. split; [assumption | ].
  split; [ | auto].
  intros j q Hq Hjm. rewrite Hbody2. apply parentOf_attach; auto.
Qed.

Lemma passes_cases :
  passes (heap d field) =
  if String.eqb (type (heap d field)) "email"
     && JSString.truthy (JSString.trim (value (heap d field)))
     && negb (RegExp.test emailRegex (JSString.trim (value (heap d field))))
  then false
  else if required (heap d field)
          && negb (JSString.truthy (JSString.trim (value (heap d field))))
  then false else true.
Proof.
  unfold passes. cbv zeta.
  destruct (String.eqb (type (heap d field)) "email"
            && JSString.truthy (JSString.trim (value (heap d field)))
            && negb (RegExp.test emailRegex (JSString.trim (value (heap d field)))));
    [reflexivity | ].
  destruct (required (heap d field)
            && negb (JSString.truthy (JSString.trim (value (heap d field)))));
    reflexivity.
Qed.

(** What one validation does to the page. *)
Lemma validateField_step :
  exists d',
    validateField field d = Ok (passes (heap d field)) d' /\
    wellFormed d' /\ tidy d' /\
    marked field d' = negb (passes (heap d field)) /\
    plainField field d' /\
    (forall i, i <> field -> i < nextId d -> heap d' i = heap d i) /\
    heap d' field = with_classList (classList (heap d' field)) (heap d field) /\
    (forall j q, parentOf j (body d) = Some q -> matches (ByClass "field-error") (heap d j) = false ->
                 parentOf j (body d') = Some q) /\
    nextId d <= nextId d' /\
    (passes (heap d field) = true -> nextId d' = nextId d) /\
    listeners d' = listeners d /\ timers d' = timers d /\ clock d' = clock d.
Proof.
  rewrite (validateField_cases field d), passes_cases.
  destruct (String.eqb (type (heap d field)) "email"
            && JSString.truthy (JSString.trim (value (heap d field)))
            && negb (RegExp.test emailRegex (JSString.trim (value (heap d field))))).
  - destruct (show_step "Please enter a valid email address")
      as (d2 & Hshow & Hwf2 & Htidy2 & Hn2 & _ & Hpl & Hmark & Hoth & Hfld & Hpar &
          Hl & Ht & Hc).
    exists d2. unfold bind. rewrite Hshow.
    split; [reflexivity | ]. split; [assumption | ]. split; [assumption | ].
    split; [assumption | ]. split; [assumption | ].
    split; [intros i Hi Hlt; apply Hoth; [assumption | lia] | ].
    split; [assumption | ]. split; [assumption | ].
    split; [lia | ]. split; [discriminate | auto].
  - destruct (required (heap d field)
              && negb (JSString.truthy (JSString.trim (value (heap d field))))).
    + destruct (show_step "This field is required")
        as (d2 & Hshow & Hwf2 & Htidy2 & Hn2 & _ & Hpl & Hmark & Hoth & Hfld & Hpar &
            Hl & Ht & Hc).
      exists d2. unfold bind. rewrite Hshow.
      split; [reflexivity | ]. split; [assumption | ]. split; [assumption | ].
      split; [assumption | ]. split; [assumption | ].
      split; [intros i Hi Hlt; apply Hoth; [assumption | lia] | ].
      split; [assumption | ]. split; [assumption | ].
      split; [lia | ]. split; [discriminate | auto].
    + destruct clear_step
        as (d1 & Hclear & Hwf1 & Htidy1 & Hn1 & _ & Hpl & Hmark & Hoth & Hfld & Hpar &
            Hl & Ht & Hc).
      exists d1. unfold bind. rewrite Hclear.
      split; [reflexivity | ]. split; [assumption | ]. split; [assumption | ].
      split; [assumption | ]. split; [assumption | ].
      split; [intros i Hi Hlt; apply Hoth; assumption | ].
      split; [rewrite Hfld; reflexivity | ]. split; [assumption | ].
      split; [lia | ]. split; [intros _; assumption | auto].
Qed.

End FieldStep.

Section FormLoop.

Lemma forallb_passes_ext (l : list nat) (h1 h2 : nat -> element) :
  (forall i, In i l -> h1 i = h2 i) ->
  forallb (fun i => passes (h1 i)) l = forallb (fun i => passes (h2 i)) l.
Proof.
  induction l as [ | x l IH]; intros H; [reflexivity | ].
  cbn [forallb]. rewrite (H x (or_introl eq_refl)). f_equal.
  apply IH. intros i Hi. apply H. right. assumption.
Qed.

Lemma in_tree_lt (d : document) (j q : nat) :
  wellFormed d -> parentOf j (body d) = Some q -> j < nextId d.
Proof.
  intros (_ & Hlt & _) Hq. apply Hlt, descendants_ids.
  eapply parentOf_below. eassumption.
Qed.

Lemma validateInputs_spec (inputs : list nat) :
  forall (d : document) (isValid : bool),
    wellFormed d -> tidy d -> NoDup inputs ->
    (forall i, In i inputs ->
       plainField i d /\ exists q, parentOf i (body d) = Some q) ->
    exists d',
      validateInputs inputs isValid d =
        Ok (isValid && forallb (fun i => passes (heap d i)) inputs) d' /\
      wellFormed d' /\ tidy d' /\
      (forall i, In i inputs -> marked i d' = negb (passes (heap d i))) /\
      (forall i, i < nextId d -> ~ In i inputs -> heap d' i = heap d i) /\
      (forall i, i < nextId d ->
         heap d' i = with_classList (classList (heap d' i)) (heap d i)) /\
      (forall j q, parentOf j (body d) = Some q -> plainField j d ->
         parentOf j (body d') = Some q /\ plainField j d') /\
      nextId d <= nextId d' /\
      (forallb (fun i => passes (heap d i)) inputs = true -> nextId d' = nextId d) /\
      listeners d' = listeners d /\ timers d' = timers d /\ clock d' = clock d.
Proof.
  induction inputs as [ | x rest IH]; intros d isValid Hwf Htidy Hnd Hin.
  - exists d. cbn [validateInputs forallb]. rewrite andb_true_r.
    split; [reflexivity | ]. split; [assumption | ]. split; [assumption | ].
    split; [intros i [] | ]. split; [reflexivity | ].
    split; [intros i _; destruct (heap d i); reflexivity | ].
    split; [auto | ]. split; [lia | ]. auto.
  - destruct (Hin x (or_introl eq_refl)) as (Hplain & p & Hp).
    destruct (validateField_step x p d Hwf Htidy Hp Hplain)
      as (d1 & Hval & Hwf1 & Htidy1 & Hmark1 & Hplain1 & Hoth1 & Hfld1 & Hpar1 &
          Hle1 & Hsame1 & Hl1 & Ht1 & Hc1).
    inversion Hnd as [ | ? ? Hx Hnd']; subst.
    assert (Hkeep : forall j q, parentOf j (body d) = Some q -> plainField j d ->
                      parentOf j (body d1) = Some q /\ plainField j d1).
    { intros j q Hq Hj. split; [apply Hpar1; assumption | ].
      destruct (Nat.eq_dec j x) as [-> | Hjx]; [assumption | ].
      unfold plainField. rewrite Hoth1; [assumption | assumption | ].
      eapply in_tree_lt; eassumption. }
    assert (Hrest : forall i, In i rest -> heap d1 i = heap d i).
    { intros i Hi. destruct (Hin i (or_intror Hi)) as (_ & q & Hq).
      apply Hoth1; [intros -> ; contradiction | eapply in_tree_lt; eassumption]. }
    destruct (IH d1 (if negb (passes (heap d x)) then false else isValid)
                Hwf1 Htidy1 Hnd') as
      (d' & Hrun & Hwf' & Htidy' & Hmark' & Hoth' & Hcls' & Hpar' & Hle' & Hsame' &
       Hl' & Ht' & Hc').
    { intros i Hi. destruct (Hin i (or_intror Hi)) as (Hpl & q & Hq).
      destruct (Hkeep i q Hq Hpl). eauto. }
    exists d'. split.
    { cbn [validateInputs]. unfold bind at 1. rewrite Hval, Hrun.
      f_equal. cbn [forallb]. rewrite (forallb_passes_ext rest _ _ Hrest).
      destruct (passes (heap d x)), isValid; reflexivity. }
    split; [assumption | ]. split; [assumption | ].
    assert (Hxlt : x < nextId d) by (eapply in_tree_lt; eassumption).
    split.
    { intros i [<- | Hi].
      - unfold marked in *. rewrite Hoth'; [assumption | lia | assumption].
      - rewrite (Hmark' i Hi), (Hrest i Hi). reflexivity. }
    split.
    { intros i Hi Hni. rewrite Hoth'; [ | lia | intros H; apply Hni; right; assumption].
      apply Hoth1; [ | assumption]. intros ->. apply Hni. left. reflexivity. }
    split.
    { intros i Hi. rewrite (Hcls' i) by lia.
      destruct (Nat.eq_dec i x) as [-> | Hix].
      - rewrite Hfld1. reflexivity.
      - rewrite (Hoth1 i Hix Hi). reflexivity. }
    split.
    { intros j q Hq Hj. destruct (Hkeep j q Hq Hj). auto. }
    split; [lia | ]. split; [ | rewrite Hl', Ht', Hc'; auto].
    cbn [forallb]. intros H. apply andb_true_iff in H as [H1 H2].
    rewrite Hsame'; [auto | ].
    rewrite (forallb_passes_ext rest _ _ Hrest). assumption.
Qed.

Lemma tidy_plain (d : document) (i : nat) :
  tidy d -> In i (ids (body d)) ->
  matches (Or (ByTag "input") (ByTag "textarea")) (heap d i) = true ->
  plainField i d.
Proof.
  intros Htidy Hi Hm. unfold plainField.
  destruct (matches (ByClass "field-error") (heap d i)) eqn:E; [ | reflexivity].
  destruct (subtree_Some i (body d) Hi) as (s & Hs).
  destruct (Htidy i s Hs E) as [_ Hdiv].
  cbn [matches] in Hm. rewrite Hdiv in Hm. discriminate Hm.
Qed.

Lemma select_In (sel : selector) (root : nat) (d : document) (i : nat) :
  In i (select sel root d) ->
  In i (descendants (body d)) /\ matches sel (heap d i) = true /\
  exists s, subtree root (body d) = Some s /\ In i (descendants s).
Proof.
  unfold select. destruct (subtree root (body d)) as [s | ] eqn:Es; [ | intros []].
  intros H. apply filter_In in H as [H Hm].
  split; [eapply subtree_descendants; eassumption | ].
  split; [assumption | eauto].
Qed.

Lemma NoDup_select (sel : selector) (root : nat) (d : document) :
  wellFormed d -> NoDup (select sel root d).
Proof.
  intros (Hnd & _). unfold select.
  destruct (subtree root (body d)) as [s | ] eqn:Es; [ | constructor].
  apply NoDup_filter, NoDup_descendants. eapply subtree_NoDup; eassumption.
Qed.

Lemma has_parent (t : tree) (i : nat) :
  In i (descendants t) -> exists q, parentOf i t = Some q.
Proof.
  intros H. destruct (parentOf i t) as [q | ] eqn:E; [eauto | ].
  apply parentOf_None in E. contradiction.
Qed.

Lemma validateForm_spec (form : nat) (d : document) :
  wellFormed d -> tidy d ->
  exists d',
    validateForm form d =
      Ok (forallb (fun i => passes (heap d i))
            (select (Or (ByTag "input") (ByTag "textarea")) form d)) d' /\
    wellFormed d' /\ tidy d' /\
    (forall i, In i (select (Or (ByTag "input") (ByTag "textarea")) form d) ->
       marked i d' = negb (passes (heap d i))) /\
    (forall i, i < nextId d ->
       ~ In i (select (Or (ByTag "input") (ByTag "textarea")) form d) ->
       heap d' i = heap d i) /\
    (forall i, i < nextId d ->
       heap d' i = with_classList (classList (heap d' i)) (heap d i)) /\
    nextId d <= nextId d' /\
    (forallb (fun i => passes (heap d i))
       (select (Or (ByTag "input") (ByTag "textarea")) form d) = true ->
     nextId d' = nextId d) /\
    listeners d' = listeners d /\ timers d' = timers d /\ clock d' = clock d.
Proof.
  intros Hwf Htidy.
  destruct (validateInputs_spec
              (select (Or (ByTag "input") (ByTag "textarea")) form d) d true
              Hwf Htidy (NoDup_select _ _ _ Hwf))
    as (d' & Hrun & Hwf' & Htidy' & Hmark & Hoth & Hcls & _ & Hle & Hsame & Hrest).
  { intros i Hi. apply select_In in Hi as (Hi & Hm & _).
    split; [ | apply has_parent; assumption].
    apply tidy_plain; [assumption | apply descendants_ids; assumption | assumption]. }
  exists d'. split.
  { unfold validateForm, bind, querySelectorAll, gets. exact Hrun. }
  tauto.
Qed.

Lemma validateField_verdict (form i : nat) (d : document) :
  wellFormed d -> tidy d ->
  In i (select (Or (ByTag "input") (ByTag "textarea")) form d) ->
  exists di, validateField i d = Ok (passes (heap d i)) di.
Proof.
  intros Hwf Htidy Hi. apply select_In in Hi as (Hi & Hm & _).
  destruct (has_parent _ _ Hi) as (q & Hq).
  assert (Hpl : plainField i d).
  { apply tidy_plain; [assumption | apply descendants_ids; assumption | assumption]. }
  destruct (validateField_step i q d Hwf Htidy Hq Hpl) as (di & H & _).
  eauto.
Qed.

Lemma tidy_clean (d : document) :
  forallb (fun i => negb (matches (ByClass "field-error") (heap d i)))
    (ids (body d)) = true ->
  tidy d.
Proof.
  intros H i s Hs Hm. rewrite forallb_forall in H.
  apply subtree_In in Hs. apply H in Hs. rewrite Hm in Hs. discriminate Hs.
Qed.

End FormLoop.

(** X10: on a tidy page [validateForm] never throws; it validates every
    input and textarea of the form, also after a failure, and answers
    [true] exactly when each of them passes [validateField] on the page as
    it was.  Afterwards each of them is marked exactly when it fails, and
    the elements keep all their properties but the class list. *)
Theorem validateForm_every_field (form : nat) (d : document) :
  wellFormed d -> tidy d ->
  exists b d',
    validateForm form d = Ok b d' /\
    (b = true <->
     forall i, In i (select (Or (ByTag "input") (ByTag "textarea")) form d) ->
       exists di, validateField i d = Ok true di) /\
    (forall i, In i (select (Or (ByTag "input") (ByTag "textarea")) form d) ->
       exists bi di, validateField i d = Ok bi di /\ marked i d' = negb bi) /\
    (forall i, i < nextId d ->
       heap d' i = with_classList (classList (heap d' i)) (heap d i)).
Proof.
  intros Hwf Htidy.
  destruct (validateForm_spec form d Hwf Htidy)
    as (d' & Hrun & _ & _ & Hmark & _ & Hcls & _).
  eexists. exists d'. split; [exact Hrun | ].
  split; [ | split; [ | exact Hcls]].
  - rewrite forallb_forall. split.
    + intros H i Hi. destruct (validateField_verdict form i d Hwf Htidy Hi) as (di & Hv).
      rewrite (H i Hi) in Hv. eauto.
    + intros H i Hi. destruct (H i Hi) as (di & Hv).
      destruct (validateField_verdict form i d Hwf Htidy Hi) as (di' & Hv').
      rewrite Hv in Hv'. injection Hv' as Hb _. auto.
  - intros i Hi. destruct (validateField_verdict form i d Hwf Htidy Hi) as (di & Hv).
    exists (passes (heap d i)), di. split; [assumption | apply Hmark; assumption].
Qed.

(** X10 on the form of [twoFieldPage]. *)
Lemma validateForm_every_field_witness :
  exists b d',
    validateForm 1 twoFieldPage = Ok b d' /\
    (b = true <->
     forall i, In i (select (Or (ByTag "input") (ByTag "textarea")) 1 twoFieldPage) ->
       exists di, validateField i twoFieldPage = Ok true di) /\
    (forall i, In i (select (Or (ByTag "input") (ByTag "textarea")) 1 twoFieldPage) ->
       exists bi di, validateField i twoFieldPage = Ok bi di /\ marked i d' = negb bi) /\
    (forall i, i < nextId twoFieldPage ->
       heap d' i = with_classList (classList (heap d' i)) (heap twoFieldPage i)).
Proof.
  apply (validateForm_every_field 1 twoFieldPage).
  - apply wellFormedb_sound. reflexivity.
  - apply tidy_clean. reflexivity.
Defined.

(** X11: [validateField] keeps what it needs.  After it the page is still
    well formed and tidy, the field is still plain and has the parent it
    had, and so has every other plain element: the field, and any other,
    can be validated again. *)
Theorem validateField_preserves (field p : nat) (d : document) :
  wellFormed d -> tidy d ->
  parentOf field (body d) = Some p -> plainField field d ->
  exists b d',
    validateField field d = Ok b d' /\
    wellFormed d' /\ tidy d' /\
    parentOf field (body d') = Some p /\ plainField field d' /\
    (forall j q, parentOf j (body d) = Some q -> plainField j d ->
       parentOf j (body d') = Some q).
Proof.
  intros Hwf Htidy Hp Hplain.
  destruct (validateField_step field p d Hwf Htidy Hp Hplain)
    as (d' & Hv & Hwf' & Htidy' & _ & Hplain' & _ & _ & Hpar & _).
  exists (passes (heap d field)), d'. split; [assumption | ].
  split; [assumption | ]. split; [assumption | ].
  split; [apply Hpar; assumption | ]. split; [assumption | ].
  intros j q Hq Hj. apply Hpar; assumption.
Qed.

(** X11 on the field of [requiredPage]. *)
Lemma validateField_preserves_witness :
  exists b d',
    validateField 3 requiredPage = Ok b d' /\
    wellFormed d' /\ tidy d' /\
    parentOf 3 (body d') = Some 2 /\ plainField 3 d'.
Proof.
  destruct (validateField_preserves 3 2 requiredPage)
    as (b & d' & H1 & H2 & H3 & H4 & H5 & _).
  - apply wellFormedb_sound. reflexivity.
  - apply tidy_clean. reflexivity.
  - reflexivity.
  - reflexivity.
  - exists b, d'. auto.
Defined.

(** ** The pass over the forms *)

Section Pass.

Variable self : instance.

Lemma forEach_listen_eq (inputs : list nat) (d : document) :
  forEach inputs (fun input =>
    addEventListener input "blur" (OnBlur input) ;;
    addEventListener input "input" (OnInput input)) d =
  Ok tt (with_listeners (listeners d ++ flat_map fieldListeners inputs) d).
Proof.
  revert d. induction inputs as [ | i inputs IH]; intros d.
  - cbn [forEach flat_map]. rewrite app_nil_r. destruct d; reflexivity.
  - cbn [forEach]. unfold bind at 1. unfold bind at 1, addEventListener, modify.
    rewrite IH. cbn [listeners with_listeners flat_map fieldListeners app].
    unfold with_listeners. cbn [body heap nextId listeners timers clock].
    rewrite <- !app_assoc. reflexivity.
Qed.

Lemma select_ext (sel : selector) (q : nat) (d d' : document) :
  body d' = body d -> (forall i, heap d' i = heap d i) ->
  select sel q d' = select sel q d.
Proof.
  intros Hb Hh. unfold select. rewrite Hb.
  destruct (subtree q (body d)); [ | reflexivity].
  apply filter_ext. intros i. rewrite Hh. reflexivity.
Qed.

Lemma descendants_iff (s : tree) (x : nat) :
  NoDup (ids s) -> (In x (descendants s) <-> In x (ids s) /\ x <> id s).
Proof.
  intros Hnd. split.
  - intros H. split; [apply descendants_ids; assumption | ].
    intros ->. apply (root_not_below s Hnd). assumption.
  - intros [H Hne]. rewrite ids_descendants in H. destruct H as [H | H]; [congruence | assumption].
Qed.

Lemma descendants_attach_iff (p c : nat) (s : tree) (x : nat) :
  NoDup (ids s) -> ~ In c (ids s) ->
  (In x (descendants (attach p c s)) <->
   In x (descendants s) \/ (x = c /\ In p (ids s))).
Proof.
  intros Hnd Hc.
  rewrite (descendants_iff (attach p c s)) by (apply NoDup_attach; assumption).
  rewrite (descendants_iff s) by assumption.
  rewrite ids_attach, id_attach. split.
  - intros [[H | H] Hne]; auto.
  - intros [[H Hne] | [-> H]]; [auto | ].
    split; [auto | ]. intros E. apply Hc. rewrite E. apply id_in_ids.
Qed.

Lemma select_attach_matches (sel : selector) (q p c : nat) (s : tree)
    (d d' : document) :
  NoDup (ids (body d)) -> ~ In c (ids (body d)) ->
  body d' = attach p c (body d) ->
  (forall i, i <> c -> matches sel (heap d' i) = matches sel (heap d i)) ->
  subtree q (body d) = Some s ->
  forall x,
    In x (select sel q d') <->
    In x (select sel q d) \/
    (x = c /\ matches sel (heap d' c) = true /\ In p (ids s)).
Proof.
  intros Hnd Hc Hb Hh Hs x. unfold select. rewrite Hb.
  rewrite (subtree_attach _ _ _ _ _ Hnd Hc Hs), Hs.
  assert (Hnds : NoDup (ids s)) by (eapply subtree_NoDup; eassumption).
  assert (Hcs : ~ In c (ids s)).
  { intros H. apply Hc. eapply subtree_ids; eassumption. }
  rewrite !filter_In, descendants_attach_iff by assumption. split.
  - intros [[H | [-> H]] Hm]; [left | right; auto].
    split; [assumption | ]. rewrite <- Hh; [assumption | ].
    intros ->. apply Hcs. apply descendants_ids. assumption.
  - intros [[H Hm] | (-> & Hm & H)]; [ | auto].
    split; [auto | ]. rewrite Hh; [assumption | ].
    intros ->. apply Hcs. apply descendants_ids. assumption.
Qed.

Lemma select_attach (sel : selector) (q p c : nat) (s : tree) (d d' : document) :
  NoDup (ids (body d)) -> ~ In c (ids (body d)) ->
  body d' = attach p c (body d) ->
  (forall i, i <> c -> heap d' i = heap d i) ->
  subtree q (body d) = Some s ->
  forall x,
    In x (select sel q d') <->
    In x (select sel q d) \/
    (x = c /\ matches sel (heap d' c) = true /\ In p (ids s)).
Proof.
  intros Hnd Hc Hb Hh Hs. apply select_attach_matches; try assumption.
  intros i Hi. rewrite (Hh i Hi). reflexivity.
Qed.

Lemma tidy_attach (p c : nat) (d d' : document) :
  wellFormed d -> tidy d -> ~ In c (ids (body d)) ->
  body d' = attach p c (body d) ->
  (forall i, i <> c -> heap d' i = heap d i) ->
  matches (ByClass "field-error") (heap d' c) = false ->
  matches (ByClass "field-error") (heap d p) = false ->
  tidy d'.
Proof.
  intros (Hnd & _) Htidy Hc Hb Hh Hnew Hp i s Hs Hm.
  rewrite Hb in Hs.
  assert (Hic : i <> c) by (intros ->; congruence).
  assert (Hi : In i (ids (body d))).
  { apply subtree_In in Hs. apply ids_attach in Hs as [Hs | [Hs _]];
      [assumption | contradiction]. }
  destruct (subtree_Some i (body d) Hi) as (s0 & Hs0).
  rewrite (subtree_attach _ _ _ _ _ Hnd Hc Hs0) in Hs. injection Hs as <-.
  rewrite (Hh i Hic) in Hm. rewrite (Hh i Hic).
  destruct (Htidy i s0 Hs0 Hm) as [Hleaf Hname]. split; [ | assumption].
  pose proof (subtree_id _ _ _ Hs0) as Hid.
  destruct s0 as [j cs]. cbn [childNodes id] in *. subst cs j.
  assert (Hip : i <> p) by (intros ->; congruence).
  cbn [attach map app]. apply Nat.eqb_neq in Hip. rewrite Hip. reflexivity.
Qed.

(** One form. *)
Lemma enhanceForm_run (form : nat) (d : document) :
  wellFormed d -> In form (ids (body d)) ->
  exists d',
    enhanceForm self form d = Ok tt d' /\
    wellFormed d' /\ timers d' = timers d /\ clock d' = clock d /\
    listeners d' =
      listeners d ++
      submitListener form ::
      flat_map fieldListeners (select (Or (ByTag "input") (ByTag "textarea")) form d') /\
    select (ByName "csrf_token") form d' <> [] /\
    ((select (ByName "csrf_token") form d <> [] /\
      body d' = body d /\ nextId d' = nextId d /\
      (forall i, heap d' i = heap d i)) \/
     (select (ByName "csrf_token") form d = [] /\
      body d' = attach form (nextId d) (body d) /\ nextId d' = S (nextId d) /\
      (forall i, i <> nextId d -> heap d' i = heap d i) /\
      heap d' (nextId d) = tokenInput (csrfToken self))).
Proof.
  intros Hwf Hform. destruct (subtree_Some form (body d) Hform) as (s & Hs).
  unfold enhanceForm, bind at 1, querySelector, gets.
  destruct (select (ByName "csrf_token") form d) as [ | x rest] eqn:Hsel; cbn [hd_error].
  - destruct Hwf as (Hnd & Hlt & Htm).
    unfold bind at 1. rewrite createElement_then.
    erewrite set_known by (cbn [heap with_heap with_nextId]; apply upd_same).
    erewrite set_known by (cbn [heap with_heap with_nextId]; apply upd_same).
    erewrite set_known by (cbn [heap with_heap with_nextId]; apply upd_same).
    unfold appendChild, modify.
    unfold bind at 1, addEventListener at 1, modify.
    unfold bind at 1, querySelectorAll, gets.
    rewrite forEach_listen_eq.
    eexists. split; [reflexivity | ].
    match goal with |- wellFormed ?D /\ _ => set (d' := D) end.
    assert (Hfresh : ~ In (nextId d) (ids (body d))).
    { intros H. apply Hlt in H. lia. }
    assert (Hb : body d' = attach form (nextId d) (body d)) by reflexivity.
    assert (Hn : nextId d' = S (nextId d)) by reflexivity.
    assert (Ht : timers d' = timers d) by reflexivity.
    assert (Hh : forall i, i <> nextId d -> heap d' i = heap d i).
    { intros i Hi. unfold d'.
      cbn [heap with_listeners with_body with_heap with_nextId].
      rewrite !upd_other by assumption. reflexivity. }
    assert (Hnew : heap d' (nextId d) = tokenInput (csrfToken self)).
    { unfold d'. cbn [heap with_listeners with_body with_heap with_nextId].
      rewrite upd_same. reflexivity. }
    split.
    { split; [ | split]; rewrite ?Hb, ?Hn, ?Ht.
      - apply NoDup_attach; assumption.
      - intros i Hi. apply ids_attach in Hi as [Hi | [-> _]]; [ | lia].
        apply Hlt in Hi. lia.
      - intros t Hin. apply Htm in Hin. lia. }
    split; [reflexivity | ]. split; [reflexivity | ].
    split.
    { unfold d' at 1.
      cbn [listeners with_listeners with_body with_heap with_nextId].
      rewrite <- app_assoc. reflexivity. }
    split.
    { intros Hnil.
      assert (Hin : In (nextId d) (select (ByName "csrf_token") form d')).
      { apply (select_attach _ form form (nextId d) s d d' Hnd Hfresh Hb Hh Hs).
        right. split; [reflexivity | ]. split.
        - rewrite Hnew. reflexivity.
        - rewrite <- (subtree_id _ _ _ Hs). apply id_in_ids. }
      rewrite Hnil in Hin. destruct Hin. }
    right. split; [reflexivity | ]. auto.
  - unfold bind at 1, ret at 1.
    unfold bind at 1, addEventListener at 1, modify.
    unfold bind at 1, querySelectorAll, gets.
    rewrite forEach_listen_eq.
    eexists. split; [reflexivity | ].
    cbn [body heap nextId listeners timers clock with_listeners].
    split; [exact Hwf | ].
    split; [reflexivity | ]. split; [reflexivity | ].
    split; [rewrite <- app_assoc; reflexivity | ].
    split.
    { erewrite select_ext; [rewrite Hsel; discriminate | reflexivity | reflexivity]. }
    left. split; [discriminate | ]. auto.
Qed.

End Pass.

Section PassLoop.

Variable self : instance.

Lemma filter_submit_fields (f : nat) (l : list nat) :
  filter (listening f "submit") (flat_map fieldListeners l) = [].
Proof.
  induction l as [ | x l IH]; [reflexivity | ].
  cbn [flat_map fieldListeners app filter].
  replace (listening f "submit"
             {| target := x; eventType := "blur"; callback := OnBlur x |})
    with false by (symmetry; apply andb_false_r).
  replace (listening f "submit"
             {| target := x; eventType := "input"; callback := OnInput x |})
    with false by (symmetry; apply andb_false_r).
  exact IH.
Qed.

(** What one form adds to the page. *)
Lemma enhanceForm_step (form : nat) (d : document) :
  wellFormed d -> In form (ids (body d)) ->
  exists d',
    enhanceForm self form d = Ok tt d' /\
    wellFormed d' /\ timers d' = timers d /\ clock d' = clock d /\
    id (body d') = id (body d) /\
    nextId d <= nextId d' /\ nextId d' <= S (nextId d) /\
    (forall i, i < nextId d -> heap d' i = heap d i) /\
    (forall i, nextId d <= i -> i < nextId d' ->
       heap d' i = tokenInput (csrfToken self) /\ In i (ids (body d'))) /\
    (forall i, In i (ids (body d)) -> In i (ids (body d'))) /\
    (forall sel q x, In x (select sel q d) -> In x (select sel q d')) /\
    (forall sel q x, In q (ids (body d)) -> In x (select sel q d') ->
       In x (select sel q d) \/ nextId d <= x) /\
    select (ByName "csrf_token") form d' <> [] /\
    (forall f, map callback (filter (listening f "submit") (listeners d')) =
               map callback (filter (listening f "submit") (listeners d)) ++
               map OnSubmit (filter (fun x => x =? f) [form])) /\
    (tidy d -> matches (ByClass "field-error") (heap d form) = false -> tidy d') /\
    (select (ByName "csrf_token") form d <> [] ->
     body d' = body d /\ nextId d' = nextId d /\ forall i, heap d' i = heap d i) /\
    listeners d' =
      listeners d ++
      submitListener form ::
      flat_map fieldListeners (select (Or (ByTag "input") (ByTag "textarea")) form d').
Proof.
  intros Hwf Hform.
  destruct (enhanceForm_run self form d Hwf Hform)
    as (d' & Hrun & Hwf' & Ht & Hc & Hl & Htok & Hcase).
  exists d'. split; [assumption | ]. split; [assumption | ].
  split; [assumption | ]. split; [assumption | ].
  assert (Hls : forall f, map callback (filter (listening f "submit") (listeners d')) =
               map callback (filter (listening f "submit") (listeners d)) ++
               map OnSubmit (filter (fun x => x =? f) [form])).
  { intros f. rewrite Hl, filter_app, map_app. f_equal.
    cbn [filter].
    replace (listening f "submit" (submitListener form)) with (form =? f)
      by (symmetry; apply andb_true_r).
    rewrite filter_submit_fields.
    destruct (form =? f); reflexivity. }
  destruct Hwf as (Hnd & Hlt & Htm).
  destruct Hcase as [(Hsel & Hb & Hn & Hh) | (Hsel & Hb & Hn & Hh & Hnew)].
  - split; [rewrite Hb; reflexivity | ].
    split; [lia | ]. split; [lia | ]. split; [auto | ].
    split; [intros i H1 H2; lia | ].
    split; [rewrite Hb; auto | ].
    split; [intros sel q x; rewrite (select_ext sel q d d' Hb Hh); auto | ].
    split; [intros sel q x _; rewrite (select_ext sel q d d' Hb Hh); auto | ].
    split; [assumption | ]. split; [assumption | ].
    split; [ | auto].
    intros Htidy _ i s Hs Hm. rewrite Hb in Hs. rewrite Hh in *.
    apply (Htidy i s); assumption.
  - assert (Hfresh : ~ In (nextId d) (ids (body d))).
    { intros H. apply Hlt in H. lia. }
    split; [rewrite Hb; apply id_attach | ].
    split; [lia | ]. split; [lia | ].
    split; [intros i Hi; apply Hh; lia | ].
    split.
    { intros i H1 H2. assert (i = nextId d) by lia. subst i.
      split; [assumption | ]. rewrite Hb. apply ids_attach. auto. }
    split; [intros i Hi; rewrite Hb; apply ids_attach; auto | ].
    split.
    { intros sel q x Hx.
      destruct (select_In _ _ _ _ Hx) as (Hx1 & Hx2 & s & Hs & Hx3).
      apply (select_attach sel q form (nextId d) s d d' Hnd Hfresh Hb Hh Hs x). auto. }
    split.
    { intros sel q x Hq Hx.
      destruct (subtree_Some q (body d) Hq) as (s & Hs).
      apply (select_attach sel q form (nextId d) s d d' Hnd Hfresh Hb Hh Hs x) in Hx.
      destruct Hx as [Hx | [-> _]]; [auto | right; lia]. }
    split; [assumption | ]. split; [assumption | ].
    split; [ | split; [intros H; contradiction | assumption]].
    intros Htidy Hf.
    apply (tidy_attach form (nextId d) d d'); try assumption.
    + split; [assumption | split; assumption].
    + rewrite Hnew. reflexivity.
Qed.

Lemma pass_spec (forms : list nat) :
  forall d : document,
    wellFormed d -> (forall f, In f forms -> In f (ids (body d))) ->
    exists d',
      forEach forms (enhanceForm self) d = Ok tt d' /\
      wellFormed d' /\ timers d' = timers d /\ clock d' = clock d /\
      id (body d') = id (body d) /\
      nextId d <= nextId d' /\ nextId d' <= nextId d + List.length forms /\
      (forall i, i < nextId d -> heap d' i = heap d i) /\
      (forall i, nextId d <= i -> i < nextId d' ->
         heap d' i = tokenInput (csrfToken self) /\ In i (ids (body d'))) /\
      (forall i, In i (ids (body d)) -> In i (ids (body d'))) /\
      (forall sel q x, In x (select sel q d) -> In x (select sel q d')) /\
      (forall sel q x, In q (ids (body d)) -> In x (select sel q d') ->
         In x (select sel q d) \/ nextId d <= x) /\
      (forall f, In f forms -> select (ByName "csrf_token") f d' <> []) /\
      (forall f, map callback (filter (listening f "submit") (listeners d')) =
                 map callback (filter (listening f "submit") (listeners d)) ++
                 map OnSubmit (filter (fun x => x =? f) forms)) /\
      (tidy d ->
       (forall f, In f forms -> matches (ByClass "field-error") (heap d f) = false) ->
       tidy d') /\
      ((forall f, In f forms -> select (ByName "csrf_token") f d <> []) ->
       body d' = body d /\ nextId d' = nextId d /\ forall i, heap d' i = heap d i).
Proof.
  induction forms as [ | x rest IH]; intros d Hwf Hin.
  - exists d. cbn [forEach List.length filter map].
    split; [reflexivity | ]. split; [assumption | ].
    split; [reflexivity | ]. split; [reflexivity | ]. split; [reflexivity | ].
    split; [lia | ]. split; [lia | ]. split; [auto | ].
    split; [intros i H1 H2; lia | ]. split; [auto | ]. split; [auto | ].
    split; [auto | ]. split; [intros f [] | ].
    split; [intros f; rewrite app_nil_r; reflexivity | ].
    split; [auto | ]. auto.
  - destruct (enhanceForm_step x d Hwf (Hin x (or_introl eq_refl)))
      as (d1 & Hrun1 & Hwf1 & Ht1 & Hc1 & Hid1 & Hle1 & Hub1 & Hold1 & Hnew1 & Hids1 &
          Hgrow1 & Hgain1 & Htok1 & Hls1 & Htidy1 & Hsame1 & Hlist1).
    destruct (IH d1 Hwf1) as
      (d' & Hrun & Hwf' & Ht & Hc & Hid & Hle & Hub & Hold & Hnew & Hids & Hgrow & Hgain &
       Htok & Hls & Htidy & Hsame).
    { intros f Hf. apply Hids1, Hin. right. assumption. }
    assert (Hxlt : forall f, In f (x :: rest) -> f < nextId d).
    { intros f Hf. destruct Hwf as (_ & Hlt & _). apply Hlt, Hin. assumption. }
    exists d'. split.
    { cbn [forEach]. unfold bind at 1. rewrite Hrun1. exact Hrun. }
    split; [assumption | ]. split; [congruence | ]. split; [congruence | ].
    split; [congruence | ].
    split; [lia | ]. split; [cbn [List.length]; lia | ].
    split; [intros i Hi; rewrite Hold by lia; apply Hold1; assumption | ].
    split.
    { intros i H1 H2. destruct (Nat.lt_ge_cases i (nextId d1)) as [Hlt | Hge].
      - destruct (Hnew1 i H1 Hlt) as [Hv Hi]. rewrite Hold by assumption. auto.
      - apply Hnew; assumption. }
    split; [auto | ]. split; [auto | ].
    split.
    { intros sel q y Hq Hy.
      apply (Hgain sel q y (Hids1 q Hq)) in Hy as [Hy | Hy]; [ | right; lia].
      apply (Hgain1 sel q y Hq) in Hy. assumption. }
    split.
    { intros f [<- | Hf]; [ | apply Htok; assumption].
      destruct (select (ByName "csrf_token") x d1) as [ | y l] eqn:E; [contradiction | ].
      intros Hnil.
      assert (Hy : In y (select (ByName "csrf_token") x d')).
      { apply Hgrow. rewrite E. left. reflexivity. }
      rewrite Hnil in Hy. destruct Hy. }
    split.
    { intros f. rewrite Hls, Hls1, <- app_assoc, <- map_app. f_equal. f_equal.
      cbn [filter]. destruct (x =? f); reflexivity. }
    split.
    { intros Htd Hf. apply Htidy.
      - apply Htidy1; [assumption | apply Hf; left; reflexivity].
      - intros f Hfr. rewrite Hold1; [apply Hf; right; assumption | ].
        apply Hxlt. right. assumption. }
    intros Hall.
    destruct (Hsame1 (Hall x (or_introl eq_refl))) as (Hb1 & Hn1 & Hh1).
    destruct Hsame as (Hb & Hn & Hh).
    { intros f Hf. rewrite (select_ext _ f d d1 Hb1 Hh1). apply Hall. right. assumption. }
    split; [congruence | ]. split; [congruence | ].
    intros i. rewrite Hh. apply Hh1.
Qed.

Lemma pass_listeners (forms : list nat) :
  forall d : document,
    wellFormed d -> (forall f, In f forms -> In f (ids (body d))) ->
    exists d' added,
      forEach forms (enhanceForm self) d = Ok tt d' /\
      listeners d' = listeners d ++ added /\
      (forall f, In f forms ->
         In (submitListener f) added /\
         forall i, In i (select (Or (ByTag "input") (ByTag "textarea")) f d) ->
           incl (fieldListeners i) added) /\
      (forall l, In l added ->
         (exists f, In f forms /\ l = submitListener f) \/
         (exists i, In l (fieldListeners i))).
Proof.
  induction forms as [ | x rest IH]; intros d Hwf Hin.
  - exists d, []. cbn [forEach]. rewrite app_nil_r.
    split; [reflexivity | ]. split; [reflexivity | ].
    split; [intros f [] | intros l []].
  - destruct (enhanceForm_step x d Hwf (Hin x (or_introl eq_refl)))
      as (d1 & Hrun1 & Hwf1 & _ & _ & _ & _ & _ & _ & _ & Hids1 &
          Hgrow1 & _ & _ & _ & _ & _ & Hlist1).
    destruct (IH d1 Hwf1) as (d' & added & Hrun & Hl & Hall & Honly).
    { intros f Hf. apply Hids1, Hin. right. assumption. }
    exists d'.
    exists ((submitListener x ::
             flat_map fieldListeners
               (select (Or (ByTag "input") (ByTag "textarea")) x d1)) ++ added).
    split.
    { cbn [forEach]. unfold bind at 1. rewrite Hrun1. exact Hrun. }
    split; [rewrite Hl, Hlist1, <- app_assoc; reflexivity | ].
    split.
    + intros f [<- | Hf].
      * split; [left; reflexivity | ].
        intros i Hi l Hl'. apply in_or_app. left. right.
        apply in_flat_map. exists i. split; [apply Hgrow1; assumption | assumption].
      * destruct (Hall f Hf) as [H1 H2]. split; [apply in_or_app; auto | ].
        intros i Hi l Hl'. apply in_or_app. right.
        apply (H2 i (Hgrow1 _ _ _ Hi)). assumption.
    + intros l Hl'. apply in_app_or in Hl' as [[<- | Hl'] | Hl'].
      * left. exists x. split; [left | ]; reflexivity.
      * right. apply in_flat_map in Hl' as (i & _ & Hi). eauto.
      * destruct (Honly l Hl') as [(f & Hf & ->) | Hr]; [ | auto].
        left. exists f. split; [right; assumption | reflexivity].
Qed.

End PassLoop.

Section PassFacts.

Lemma forms_in_tree (sel : selector) (d : document) (f : nat) :
  In f (select sel (id (body d)) d) -> In f (ids (body d)).
Proof.
  intros H. apply select_In in H as (H & _). apply descendants_ids. assumption.
Qed.

Lemma enhanceFormSecurity_spec (self : instance) (d : document) :
  wellFormed d ->
  exists d',
    enhanceFormSecurity self d = Ok tt d' /\
    wellFormed d' /\ timers d' = timers d /\ clock d' = clock d /\
    id (body d') = id (body d) /\
    nextId d <= nextId d' /\
    nextId d' <= nextId d + List.length (select (ByTag "form") (id (body d)) d) /\
    (forall i, i < nextId d -> heap d' i = heap d i) /\
    (forall i, nextId d <= i -> i < nextId d' ->
       heap d' i = tokenInput (csrfToken self) /\ In i (ids (body d'))) /\
    (forall i, In i (ids (body d)) -> In i (ids (body d'))) /\
    (forall sel q x, In x (select sel q d) -> In x (select sel q d')) /\
    (forall sel q x, In q (ids (body d)) -> In x (select sel q d') ->
       In x (select sel q d) \/ nextId d <= x) /\
    (forall f, In f (select (ByTag "form") (id (body d)) d) ->
       select (ByName "csrf_token") f d' <> []) /\
    (forall f, map callback (filter (listening f "submit") (listeners d')) =
               map callback (filter (listening f "submit") (listeners d)) ++
               map OnSubmit (filter (fun x => x =? f)
                               (select (ByTag "form") (id (body d)) d))) /\
    (tidy d -> tidy d') /\
    ((forall f, In f (select (ByTag "form") (id (body d)) d) ->
        select (ByName "csrf_token") f d <> []) ->
     body d' = body d /\ nextId d' = nextId d /\ forall i, heap d' i = heap d i).
Proof.
  intros Hwf.
  destruct (pass_spec self (select (ByTag "form") (id (body d)) d) d Hwf
              (forms_in_tree _ d))
    as (d' & Hrun & Hwf' & Ht & Hc & Hid & Hle & Hub & Hold & Hnew & Hids & Hgrow &
        Hgain & Htok & Hls & Htidy & Hsame).
  exists d'. split.
  { unfold enhanceFormSecurity, bind, documentQuerySelectorAll, gets. exact Hrun. }
  repeat (split; [assumption | ]).
  split; [ | assumption].
  intros Htd. apply Htidy; [assumption | ].
  intros f Hf. apply select_In in Hf as (Hf & Hm & _).
  destruct (matches (ByClass "field-error") (heap d f)) eqn:E; [ | reflexivity].
  destruct (subtree_Some f (body d) (descendants_ids _ _ Hf)) as (s & Hs).
  destruct (Htd f s Hs E) as [_ Hdiv].
  cbn [matches] in Hm. rewrite Hdiv in Hm. discriminate Hm.
Qed.

Lemma enhanceFormSecurity_listeners (self : instance) (d : document) :
  wellFormed d ->
  exists d' added,
    enhanceFormSecurity self d = Ok tt d' /\
    listeners d' = listeners d ++ added /\
    (forall form, In form (select (ByTag "form") (id (body d)) d) ->
       In (submitListener form) added /\
       forall i, In i (select (Or (ByTag "input") (ByTag "textarea")) form d) ->
         incl (fieldListeners i) added) /\
    (forall l, In l added ->
       (exists form, In form (select (ByTag "form") (id (body d)) d) /\
                     l = submitListener form) \/
       (exists i, In l (fieldListeners i))).
Proof.
  intros Hwf.
  destruct (pass_listeners self (select (ByTag "form") (id (body d)) d) d Hwf
              (forms_in_tree _ d))
    as (d' & added & Hrun & H).
  exists d', added. split; [ | exact H].
  unfold enhanceFormSecurity, bind, documentQuerySelectorAll, gets. exact Hrun.
Qed.

End PassFacts.

(** X12: [enhanceFormSecurity] never throws; afterwards every form of the
    page holds an element named [csrf_token].  Each element the pass
    creates, at most one per form, is a hidden input named [csrf_token]
    with the token of the instance, and it is attached; the elements of
    the page keep their properties and stay in the tree, and no timer is
    set. *)
Theorem enhanceFormSecurity_every_form (self : instance) (d : document) :
  wellFormed d ->
  exists d',
    enhanceFormSecurity self d = Ok tt d' /\
    wellFormed d' /\
    (forall form, In form (select (ByTag "form") (id (body d)) d) ->
       select (ByName "csrf_token") form d' <> []) /\
    (forall i, nextId d <= i -> i < nextId d' ->
       heap d' i = tokenInput (csrfToken self) /\ In i (ids (body d'))) /\
    nextId d' <= nextId d + List.length (select (ByTag "form") (id (body d)) d) /\
    (forall i, i < nextId d -> heap d' i = heap d i) /\
    (forall i, In i (ids (body d)) -> In i (ids (body d'))) /\
    timers d' = timers d.
Proof.
  intros Hwf.
  destruct (enhanceFormSecurity_spec self d Hwf)
    as (d' & Hrun & Hwf' & Ht & _ & _ & _ & Hub & Hold & Hnew & Hids & _ & _ & Htok & _).
  exists d'. auto 10.
Qed.

(** X12 on [twoFieldPage]. *)
Lemma enhanceFormSecurity_every_form_witness :
  exists d',
    enhanceFormSecurity session twoFieldPage = Ok tt d' /\
    wellFormed d' /\
    (forall form, In form (select (ByTag "form") (id (body twoFieldPage)) twoFieldPage) ->
       select (ByName "csrf_token") form d' <> []) /\
    (forall i, nextId twoFieldPage <= i -> i < nextId d' ->
       heap d' i = tokenInput (csrfToken session) /\ In i (ids (body d'))) /\
    nextId d' <= nextId twoFieldPage +
                 List.length (select (ByTag "form") (id (body twoFieldPage)) twoFieldPage) /\
    (forall i, i < nextId twoFieldPage -> heap d' i = heap twoFieldPage i) /\
    (forall i, In i (ids (body twoFieldPage)) -> In i (ids (body d'))) /\
    timers d' = timers twoFieldPage.
Proof.
  apply (enhanceFormSecurity_every_form session twoFieldPage).
  apply wellFormedb_sound. reflexivity.
Defined.

(** X13: a second pass, of the same or of another instance, adds no token
    field: it leaves the tree and the elements as the first pass left
    them. *)
Theorem enhanceFormSecurity_twice (first second : instance) (d : document) :
  wellFormed d ->
  exists d1 d2,
    enhanceFormSecurity first d = Ok tt d1 /\
    enhanceFormSecurity second d1 = Ok tt d2 /\
    body d2 = body d1 /\ nextId d2 = nextId d1 /\
    (forall i, heap d2 i = heap d1 i).
Proof.
  intros Hwf.
  destruct (enhanceFormSecurity_spec first d Hwf)
    as (d1 & Hrun1 & Hwf1 & _ & _ & Hid1 & _ & _ & _ & Hnew1 & _ & _ & Hgain1 &
        Htok1 & _).
  destruct (enhanceFormSecurity_spec second d1 Hwf1)
    as (d2 & Hrun2 & _ & _ & _ & _ & _ & _ & _ & _ & _ & _ & _ & _ & _ & _ & Hsame).
  exists d1, d2. split; [assumption | ]. split; [assumption | ].
  apply Hsame. intros f Hf. apply Htok1.
  rewrite Hid1 in Hf.
  destruct (Hgain1 _ _ _ (id_in_ids (body d)) Hf) as [Hold | Hge]; [assumption | ].
  exfalso.
  apply select_In in Hf as (Hin & Hm & _).
  destruct Hwf1 as (_ & Hlt1 & _).
  destruct (Hnew1 f Hge (Hlt1 f (descendants_ids _ _ Hin))) as [Hv _].
  rewrite Hv in Hm. discriminate Hm.
Qed.

(** X13 on [twoFieldPage], the second pass with another token. *)
Lemma enhanceFormSecurity_twice_witness :
  exists d1 d2,
    enhanceFormSecurity session twoFieldPage = Ok tt d1 /\
    enhanceFormSecurity {| csrfToken := "csrf_other" |} d1 = Ok tt d2 /\
    body d2 = body d1 /\ nextId d2 = nextId d1 /\
    (forall i, heap d2 i = heap d1 i).
Proof.
  apply (enhanceFormSecurity_twice session {| csrfToken := "csrf_other" |} twoFieldPage).
  apply wellFormedb_sound. reflexivity.
Defined.

(** ** The handlers, end to end *)

Section EndToEnd.

Lemma filter_eqb_NoDup (l : list nat) (f : nat) :
  NoDup l -> In f l -> filter (fun x => x =? f) l = [f].
Proof.
  induction l as [ | x l IH]; intros Hnd Hin; [destruct Hin | ].
  inversion Hnd as [ | ? ? Hx Hnd']; subst. cbn [filter].
  destruct (Nat.eqb_spec x f) as [-> | Hne].
  - f_equal. apply filter_nil_iff. intros y Hy.
    apply Nat.eqb_neq. intros ->. contradiction.
  - destruct Hin as [-> | Hin]; [contradiction | auto].
Qed.

Lemma select_ext_matches (sel : selector) (q : nat) (d d' : document) :
  body d' = body d ->
  (forall i, matches sel (heap d' i) = matches sel (heap d i)) ->
  select sel q d' = select sel q d.
Proof.
  intros Hb Hh. unfold select. rewrite Hb.
  destruct (subtree q (body d)); [ | reflexivity].
  apply filter_ext. intros i. apply Hh.
Qed.

Lemma filter_submit_change (f : nat) (l : list nat) :
  filter (listening f "submit")
    (map (fun i => {| target := i; eventType := "change"; callback := OnChange |}) l)
  = [].
Proof.
  induction l as [ | x l IH]; [reflexivity | ].
  cbn [map filter].
  replace (listening f "submit"
             {| target := x; eventType := "change"; callback := OnChange |})
    with false by (symmetry; apply andb_false_r).
  exact IH.
Qed.

(** What [setupFileUploadValidation] leaves alone. *)
Lemma setupFileUploadValidation_frame (d : document) :
  exists d',
    setupFileUploadValidation d = Ok tt d' /\
    body d' = body d /\ nextId d' = nextId d /\ timers d' = timers d /\
    clock d' = clock d /\
    (forall i, heap d' i = with_accept (accept (heap d' i)) (heap d i)) /\
    (forall f, filter (listening f "submit") (listeners d') =
               filter (listening f "submit") (listeners d)) /\
    listeners d' =
      listeners d ++
      map (fun i => {| target := i; eventType := "change"; callback := OnChange |})
        (select (ByTagType "input" "file") (id (body d)) d).
Proof.
  unfold setupFileUploadValidation, bind at 1, documentQuerySelectorAll, gets.
  destruct (forEach_restrict (select (ByTagType "input" "file") (id (body d)) d) d)
    as (h & Hrun & Hin & Hout).
  eexists. split; [exact Hrun | ].
  cbn [body heap nextId listeners timers clock].
  repeat (split; [reflexivity | ]).
  split.
  - intros i.
    destruct (in_dec Nat.eq_dec i (select (ByTagType "input" "file") (id (body d)) d))
      as [Hi | Hi].
    + rewrite (Hin i Hi). destruct (JSString.truthy (accept (heap d i)));
        [destruct (heap d i) | ]; reflexivity.
    + rewrite (Hout i Hi). destruct (heap d i); reflexivity.
  - split; [ | reflexivity].
    intros f. rewrite filter_app, filter_submit_change, app_nil_r. reflexivity.
Qed.

Lemma passes_tokenInput (token : string) : passes (tokenInput token) = true.
Proof.
  unfold passes, tokenInput. cbn [type required with_value with_name with_type blank].
  change (String.eqb "hidden" "email") with false. reflexivity.
Qed.

Lemma onSubmit_run (form : nat) (e : event) (d : document) :
  wellFormed d -> tidy d ->
  exists d',
    handle (OnSubmit form) e d =
      Ok (if forallb (fun i => passes (heap d i))
               (select (Or (ByTag "input") (ByTag "textarea")) form d)
          then e else preventDefault e) d' /\
    (forall i, In i (select (Or (ByTag "input") (ByTag "textarea")) form d) ->
       marked i d' = negb (passes (heap d i))) /\
    (forall i, i < nextId d ->
       heap d' i = with_classList (classList (heap d' i)) (heap d i)) /\
    (forallb (fun i => passes (heap d i))
       (select (Or (ByTag "input") (ByTag "textarea")) form d) = true ->
     nextId d' = nextId d /\ timers d' = timers d) /\
    (forallb (fun i => passes (heap d i))
       (select (Or (ByTag "input") (ByTag "textarea")) form d) = false ->
     texts (ByClass "security-message") (id (body d')) d' =
       ["Please fix form errors before submitting."]).
Proof.
  intros Hwf Htidy.
  destruct (validateForm_spec form d Hwf Htidy)
    as (d1 & Hrun & Hwf1 & _ & Hmark & _ & Hcls & Hle & Hsame & _ & Ht & _).
  cbn [handle]. unfold bind at 1. rewrite Hrun.
  destruct (forallb (fun i => passes (heap d i))
              (select (Or (ByTag "input") (ByTag "textarea")) form d)) eqn:Eb;
    cbn [negb].
  - exists d1. split; [reflexivity | ]. split; [assumption | ].
    split; [assumption | ]. split; [auto | discriminate].
  - destruct (showSecurityMessage_spec d1 "Please fix form errors before submitting."
                (Some "error") Hwf1)
      as (d2 & Hs & _ & _ & Hvis & Htxt & _ & Hoth & _).
    exists d2. split; [unfold bind; rewrite Hs; reflexivity | ].
    split.
    { intros i Hi. unfold marked. rewrite Hoth.
      - apply Hmark. assumption.
      - apply select_In in Hi as (Hi & _). destruct Hwf as (_ & Hlt & _).
        apply descendants_ids, Hlt in Hi. lia. }
    split.
    { intros i Hi. rewrite Hoth by lia. apply Hcls. assumption. }
    split; [discriminate | ]. intros _.
    unfold texts. fold (notifications d2). rewrite Hvis. cbn [map].
    rewrite Htxt. reflexivity.
Qed.

End EndToEnd.

Section Frames.

Lemma wellFormed_ext (d d' : document) :
  body d' = body d -> nextId d' = nextId d -> timers d' = timers d ->
  wellFormed d -> wellFormed d'.
Proof.
  intros Hb Hn Ht (H1 & H2 & H3). unfold wellFormed. rewrite Hb, Hn, Ht. auto.
Qed.

Lemma tidy_ext (d d' : document) :
  body d' = body d ->
  (forall i, matches (ByClass "field-error") (heap d' i) =
             matches (ByClass "field-error") (heap d i) /\
             localName (heap d' i) = localName (heap d i)) ->
  tidy d -> tidy d'.
Proof.
  intros Hb Hh Htidy i s Hs Hm. rewrite Hb in Hs.
  destruct (Hh i) as [H1 H2]. rewrite H1 in Hm. rewrite H2.
  apply (Htidy i s); assumption.
Qed.

Lemma matches_accept (sel : selector) (a : string) (e : element) :
  matches sel (with_accept a e) = matches sel e.
Proof.
  induction sel as [ | | | | s1 IH1 s2 IH2]; try reflexivity.
  cbn [matches]. rewrite IH1, IH2. reflexivity.
Qed.

End Frames.

(** X14: a submit, end to end.  The page is tidy, has no listener, no
    form inside a form, no password input and no link (so that the two
    calls left out of [init] change nothing), and its body is not itself
    a notification.  After [new WebsiteSecurity()], submitting a form goes
    ahead exactly when every input and textarea that the form had passes
    [validateField]; each of them ends up marked exactly when it fails; a
    refused submit leaves the notification "Please fix form errors before
    submitting." alone on screen, an accepted one sets no timer, and no
    value changes. *)
Theorem submit_after_construct (random now : string) (form : nat) (d : document) :
  wellFormed d -> tidy d -> listeners d = [] -> unnested (ByTag "form") d ->
  undecorated d -> plainBody d ->
  In form (select (ByTag "form") (id (body d)) d) ->
  exists b d',
    (construct random now ;; dispatchEvent form "submit") d = Ok b d' /\
    (b = true <->
     forall i, In i (select (Or (ByTag "input") (ByTag "textarea")) form d) ->
       exists di, validateField i d = Ok true di) /\
    (forall i, In i (select (Or (ByTag "input") (ByTag "textarea")) form d) ->
       exists bi di, validateField i d = Ok bi di /\ marked i d' = negb bi) /\
    (b = false ->
     texts (ByClass "security-message") (id (body d')) d' =
       ["Please fix form errors before submitting."]) /\
    (b = true -> timers d' = timers d) /\
    (forall i, i < nextId d -> value (heap d' i) = value (heap d i)).
Proof.
  intros Hwf Htidy Hnone _ _ _ Hform.
  set (self := {| csrfToken := generateCSRFToken random now |}).
  destruct (enhanceFormSecurity_spec self d Hwf)
    as (d1 & Hrun1 & Hwf1 & Ht1 & _ & _ & Hle1 & _ & Hold1 & Hnew1 & _ & Hgrow1 &
        Hgain1 & _ & Hls1 & Htidy1 & _).
  specialize (Htidy1 Htidy).
  destruct (setupFileUploadValidation_frame d1)
    as (d2 & Hrun2 & Hb2 & Hn2 & Ht2 & _ & Hh2 & Hls2 & _).
  assert (Hwf2 : wellFormed d2) by (apply (wellFormed_ext d1); assumption).
  assert (Htidy2 : tidy d2).
  { apply (tidy_ext d1); [assumption | | assumption].
    intros i. rewrite (Hh2 i). split; reflexivity. }
  assert (Hsel2 : forall sel q, select sel q d2 = select sel q d1).
  { intros sel q. apply select_ext_matches; [assumption | ].
    intros i. rewrite (Hh2 i). apply matches_accept. }
  assert (Hpass2 : forall i, passes (heap d2 i) = passes (heap d1 i)).
  { intros i. rewrite (Hh2 i). reflexivity. }
  destruct (onSubmit_run form {| eventTarget := form; defaultPrevented := false |}
              d2 Hwf2 Htidy2)
    as (d3 & Hrun3 & Hmark3 & Hcls3 & Hyes3 & Hno3).
  set (fields := select (Or (ByTag "input") (ByTag "textarea")) form) in *.
  assert (Hlt : forall i, In i (fields d) -> i < nextId d).
  { intros i Hi. apply select_In in Hi as (Hi & _). destruct Hwf as (_ & Hlt & _).
    apply Hlt, descendants_ids. assumption. }
  assert (Hformin : In form (ids (body d))) by (eapply forms_in_tree; eassumption).
  (* the verdict on the fields of the page as it was *)
  assert (Hverdict : forallb (fun i => passes (heap d2 i)) (fields d2) =
                     forallb (fun i => passes (heap d i)) (fields d)).
  { apply eq_true_iff_eq. rewrite !forallb_forall. split.
    - intros H i Hi. rewrite <- (Hold1 i (Hlt i Hi)), <- Hpass2.
      apply H. unfold fields. rewrite Hsel2. apply Hgrow1. assumption.
    - intros H i Hi. unfold fields in Hi. rewrite Hsel2 in Hi.
      rewrite Hpass2.
      destruct (Hgain1 _ _ _ Hformin Hi) as [Hin | Hge].
      + rewrite (Hold1 i (Hlt i Hin)). apply H. assumption.
      + apply select_In in Hi as (Hi & _). destruct Hwf1 as (_ & Hlt1 & _).
        destruct (Hnew1 i Hge (Hlt1 i (descendants_ids _ _ Hi))) as [Hv _].
        rewrite Hv. apply passes_tokenInput. }
  rewrite Hverdict in *.
  exists (forallb (fun i => passes (heap d i)) (fields d)), d3.
  split.
  { assert (Hcons : construct random now d = Ok self d2).
    { unfold construct, init, bind. cbv zeta. fold self.
      rewrite Hrun1, Hrun2. reflexivity. }
    unfold bind at 1. rewrite Hcons.
    unfold dispatchEvent, bind at 1, gets.
    rewrite Hls2.
    assert (Hhs : map callback (filter (listening form "submit") (listeners d1)) =
                  [OnSubmit form]).
    { rewrite Hls1, Hnone.
      rewrite (filter_eqb_NoDup _ form (NoDup_select _ _ _ Hwf) Hform). reflexivity. }
    rewrite Hhs. cbn [handleAll]. unfold bind. rewrite Hrun3.
    unfold ret. f_equal.
    destruct (forallb (fun i => passes (heap d i)) (fields d)); reflexivity. }
  split.
  { rewrite forallb_forall. split.
    - intros H i Hi.
      destruct (validateField_verdict form i d Hwf Htidy Hi) as (di & Hv).
      rewrite (H i Hi) in Hv. eauto.
    - intros H i Hi. destruct (H i Hi) as (di & Hv).
      destruct (validateField_verdict form i d Hwf Htidy Hi) as (di' & Hv').
      rewrite Hv in Hv'. injection Hv' as Hb _. auto. }
  split.
  { intros i Hi.
    destruct (validateField_verdict form i d Hwf Htidy Hi) as (di & Hv).
    exists (passes (heap d i)), di. split; [assumption | ].
    rewrite Hmark3.
    - rewrite Hpass2, (Hold1 i (Hlt i Hi)). reflexivity.
    - unfold fields. rewrite Hsel2. apply Hgrow1. assumption. }
  split; [assumption | ].
  split.
  { intros H. destruct (Hyes3 H) as [_ Ht3]. congruence. }
  intros i Hi. rewrite Hcls3 by lia. cbn [value with_classList].
  rewrite (Hh2 i). cbn [value with_accept]. rewrite (Hold1 i Hi). reflexivity.
Qed.

(** X14 on the form of [twoFieldPage]. *)
Lemma submit_after_construct_witness :
  exists b d',
    (construct "0.4fzyo82mvyr" "lq3k2p9x" ;; dispatchEvent 1 "submit") twoFieldPage
      = Ok b d' /\
    (b = false ->
     texts (ByClass "security-message") (id (body d')) d' =
       ["Please fix form errors before submitting."]).
Proof.
  destruct (submit_after_construct "0.4fzyo82mvyr" "lq3k2p9x" 1 twoFieldPage)
    as (b & d' & Hrun & _ & _ & Hmsg & _).
  - apply wellFormedb_sound. reflexivity.
  - apply tidy_clean. reflexivity.
  - reflexivity.
  - intros g i Hg Hi. vm_compute in Hg. destruct Hg as [<- | []].
    vm_compute in Hi. exact Hi.
  - split; reflexivity.
  - reflexivity.
  - vm_compute. auto.
  - exists b, d'. split; assumption.
Defined.

(** ** Fields that share a parent *)

Section Siblings.

Variables (field p : nat) (d : document).
Hypothesis Hwf : wellFormed d.
Hypothesis Hparent : parentOf field (body d) = Some p.
Hypothesis Hplain : plainField field d.

Lemma first_annotation (e : nat) :
  hd_error (select (ByClass "field-error") p d) = Some e ->
  exists s, subtree p (body d) = Some s /\ In e (descendants s) /\
            matches (ByClass "field-error") (heap d e) = true.
Proof.
  unfold select. destruct (subtree p (body d)) as [s | ] eqn:Es; [ | discriminate].
  intros H. exists s. split; [reflexivity | ].
  destruct (filter _ (descendants s)) as [ | y rest] eqn:Ef; [discriminate | ].
  injection H as ->.
  assert (Hin : In e (filter (fun i => matches (ByClass "field-error") (heap d i))
                        (descendants s))) by (rewrite Ef; left; reflexivity).
  apply filter_In in Hin. exact Hin.
Qed.

(** Clearing the error of a field leaves its plain siblings in place. *)
Lemma clear_keeps_sibling (g : nat) (d1 : document) :
  parentOf g (body d) = Some p -> plainField g d ->
  clearFieldError field d = Ok tt d1 ->
  parentOf g (body d1) = Some p /\ plainField g d1.
Proof.
  intros Hg Hgp Hclear.
  destruct (clearFieldError_spec field p d Hwf Hparent Hplain)
    as (d1' & Hclear' & _ & _ & _ & Hplain1 & _ & _ & Hother & _ & _ & Hbody & _).
  rewrite Hclear in Hclear'. injection Hclear' as <-.
  split.
  - rewrite Hbody.
    destruct (hd_error (select (ByClass "field-error") p d)) as [e | ] eqn:Ehd;
      [ | assumption].
    destruct (first_annotation e Ehd) as (s & Hs & He & Hm).
    destruct Hwf as (Hnd & _).
    apply (parentOf_detach e g p (body d) s); try assumption.
    intros ->. unfold plainField in Hgp. congruence.
  - destruct (Nat.eq_dec g field) as [-> | Hne]; [assumption | ].
    unfold plainField. rewrite Hother by assumption. assumption.
Qed.

Lemma show_keeps_sibling (g : nat) (message : string) (d2 : document) :
  parentOf g (body d) = Some p -> plainField g d ->
  showFieldError field message d = Ok tt d2 ->
  parentOf g (body d2) = Some p /\ plainField g d2.
Proof.
  intros Hg Hgp Hshow.
  destruct (showFieldError_spec field p d message Hwf Hparent Hplain)
    as (d1 & d2' & Hclear & Hshow' & _ & _ & _ & Hplain2 & _ & _ & _ & Hoth & _ &
        Hbody & _).
  rewrite Hshow in Hshow'. injection Hshow' as <-.
  destruct (clearFieldError_spec field p d Hwf Hparent Hplain)
    as (d1' & Hclear' & (Hnd1 & Hlt1 & _) & Hn1 & _).
  rewrite Hclear in Hclear'. injection Hclear' as <-.
  destruct (clear_keeps_sibling g d1 Hg Hgp Hclear) as [Hg1 Hgp1].
  split.
  - rewrite Hbody. apply parentOf_attach; [assumption | | assumption].
    intros H. apply Hlt1 in H. lia.
  - destruct (Nat.eq_dec g field) as [-> | Hne]; [assumption | ].
    unfold plainField. rewrite Hoth; [assumption | assumption | ].
    assert (g < nextId d) by (eapply in_tree_lt; eassumption). lia.
Qed.

End Siblings.

(** X15: two fields with the same parent share its annotations.  When
    at most one annotation lies below that parent, [showFieldError] on one
    of the fields leaves its message as the only one, and
    [clearFieldError] on the other field, which is what typing in it or
    validating it with success does, removes that annotation: the first
    field stays marked and has no annotation. *)
Theorem clearFieldError_shared_parent (f g p : nat) (d : document) (message : string) :
  wellFormed d ->
  parentOf f (body d) = Some p -> parentOf g (body d) = Some p ->
  plainField f d -> plainField g d -> f <> g ->
  List.length (annotations f d) <= 1 ->
  exists d1 d2,
    showFieldError f message d = Ok tt d1 /\
    annotations f d1 = [message] /\
    clearFieldError g d1 = Ok tt d2 /\
    marked f d2 = true /\ annotations f d2 = [].
Proof.
  intros Hwf Hf Hg Hfp Hgp Hne Hlen.
  destruct (showFieldError_spec f p d message Hwf Hf Hfp)
    as (c1 & d1 & _ & Hshow & Hwf1 & _ & Hf1 & Hfp1 & Hmark1 & _ & Hone & _).
  specialize (Hone Hlen).
  destruct (show_keeps_sibling f p d Hwf Hf Hfp g message d1 Hg Hgp Hshow)
    as [Hg1 Hgp1].
  destruct (clearFieldError_spec g p d1 Hwf1 Hg1 Hgp1)
    as (d2 & Hclear & _ & _ & Hg2 & _ & _ & Hdrop & Hoth2 & _).
  destruct (clear_keeps_sibling g p d1 Hwf1 Hg1 Hgp1 f d2 Hf1 Hfp1 Hclear)
    as [Hf2 _].
  exists d1, d2. split; [assumption | ]. split; [assumption | ].
  split; [assumption | ]. split.
  - unfold marked in *. rewrite Hoth2 by assumption. assumption.
  - assert (Hsame1 : annotations g d1 = annotations f d1).
    { unfold annotations. rewrite Hf1, Hg1. reflexivity. }
    assert (Hsame2 : annotations f d2 = annotations g d2).
    { unfold annotations. rewrite Hf2, Hg2. reflexivity. }
    rewrite Hsame2. rewrite Hsame1, Hone in Hdrop. cbn [List.length] in Hdrop.
    destruct (annotations g d2); [reflexivity | simpl in Hdrop; lia].
Qed.

(** X15 on the two fields of [sharedParentPage]. *)
Lemma clearFieldError_shared_parent_witness :
  exists d1 d2,
    showFieldError 2 "This field is required" sharedParentPage = Ok tt d1 /\
    annotations 2 d1 = ["This field is required"] /\
    clearFieldError 3 d1 = Ok tt d2 /\
    marked 2 d2 = true /\ annotations 2 d2 = [].
Proof.
  apply (clearFieldError_shared_parent 2 3 1 sharedParentPage
           "This field is required").
  - apply wellFormedb_sound. reflexivity.
  - reflexivity.
  - reflexivity.
  - reflexivity.
  - reflexivity.
  - discriminate.
  - simpl. lia.
Defined.

Section RoundTrip.

Lemma annotations_nil (field p : nat) (d : document) :
  parentOf field (body d) = Some p ->
  annotations field d = [] -> select (ByClass "field-error") p d = [].
Proof.
  intros Hp H. unfold annotations, texts in H. rewrite Hp in H.
  apply map_eq_nil in H. assumption.
Qed.

End RoundTrip.

(** X16: on a field without annotation, [showFieldError] followed by
    [clearFieldError] restores the tree.  The annotation shown is the only
    one, it is removed again and the field is unmarked; the elements keep
    all their properties but the class list, and the other elements are
    untouched. *)
Theorem showFieldError_then_clear (field p : nat) (d : document) (message : string) :
  wellFormed d -> parentOf field (body d) = Some p -> plainField field d ->
  annotations field d = [] ->
  exists d1 d2,
    showFieldError field message d = Ok tt d1 /\
    annotations field d1 = [message] /\
    clearFieldError field d1 = Ok tt d2 /\
    body d2 = body d /\ marked field d2 = false /\ annotations field d2 = [] /\
    (forall i, i < nextId d ->
       heap d2 i = with_classList (classList (heap d2 i)) (heap d i)) /\
    (forall i, i < nextId d -> i <> field -> heap d2 i = heap d i).
Proof.
  intros Hwf Hparent Hplain Hnone.
  pose proof (annotations_nil field p d Hparent Hnone) as Hsel.
  destruct (showFieldError_spec field p d message Hwf Hparent Hplain)
    as (c1 & d1 & Hclear0 & Hshow & Hwf1 & Hn1 & Hp1 & Hplain1 & Hmark1 & _ & Hone &
        Hoth1 & Hfld1 & Hbody1 & _).
  assert (Hann1 : annotations field d1 = [message]).
  { apply Hone. rewrite Hnone. simpl. lia. }
  destruct (clearFieldError_spec field p d Hwf Hparent Hplain)
    as (c1' & Hclear0' & _ & _ & _ & _ & _ & _ & _ & _ & _ & Hbody0 & _).
  rewrite Hclear0 in Hclear0'. injection Hclear0' as <-.
  rewrite Hsel in Hbody0. cbn [hd_error] in Hbody0. rewrite Hbody0 in Hbody1.
  destruct (showFieldError_created field p d Hwf Hparent Hplain message d1 Hshow)
    as [_ Hcls].
  destruct Hwf as (Hnd & Hlt & Htm).
  assert (Hfresh : ~ In (nextId d) (ids (body d))).
  { intros H. apply Hlt in H. lia. }
  destruct (parentOf_subtree _ _ _ Hnd Hparent) as (s & Hs & _).
  (* the annotation just made is the only one *)
  assert (Hsel1 : select (ByClass "field-error") p d1 = [nextId d]).
  { assert (Hiff := select_attach_matches (ByClass "field-error") p p (nextId d) s d d1
                      Hnd Hfresh Hbody1).
    assert (Hm : forall i, i <> nextId d ->
              matches (ByClass "field-error") (heap d1 i) =
              matches (ByClass "field-error") (heap d i)).
    { intros i Hi. destruct (Nat.eq_dec i field) as [-> | Hne].
      - unfold plainField in *. congruence.
      - rewrite Hoth1 by assumption. reflexivity. }
    specialize (Hiff Hm Hs).
    apply NoDup_singleton.
    - apply NoDup_select. assumption.
    - apply Hiff. right. split; [reflexivity | ]. split.
      + cbn [matches]. rewrite Hcls. reflexivity.
      + rewrite <- (subtree_id _ _ _ Hs). apply id_in_ids.
    - intros x Hx. apply Hiff in Hx. rewrite Hsel in Hx.
      destruct Hx as [[] | [Hx _]]. assumption. }
  destruct (clearFieldError_spec field p d1 Hwf1 Hp1 Hplain1)
    as (d2 & Hclear & _ & _ & _ & _ & Hmark2 & Hdrop & Hoth2 & Hfld2 & _ & Hbody2 & _).
  rewrite Hsel1 in Hbody2. cbn [hd_error] in Hbody2.
  rewrite Hbody1, detach_attach in Hbody2 by assumption.
  exists d1, d2. split; [assumption | ]. split; [assumption | ].
  split; [assumption | ]. split; [assumption | ]. split; [assumption | ].
  split.
  { rewrite Hann1 in Hdrop. cbn [List.length] in Hdrop.
    destruct (annotations field d2); [reflexivity | simpl in Hdrop; lia]. }
  split.
  - intros i Hi. destruct (Nat.eq_dec i field) as [-> | Hne].
    + rewrite Hfld2, Hfld1. reflexivity.
    + rewrite Hoth2, Hoth1 by (try assumption; lia).
      destruct (heap d i); reflexivity.
  - intros i Hi Hne. rewrite Hoth2, Hoth1 by (try assumption; lia). reflexivity.
Qed.

(** X16 on the field of [requiredPage]. *)
Lemma showFieldError_then_clear_witness :
  exists d1 d2,
    showFieldError 3 "This field is required" requiredPage = Ok tt d1 /\
    annotations 3 d1 = ["This field is required"] /\
    clearFieldError 3 d1 = Ok tt d2 /\
    body d2 = body requiredPage /\ marked 3 d2 = false /\ annotations 3 d2 = [].
Proof.
  destruct (showFieldError_then_clear 3 2 requiredPage "This field is required")
    as (d1 & d2 & H1 & H2 & H3 & H4 & H5 & H6 & _).
  - apply wellFormedb_sound. reflexivity.
  - reflexivity.
  - reflexivity.
  - reflexivity.
  - exists d1, d2. auto 6.
Defined.

(** X17: a field that is itself the first element of class [field-error]
    below its parent is removed from the page by [clearFieldError]; from
    then on [clearFieldError] throws a [TypeError] on it, and
    [showFieldError], which clears first, throws a [TypeError] on the
    page as it was. *)
Theorem showFieldError_on_annotation (field p : nat) (d : document) (message : string) :
  wellFormed d -> parentOf field (body d) = Some p ->
  hd_error (select (ByClass "field-error") p d) = Some field ->
  exists d1,
    clearFieldError field d = Ok tt d1 /\
    ~ In field (ids (body d1)) /\
    clearFieldError field d1 = Throw "TypeError" /\
    showFieldError field message d = Throw "TypeError".
Proof.
  intros (Hnd & Hlt & _) Hparent Hfirst.
  pose proof (clearFieldError_eq field p d Hparent) as Hclear.
  rewrite Hfirst in Hclear.
  assert (Hgone : parentOf field (detach field (body d)) = None).
  { apply parentOf_None. intros H. apply descendants_detach in H. tauto. }
  assert (Hin : In field (descendants (body d))).
  { eapply parentOf_below. eassumption. }
  eexists. split; [exact Hclear | ].
  cbn [body with_heap with_body].
  split.
  { intros H. eapply (ids_detach_ne field field (body d)); eauto. }
  split.
  { unfold clearFieldError, bind at 1, parentNode, gets.
    cbn [body with_heap with_body]. rewrite Hgone. reflexivity. }
  unfold showFieldError, bind at 1. rewrite Hclear.
  rewrite createElement_then.
  unfold setClassName.
  erewrite set_known by (cbn [heap with_heap with_body with_nextId]; apply upd_same).
  erewrite set_known by (cbn [heap with_heap with_body with_nextId]; apply upd_same).
  erewrite set_known by (cbn [heap with_heap with_body with_nextId]; apply upd_same).
  erewrite set_known by (cbn [heap with_heap with_body with_nextId]; apply upd_same).
  erewrite set_known by (cbn [heap with_heap with_body with_nextId]; apply upd_same).
  unfold bind at 1, parentNode, gets.
  cbn [body with_heap with_body with_nextId]. rewrite Hgone. reflexivity.
Qed.

(** X17 on the field of [styledFieldPage]. *)
Lemma showFieldError_on_annotation_witness :
  exists d1,
    clearFieldError 3 styledFieldPage = Ok tt d1 /\
    ~ In 3 (ids (body d1)) /\
    clearFieldError 3 d1 = Throw "TypeError" /\
    showFieldError 3 "This field is required" styledFieldPage = Throw "TypeError".
Proof.
  apply (showFieldError_on_annotation 3 2 styledFieldPage "This field is required").
  - apply wellFormedb_sound. reflexivity.
  - reflexivity.
  - reflexivity.
Defined.

(** ** The listeners *)

(** X18: the listeners of [enhanceFormSecurity].  The pass appends to the
    listeners that are there a [submit] listener for every form and a
    [blur] and an [input] listener for every input and textarea a form
    had; it appends nothing but submit listeners of forms and the
    blur and input listeners of fields. *)
Theorem enhanceFormSecurity_wires (self : instance) (d : document) :
  wellFormed d ->
  exists d' added,
    enhanceFormSecurity self d = Ok tt d' /\
    listeners d' = listeners d ++ added /\
    (forall form, In form (select (ByTag "form") (id (body d)) d) ->
       In (submitListener form) added /\
       forall i, In i (select (Or (ByTag "input") (ByTag "textarea")) form d) ->
         incl (fieldListeners i) added) /\
    (forall l, In l added ->
       (exists form, In form (select (ByTag "form") (id (body d)) d) /\
                     l = submitListener form) \/
       (exists i, In l (fieldListeners i))).
Proof.
  apply enhanceFormSecurity_listeners.
Qed.

(** X18 on [twoFieldPage]. *)
Lemma enhanceFormSecurity_wires_witness :
  exists d' added,
    enhanceFormSecurity session twoFieldPage = Ok tt d' /\
    listeners d' = listeners twoFieldPage ++ added /\
    In (submitListener 1) added /\
    incl (fieldListeners 3) added /\ incl (fieldListeners 5) added.
Proof.
  destruct (enhanceFormSecurity_wires session twoFieldPage)
    as (d' & added & Hrun & Hl & Hall & _).
  - apply wellFormedb_sound. reflexivity.
  - exists d', added. split; [assumption | ]. split; [assumption | ].
    destruct (Hall 1) as [Hs Hf].
    + vm_compute. auto.
    + split; [assumption | ].
      split; apply Hf; vm_compute; auto.
Defined.

Section Upload.

Lemma filter_change (i : nat) (l : list nat) :
  filter (listening i "change")
    (map (fun i => {| target := i; eventType := "change"; callback := OnChange |}) l)
  = map (fun i => {| target := i; eventType := "change"; callback := OnChange |})
      (filter (fun x => x =? i) l).
Proof.
  induction l as [ | x l IH]; [reflexivity | ].
  cbn [map filter].
  replace (listening i "change"
             {| target := x; eventType := "change"; callback := OnChange |})
    with (x =? i) by (symmetry; apply andb_true_r).
  destruct (x =? i); cbn [map]; rewrite IH; reflexivity.
Qed.

Lemma not_change (i : nat) (l : listener) :
  (exists f, l = submitListener f) \/ (exists x, In l (fieldListeners x)) ->
  listening i "change" l = false.
Proof.
  intros [(f & ->) | (x & [<- | [<- | []]])]; apply andb_false_r.
Qed.

End Upload.

(** X19: an upload, end to end.  The page has no listener, no file input
    inside a file input, no password input and no link (so that the two
    calls left out of [init] change nothing), and its body is not itself
    a notification; the file input does not itself carry the class
    [field-error] ([plainField]).  After [new WebsiteSecurity()], a
    [change] event on the file input runs [validateFileUpload] on it once
    and never prevents the default action; the selection is the one of
    the page; the file passes exactly when there is none, or its type is
    allowed and its size is at most [maxSize]; on rejection the input is
    emptied and marked. *)
Theorem change_after_construct (random now : string) (input : nat) (d : document) :
  wellFormed d -> listeners d = [] -> unnested (ByTagType "input" "file") d ->
  undecorated d -> plainBody d ->
  In input (select (ByTagType "input" "file") (id (body d)) d) ->
  plainField input d ->
  exists self d1 b d',
    construct random now d = Ok self d1 /\
    files (heap d1 input) = files (heap d input) /\
    validateFileUpload input d1 = Ok b d' /\
    (construct random now ;; dispatchEvent input "change") d = Ok true d' /\
    (b = true <->
     hd_error (files (heap d input)) = None \/
     exists file,
       hd_error (files (heap d input)) = Some file /\
       In (File.type file) allowedTypes /\ (File.size file <= maxSize)%N) /\
    (b = false ->
     value (heap d' input) = "" /\ files (heap d' input) = [] /\
     marked input d' = true).
Proof.
  intros Hwf Hnone _ _ _ Hinput Hplain.
  set (self := {| csrfToken := generateCSRFToken random now |}).
  destruct (enhanceFormSecurity_spec self d Hwf)
    as (d1 & Hrun1 & Hwf1 & _ & _ & _ & _ & _ & Hold1 & _ & _ & Hgrow1 & _).
  destruct (enhanceFormSecurity_listeners self d Hwf)
    as (d1' & added & Hrun1' & Hl1 & _ & Honly).
  rewrite Hrun1 in Hrun1'. injection Hrun1' as <-.
  destruct (setupFileUploadValidation_frame d1)
    as (d2 & Hrun2 & Hb2 & Hn2 & Ht2 & _ & Hh2 & _ & Hl2).
  assert (Hwf2 : wellFormed d2) by (apply (wellFormed_ext d1); assumption).
  assert (Hcons : construct random now d = Ok self d2).
  { unfold construct, init, bind. cbv zeta. fold self.
    rewrite Hrun1, Hrun2. reflexivity. }
  assert (Hlt : input < nextId d).
  { apply select_In in Hinput as (Hi & _). destruct Hwf as (_ & Hlt & _).
    apply Hlt, descendants_ids. assumption. }
  assert (Hheap : heap d2 input = with_accept (accept (heap d2 input)) (heap d input)).
  { rewrite (Hh2 input), (Hold1 input Hlt). reflexivity. }
  assert (Hin1 : In input (select (ByTagType "input" "file") (id (body d1)) d1)).
  { replace (id (body d1)) with (id (body d)); [apply Hgrow1; assumption | ].
    destruct (enhanceFormSecurity_spec self d Hwf) as (x & Hx & _ & _ & _ & Hid & _).
    rewrite Hrun1 in Hx. injection Hx as <-. congruence. }
  destruct (has_parent (body d2) input) as (p & Hp).
  { rewrite Hb2. apply select_In in Hin1 as (Hi & _). assumption. }
  assert (Hplain2 : plainField input d2).
  { unfold plainField in *. rewrite Hheap. assumption. }
  assert (Hfile2 : type (heap d2 input) = "file").
  { rewrite Hheap. cbn [type with_accept].
    apply select_In in Hinput as (_ & Hm & _). cbn [matches] in Hm.
    apply andb_true_iff in Hm as [_ Hm]. apply String.eqb_eq. assumption. }
  assert (Hfiles2 : files (heap d2 input) = files (heap d input)).
  { rewrite Hheap. reflexivity. }
  (* the listeners of the input for [change] *)
  assert (Hhs : map callback (filter (listening input "change") (listeners d2)) =
                [OnChange]).
  { rewrite Hl2, Hl1, Hnone. cbn [app]. rewrite filter_app.
    replace (filter (listening input "change") added) with (@nil listener).
    - cbn [app]. rewrite filter_change.
      rewrite (filter_eqb_NoDup _ input (NoDup_select _ _ _ Hwf1) Hin1). reflexivity.
    - symmetry. apply filter_nil_iff. intros l Hl. apply not_change.
      destruct (Honly l Hl) as [(f & _ & ->) | Hr]; eauto. }
  assert (Hdispatch : forall b d',
            validateFileUpload input d2 = Ok b d' ->
            (construct random now ;; dispatchEvent input "change") d = Ok true d').
  { intros b d' Hv. unfold bind at 1. rewrite Hcons.
    unfold dispatchEvent, bind at 1, gets. rewrite Hhs.
    cbn [handleAll handle eventTarget]. unfold bind. rewrite Hv. reflexivity. }
  exists self, d2.
  pose proof (validateFileUpload_cases input d2 Hfile2) as Hcases.
  rewrite Hfiles2 in Hcases.
  destruct (hd_error (files (heap d input))) as [file | ] eqn:Ehd.
  - destruct (includes allowedTypes (File.type file)) eqn:Ety; cbn [negb] in Hcases.
    + destruct (maxSize <? File.size file)%N eqn:Esz.
      * destruct (reject_spec input p d2 Hwf2 Hp Hplain2 Hfile2 sizeMessage)
          as (d' & Hrun & _ & Hmark & Hval & Hfl & _).
        rewrite Hrun in Hcases.
        exists false, d'. split; [assumption | ]. split; [assumption | ].
        split; [assumption | ]. split; [eapply Hdispatch; eassumption | ].
        split; [ | auto].
        split; [discriminate | ].
        intros [H | (f' & Hf' & _ & Hle)]; [discriminate | ].
        injection Hf' as <-. apply N.ltb_lt in Esz. lia.
      * destruct (accept_spec input p d2 Hwf2 Hp Hplain2)
          as (d' & Hrun & _).
        rewrite Hrun in Hcases.
        exists true, d'. split; [assumption | ]. split; [assumption | ].
        split; [assumption | ]. split; [eapply Hdispatch; eassumption | ].
        split; [ | discriminate].
        split; [ | reflexivity]. intros _. right. exists file.
        split; [reflexivity | ]. split; [apply includes_In; assumption | ].
        apply N.ltb_ge. assumption.
    + destruct (reject_spec input p d2 Hwf2 Hp Hplain2 Hfile2 typeMessage)
        as (d' & Hrun & _ & Hmark & Hval & Hfl & _).
      rewrite Hrun in Hcases.
      exists false, d'. split; [assumption | ]. split; [assumption | ].
      split; [assumption | ]. split; [eapply Hdispatch; eassumption | ].
      split; [ | auto].
      split; [discriminate | ].
      intros [H | (f' & Hf' & Hin & _)]; [discriminate | ].
      injection Hf' as <-. apply includes_In in Hin. congruence.
  - exists true, d2. split; [assumption | ]. split; [assumption | ].
    split; [assumption | ]. split; [eapply Hdispatch; eassumption | ].
    split; [ | discriminate]. split; auto.
Qed.

(** X19 on a 6 MiB GIF. *)
Lemma change_after_construct_witness :
  exists self d1 b d',
    construct "0.4fzyo82mvyr" "lq3k2p9x" (uploadPage [gif6MiB]) = Ok self d1 /\
    validateFileUpload 3 d1 = Ok b d' /\
    (construct "0.4fzyo82mvyr" "lq3k2p9x" ;; dispatchEvent 3 "change")
      (uploadPage [gif6MiB]) = Ok true d' /\
    (b = false -> files (heap d' 3) = []).
Proof.
  destruct (change_after_construct "0.4fzyo82mvyr" "lq3k2p9x" 3 (uploadPage [gif6MiB]))
    as (self & d1 & b & d' & H1 & _ & H2 & H3 & _ & H4).
  - apply wellFormed_uploadPage.
  - reflexivity.
  - intros g i Hg Hi. vm_compute in Hg. destruct Hg as [<- | []].
    vm_compute in Hi. exact Hi.
  - split; reflexivity.
  - reflexivity.
  - vm_compute. auto.
  - reflexivity.
  - exists self, d1, b, d'. split; [assumption | ]. split; [assumption | ].
    split; [assumption | ]. intros Hb. apply H4. assumption.
Defined.

Section FieldEvents.

Lemma all_equal_repeat (A : Type) (l : list A) (a : A) :
  (forall x, In x l -> x = a) -> l = repeat a (List.length l).
Proof.
  induction l as [ | x l IH]; intros H; [reflexivity | ].
  cbn [List.length repeat]. rewrite (H x (or_introl eq_refl)). f_equal.
  apply IH. intros y Hy. apply H. right. assumption.
Qed.

Lemma field_handlers (i : nat) (ty : string) (h : nat -> handler)
    (added : list listener) :
  In {| target := i; eventType := ty; callback := h i |} added ->
  (forall l, In l added ->
     listening i ty l = true ->
     l = {| target := i; eventType := ty; callback := h i |}) ->
  exists n, map callback (filter (listening i ty) added) = repeat (h i) (S n).
Proof.
  intros Hin Hall.
  set (l := filter (listening i ty) added).
  assert (Hl : forall x, In x (map callback l) -> x = h i).
  { intros x Hx. apply in_map_iff in Hx as (y & <- & Hy).
    apply filter_In in Hy as [Hy Hlis]. rewrite (Hall y Hy Hlis). reflexivity. }
  assert (Hne : In (h i) (map callback l)).
  { apply in_map_iff. exists {| target := i; eventType := ty; callback := h i |}.
    split; [reflexivity | ]. apply filter_In. split; [assumption | ].
    unfold listening. cbn [target eventType].
    rewrite Nat.eqb_refl, String.eqb_refl. reflexivity. }
  rewrite (all_equal_repeat _ _ _ Hl).
  destruct (List.length (map callback l)) as [ | n] eqn:E; [ | eauto].
  apply length_zero_iff_nil in E. rewrite E in Hne. destruct Hne.
Qed.

Lemma listening_target (i : nat) (ty : string) (l : listener) :
  listening i ty l = true -> target l = i /\ eventType l = ty.
Proof.
  unfold listening. intros H. apply andb_true_iff in H as [H1 H2].
  apply Nat.eqb_eq in H1. apply String.eqb_eq in H2. auto.
Qed.

Lemma blur_only (i : nat) (l : listener) :
  (exists f, l = submitListener f) \/ (exists x, In l (fieldListeners x)) ->
  listening i "blur" l = true ->
  l = {| target := i; eventType := "blur"; callback := OnBlur i |}.
Proof.
  intros H Hl. apply listening_target in Hl as [Ht He].
  destruct H as [(f & ->) | (x & [<- | [<- | []]])]; cbn [target eventType] in *;
    try discriminate He.
  subst x. reflexivity.
Qed.

Lemma input_only (i : nat) (l : listener) :
  (exists f, l = submitListener f) \/ (exists x, In l (fieldListeners x)) ->
  listening i "input" l = true ->
  l = {| target := i; eventType := "input"; callback := OnInput i |}.
Proof.
  intros H Hl. apply listening_target in Hl as [Ht He].
  destruct H as [(f & ->) | (x & [<- | [<- | []]])]; cbn [target eventType] in *;
    try discriminate He.
  subst x. reflexivity.
Qed.

Lemma filter_other_change (i : nat) (ty : string) (l : list nat) :
  ty <> "change" ->
  filter (listening i ty)
    (map (fun i => {| target := i; eventType := "change"; callback := OnChange |}) l)
  = [].
Proof.
  intros Hty. apply filter_nil_iff. intros x Hx.
  apply in_map_iff in Hx as (y & <- & _). unfold listening. cbn [target eventType].
  destruct (String.eqb_spec "change" ty) as [E | E]; [congruence | ].
  apply andb_false_r.
Qed.

(** Validating a field again and again. *)
Lemma validateField_repeat (field p : nat) (e : event) (n : nat) :
  forall d : document,
    wellFormed d -> tidy d -> parentOf field (body d) = Some p -> plainField field d ->
    exists d',
      handleAll (repeat (OnBlur field) n) e d = Ok e d' /\
      wellFormed d' /\ tidy d' /\
      (0 < n -> marked field d' = negb (passes (heap d field))) /\
      (forall i, i < nextId d ->
         heap d' i = with_classList (classList (heap d' i)) (heap d i)).
Proof.
  induction n as [ | n IH]; intros d Hwf Htidy Hp Hplain.
  - exists d. split; [reflexivity | ]. split; [assumption | ]. split; [assumption | ].
    split; [lia | ]. intros i _. destruct (heap d i); reflexivity.
  - destruct (validateField_step field p d Hwf Htidy Hp Hplain)
      as (d1 & Hv & Hwf1 & Htidy1 & Hmark1 & Hplain1 & Hoth1 & Hfld1 & Hpar1 &
          Hle1 & _).
    assert (Hp1 : parentOf field (body d1) = Some p) by (apply Hpar1; assumption).
    destruct (IH d1 Hwf1 Htidy1 Hp1 Hplain1)
      as (d' & Hrun & Hwf' & Htidy' & Hmark' & Hcls').
    assert (Hpass : passes (heap d1 field) = passes (heap d field)).
    { rewrite Hfld1. reflexivity. }
    exists d'. split.
    { cbn [repeat handleAll handle]. unfold bind. rewrite Hv.
      unfold ret. exact Hrun. }
    split; [assumption | ]. split; [assumption | ].
    split.
    + intros _. destruct n as [ | n].
      * cbn [repeat handleAll] in Hrun. injection Hrun as <-. assumption.
      * rewrite Hmark' by lia. rewrite Hpass. reflexivity.
    + intros i Hi. rewrite (Hcls' i) by lia.
      destruct (Nat.eq_dec i field) as [-> | Hne].
      * rewrite Hfld1. reflexivity.
      * rewrite (Hoth1 i Hne Hi). reflexivity.
Qed.

(** Clearing the error of a field again and again. *)
Lemma clearFieldError_repeat (field p : nat) (e : event) (n : nat) :
  forall d : document,
    wellFormed d -> tidy d -> parentOf field (body d) = Some p -> plainField field d ->
    exists d',
      handleAll (repeat (OnInput field) n) e d = Ok e d' /\
      wellFormed d' /\ tidy d' /\
      (0 < n -> marked field d' = false) /\
      nextId d' = nextId d /\
      (forall i, heap d' i = with_classList (classList (heap d' i)) (heap d i)).
Proof.
  induction n as [ | n IH]; intros d Hwf Htidy Hp Hplain.
  - exists d. split; [reflexivity | ]. split; [assumption | ]. split; [assumption | ].
    split; [lia | ]. split; [reflexivity | ].
    intros i. destruct (heap d i); reflexivity.
  - destruct (clear_step field p d Hwf Htidy Hp Hplain)
      as (d1 & Hc & Hwf1 & Htidy1 & Hn1 & Hp1 & Hplain1 & Hmark1 & Hoth1 & Hfld1 & _).
    destruct (IH d1 Hwf1 Htidy1 Hp1 Hplain1)
      as (d' & Hrun & Hwf' & Htidy' & Hmark' & Hn' & Hcls').
    exists d'. split.
    { cbn [repeat handleAll handle]. unfold bind. rewrite Hc.
      unfold ret. exact Hrun. }
    split; [assumption | ]. split; [assumption | ].
    split.
    + intros _. destruct n as [ | n].
      * cbn [repeat handleAll] in Hrun. injection Hrun as <-. assumption.
      * apply Hmark'. lia.
    + split; [congruence | ].
      intros i. rewrite (Hcls' i).
      destruct (Nat.eq_dec i field) as [-> | Hne].
      * rewrite Hfld1. reflexivity.
      * rewrite (Hoth1 i Hne). reflexivity.
Qed.

(** The page after construction, as the handlers of a field find it. *)
Lemma construct_field (random now : string) (form i : nat) (d : document) :
  wellFormed d -> tidy d -> listeners d = [] ->
  In form (select (ByTag "form") (id (body d)) d) ->
  In i (select (Or (ByTag "input") (ByTag "textarea")) form d) ->
  exists self d2 p,
    construct random now d = Ok self d2 /\
    wellFormed d2 /\ tidy d2 /\
    parentOf i (body d2) = Some p /\ plainField i d2 /\
    nextId d <= nextId d2 /\
    (forall j, j < nextId d -> heap d2 j = with_accept (accept (heap d2 j)) (heap d j)) /\
    (exists n, map callback (filter (listening i "blur") (listeners d2)) =
               repeat (OnBlur i) (S n)) /\
    (exists n, map callback (filter (listening i "input") (listeners d2)) =
               repeat (OnInput i) (S n)).
Proof.
  intros Hwf Htidy Hnone Hform Hi.
  set (self := {| csrfToken := generateCSRFToken random now |}).
  destruct (enhanceFormSecurity_spec self d Hwf)
    as (d1 & Hrun1 & Hwf1 & _ & _ & _ & Hle1 & _ & Hold1 & _ & _ & Hgrow1 & _ & _ & _ &
        Htidy1 & _).
  specialize (Htidy1 Htidy).
  destruct (enhanceFormSecurity_listeners self d Hwf)
    as (d1' & added & Hrun1' & Hl1 & Hall & Honly).
  rewrite Hrun1 in Hrun1'. injection Hrun1' as <-.
  destruct (setupFileUploadValidation_frame d1)
    as (d2 & Hrun2 & Hb2 & Hn2 & Ht2 & _ & Hh2 & _ & Hl2).
  assert (Hwf2 : wellFormed d2) by (apply (wellFormed_ext d1); assumption).
  assert (Htidy2 : tidy d2).
  { apply (tidy_ext d1); [assumption | | assumption].
    intros j. rewrite (Hh2 j). split; reflexivity. }
  assert (Hi2 : In i (select (Or (ByTag "input") (ByTag "textarea")) form d2)).
  { replace (select (Or (ByTag "input") (ByTag "textarea")) form d2)
      with (select (Or (ByTag "input") (ByTag "textarea")) form d1).
    - apply Hgrow1. assumption.
    - symmetry. apply select_ext_matches; [assumption | ].
      intros j. rewrite (Hh2 j). apply matches_accept. }
  apply select_In in Hi2 as (Hdesc & Hm & _).
  destruct (has_parent _ _ Hdesc) as (p & Hp).
  exists self, d2, p. split.
  { unfold construct, init, bind. cbv zeta. fold self.
    rewrite Hrun1, Hrun2. reflexivity. }
  split; [assumption | ]. split; [assumption | ]. split; [assumption | ].
  split.
  { apply tidy_plain; [assumption | apply descendants_ids; assumption | assumption]. }
  split; [lia | ].
  split.
  { intros j Hj. rewrite (Hh2 j), (Hold1 j Hj). reflexivity. }
  destruct (Hall form Hform) as [_ Hfields].
  specialize (Hfields i Hi).
  assert (Hlist : listeners d2 =
            added ++
            map (fun i => {| target := i; eventType := "change"; callback := OnChange |})
              (select (ByTagType "input" "file") (id (body d1)) d1)).
  { rewrite Hl2, Hl1, Hnone. reflexivity. }
  rewrite Hlist, !filter_app.
  rewrite !filter_other_change by discriminate. rewrite !app_nil_r.
  split.
  - apply (field_handlers i "blur" OnBlur).
    + apply Hfields. left. reflexivity.
    + intros l Hl. apply blur_only.
      destruct (Honly l Hl) as [(f & _ & ->) | Hr]; eauto.
  - apply (field_handlers i "input" OnInput).
    + apply Hfields. right. left. reflexivity.
    + intros l Hl. apply input_only.
      destruct (Honly l Hl) as [(f & _ & ->) | Hr]; eauto.
Qed.

End FieldEvents.

(** X20: leaving a field, end to end.  The page is tidy and has no
    listener, no password input and no link (so that the two calls left
    out of [init] change nothing).  After [new WebsiteSecurity()], a
    [blur] event on an input or textarea of a form leaves it marked
    exactly when [validateField] rejects it on the page as it was; the
    event is not cancelled and no value changes. *)
Theorem blur_after_construct (random now : string) (form i : nat) (d : document) :
  wellFormed d -> tidy d -> listeners d = [] -> undecorated d ->
  In form (select (ByTag "form") (id (body d)) d) ->
  In i (select (Or (ByTag "input") (ByTag "textarea")) form d) ->
  exists b di d',
    validateField i d = Ok b di /\
    (construct random now ;; dispatchEvent i "blur") d = Ok true d' /\
    marked i d' = negb b /\
    (forall j, j < nextId d -> value (heap d' j) = value (heap d j)).
Proof.
  intros Hwf Htidy Hnone _ Hform Hi.
  destruct (validateField_verdict form i d Hwf Htidy Hi) as (di & Hv).
  destruct (construct_field random now form i d Hwf Htidy Hnone Hform Hi)
    as (self & d2 & p & Hcons & Hwf2 & Htidy2 & Hp & Hplain & Hle & Hh2 &
        (n & Hblur) & _).
  destruct (validateField_repeat i p {| eventTarget := i; defaultPrevented := false |}
              (S n) d2 Hwf2 Htidy2 Hp Hplain)
    as (d' & Hrun & _ & _ & Hmark & Hcls).
  assert (Hlt : i < nextId d).
  { apply select_In in Hi as (Hi & _). destruct Hwf as (_ & Hlt & _).
    apply Hlt, descendants_ids. assumption. }
  exists (passes (heap d i)), di, d'. split; [assumption | ].
  split.
  { unfold bind at 1. rewrite Hcons.
    unfold dispatchEvent, bind at 1, gets. rewrite Hblur.
    unfold bind. rewrite Hrun. reflexivity. }
  split.
  { rewrite Hmark by lia. rewrite (Hh2 i Hlt). reflexivity. }
  intros j Hj. rewrite (Hcls j) by lia. cbn [value with_classList].
  rewrite (Hh2 j Hj). reflexivity.
Qed.

(** X20 on the email field of [twoFieldPage]. *)
Lemma blur_after_construct_witness :
  exists b di d',
    validateField 5 twoFieldPage = Ok b di /\
    (construct "0.4fzyo82mvyr" "lq3k2p9x" ;; dispatchEvent 5 "blur") twoFieldPage
      = Ok true d' /\
    marked 5 d' = negb b.
Proof.
  destruct (blur_after_construct "0.4fzyo82mvyr" "lq3k2p9x" 1 5 twoFieldPage)
    as (b & di & d' & H1 & H2 & H3 & _).
  - apply wellFormedb_sound. reflexivity.
  - apply tidy_clean. reflexivity.
  - reflexivity.
  - split; reflexivity.
  - vm_compute. auto.
  - vm_compute. auto.
  - exists b, di, d'. auto.
Defined.

(** X21: typing in a field, end to end.  The page is tidy and has no
    listener, no field inside a field, no password input and no link (so
    that the two calls left out of [init] change nothing).  After
    [new WebsiteSecurity()], an [input] event on an input or textarea of a
    form leaves it unmarked; the handlers create no element, the event is
    not cancelled and no value changes. *)
Theorem input_after_construct (random now : string) (form i : nat) (d : document) :
  wellFormed d -> tidy d -> listeners d = [] ->
  unnested (Or (ByTag "input") (ByTag "textarea")) d -> undecorated d ->
  In form (select (ByTag "form") (id (body d)) d) ->
  In i (select (Or (ByTag "input") (ByTag "textarea")) form d) ->
  exists self d1 d',
    construct random now d = Ok self d1 /\
    (construct random now ;; dispatchEvent i "input") d = Ok true d' /\
    marked i d' = false /\
    nextId d' = nextId d1 /\
    (forall j, j < nextId d -> value (heap d' j) = value (heap d j)).
Proof.
  intros Hwf Htidy Hnone _ _ Hform Hi.
  destruct (construct_field random now form i d Hwf Htidy Hnone Hform Hi)
    as (self & d2 & p & Hcons & Hwf2 & Htidy2 & Hp & Hplain & Hle & Hh2 &
        _ & (n & Hinput)).
  destruct (clearFieldError_repeat i p {| eventTarget := i; defaultPrevented := false |}
              (S n) d2 Hwf2 Htidy2 Hp Hplain)
    as (d' & Hrun & _ & _ & Hmark & Hn & Hcls).
  exists self, d2, d'. split; [assumption | ].
  split.
  { unfold bind at 1. rewrite Hcons.
    unfold dispatchEvent, bind at 1, gets. rewrite Hinput.
    unfold bind. rewrite Hrun. reflexivity. }
  split; [apply Hmark; lia | ]. split; [assumption | ].
  intros j Hj. rewrite (Hcls j). cbn [value with_classList].
  rewrite (Hh2 j Hj). reflexivity.
Qed.

(** X21 on the required field of [twoFieldPage]. *)
Lemma input_after_construct_witness :
  exists self d1 d',
    construct "0.4fzyo82mvyr" "lq3k2p9x" twoFieldPage = Ok self d1 /\
    (construct "0.4fzyo82mvyr" "lq3k2p9x" ;; dispatchEvent 3 "input") twoFieldPage
      = Ok true d' /\
    marked 3 d' = false.
Proof.
  destruct (input_after_construct "0.4fzyo82mvyr" "lq3k2p9x" 1 3 twoFieldPage)
    as (self & d1 & d' & H1 & H2 & H3 & _).
  - apply wellFormedb_sound. reflexivity.
  - apply tidy_clean. reflexivity.
  - reflexivity.
  - intros g i Hg Hi. vm_compute in Hg. destruct Hg as [<- | [<- | []]];
      vm_compute in Hi; exact Hi.
  - split; reflexivity.
  - vm_compute. auto.
  - vm_compute. auto.
  - exists self, d1, d'. auto.
Defined.
